(** * HAROS visualiser: name matching, graph visibility, feature tree

    A shallow embedding of the selection and matching logic of
    [viz/js/views/ros.js] and [viz/js/views/collapsible-tree.js]:

    - [NameMatch]: [RosStaticGraph._nameMatch], the wildcard matcher used
      by [_connectUnknown];
    - [Visibility]: [RosStaticGraph.updateVisibility] over a model of the
      graphlib graph the view owns;
    - [CgRequest]: [RosSystemView.cgRequestData];
    - [FeatureTree]: the selection handlers of [MyTree]. *)

From Stdlib Require Import Ascii String.
From stdpp Require Import gmap strings list fin_maps pretty.

Local Open Scope string_scope.
Local Open Scope nat_scope.

(** ** Wildcard name matching *)

Module NameMatch.

(** [String.prototype.split] with a one-character separator: the pieces
    between separators, empty pieces included, so that ["/ns/a"] gives
    [""; "ns"; "a"] and the empty string gives [""]. *)
Fixpoint split (sep : ascii) (s : string) : list string :=
  match s with
  | EmptyString => [""]
  | String c s' =>
      if Ascii.eqb c sep then "" :: split sep s'
      else match split sep s' with
           | [] => [String c ""]
           | w :: ws => String c w :: ws
           end
  end.

Definition slash : ascii := "/"%char.

(** [for (k = from; k < from + n; ++k) if (call k) return true; return false;]
    where the call may itself run out of fuel. *)
Fixpoint for_k (call : nat → option bool) (from n : nat) : option bool :=
  match n with
  | 0 => Some false
  | S n' =>
      match call from with
      | None => None
      | Some true => Some true
      | Some false => for_k call (S from) n'
      end
  end.

(** [a[i] === "?"] for an array of strings. *)
Definition is_wild (a : list string) (i : nat) : bool :=
  bool_decide (a !! i = Some "?").

(** [_nameMatch(a1, k1, a2, k2)].  The loop
    [for (; i < len1 && j < len2; ++i, ++j)] carries no state but [(i, j)],
    and the function enters it with [(k1, k2)]: one round of the loop that
    falls through to [++i, ++j] is the function again at [(i+1, j+1)].
    Every round and every recursive call takes one unit of [fuel];
    [None] is "out of fuel", never a result of the source. *)
Fixpoint nameMatch_fuel (fuel : nat) (a1 : list string) (i : nat)
    (a2 : list string) (j : nat) : option bool :=
  match fuel with
  | 0 => None
  | S fuel' =>
      let len1 := length a1 in
      let len2 := length a2 in
      if (i <? len1) && (j <? len2) then
        if is_wild a1 i then
          if i =? len1 - 1 then Some true
          else for_k (fun k => nameMatch_fuel fuel' a1 (i + 1) a2 k) j (len2 - j)
        else if is_wild a2 j then
          if j =? len2 - 1 then Some true
          else for_k (fun k => nameMatch_fuel fuel' a1 k a2 (j + 1)) i (len1 - i)
        else if negb (bool_decide (a1 !! i = a2 !! j)) then Some false
        else nameMatch_fuel fuel' a1 (i + 1) a2 (j + 1)
      else Some ((i =? len1) && (j =? len2))
  end.

(** The number of segments still to be read on both sides. *)
Definition remaining (a1 : list string) (k1 : nat) (a2 : list string) (k2 : nat) : nat :=
  (length a1 - k1) + (length a2 - k2).

(** The matcher run with the fuel its measure asks for. *)
Definition _nameMatch (a1 : list string) (k1 : nat) (a2 : list string) (k2 : nat)
    : option bool :=
  nameMatch_fuel (S (remaining a1 k1 a2 k2)) a1 k1 a2 k2.

(** The boolean the call returns. *)
Definition matches (a1 : list string) (k1 : nat) (a2 : list string) (k2 : nat) : bool :=
  match _nameMatch a1 k1 a2 k2 with
  | Some b => b
  | None => false
  end.

(** [test(n1, n2, expected)] of the comment above [_nameMatch]: the call
    that [_connectUnknown] makes on two resource names. *)
Definition test (n1 n2 : string) : option bool :=
  _nameMatch (split slash n1) 0 (split slash n2) 0.

(** The 24 pairs of the comment, with the result it lists for each. *)
Definition documented_tests : list (string * string * bool) :=
  [ ("/ns/a", "/ns/a", true);
    ("/ns/a", "/a", false);
    ("/?/a", "/a", true);
    ("/?/a", "/ns/a", true);
    ("/?/a", "/ns/ns/a", true);
    ("/a", "/?/a", true);
    ("/ns/a", "/?/a", true);
    ("/ns/ns/a", "/?/a", true);
    ("/ns/?/a", "/ns/a", true);
    ("/ns/?/a", "/ns/ns/a", true);
    ("/ns/?/a", "/ns/ns/ns/a", true);
    ("/ns/?/b", "/ns/a", false);
    ("/ns/?", "/a", false);
    ("/ns/?", "/ns/a", true);
    ("/ns/?", "/ns/ns/a", true);
    ("/?", "/a", true);
    ("/?", "/ns/a", true);
    ("/?", "/?", true);
    ("/ns/?", "/?/a", true);
    ("/ns/?", "/ns/?", true);
    ("/ns/?", "/ns/?/a", true);
    ("/?/?", "/a", true);
    ("/?/?", "/ns/a", true);
    ("/?/?", "/ns/ns/a", true) ].

(** The recursive calls [_nameMatch] makes: from the entry [(k1, k2)] the
    loop reaches [(k1 + t, k2 + t)] with both indices in range, and there
    a wildcard that is not the last segment calls the function at
    [(i + 1, k)] for [j <= k < len2] or at [(k, j + 1)] for
    [i <= k < len1]. *)
Inductive calls (a1 a2 : list string) : nat * nat → nat * nat → Prop :=
  | calls_left k1 k2 t k :
      k1 + t < length a1 → k2 + t < length a2 →
      a1 !! (k1 + t) = Some "?" → k1 + t ≠ length a1 - 1 →
      k2 + t ≤ k < length a2 →
      calls a1 a2 (k1, k2) (k1 + t + 1, k)
  | calls_right k1 k2 t k :
      k1 + t < length a1 → k2 + t < length a2 →
      a1 !! (k1 + t) ≠ Some "?" →
      a2 !! (k2 + t) = Some "?" → k2 + t ≠ length a2 - 1 →
      k1 + t ≤ k < length a1 →
      calls a1 a2 (k1, k2) (k, k2 + t + 1).

End NameMatch.

(** ** Graph visibility *)

Module Visibility.

(** A [views.ResourceNode], reduced to what [updateVisibility] reads and
    writes: [model.id], [model.get("resourceType")] and the [visible]
    flag. *)
Record ResourceNode := mkNode {
  model_id : string;
  resourceType : string;
  visible : bool }.

(** An edge label as [_addEdge] makes it.  [source] and [target] are
    references to the views of the end points; a view is referred to by
    the id of its model, under which the graph of the board stores it.
    An end that is [undefined] is a reference under which the graph has
    no view. *)
Record Edge := mkEdge {
  source : string;
  target : string;
  e_visible : bool }.

(** A [dagre.graphlib.Graph] (directed, not compound, no multi-edges): node
    ids with their labels, edges [(v, w)] with their labels.  A node made
    by [setEdge] for a missing end point has the label [undefined],
    here [None]. *)
Record Graph := mkGraph {
  g_nodes : gmap string (option ResourceNode);
  g_edges : gmap (string * string) Edge }.

Definition empty_graph : Graph := mkGraph ∅ ∅.

(** [g.nodes()], [g.edges()]: the keys. *)
Definition nodes (g : Graph) : list string := (map_to_list (g_nodes g)).*1.
Definition edges (g : Graph) : list (string * string) := (map_to_list (g_edges g)).*1.

(** [g.node(v)], [g.edge(e)]; [None] is [undefined]. *)
Definition node (g : Graph) (v : string) : option ResourceNode :=
  match g_nodes g !! v with
  | Some (Some n) => Some n
  | _ => None
  end.
Definition edge (g : Graph) (e : string * string) : option Edge := g_edges g !! e.

Definition hasEdge (g : Graph) (v w : string) : bool :=
  bool_decide (is_Some (g_edges g !! (v, w))).

(** [g.setNode(v, label)]. *)
Definition setNode (g : Graph) (v : string) (n : ResourceNode) : Graph :=
  mkGraph (<[v := Some n]> (g_nodes g)) (g_edges g).

(** [g.setNode(v)] as [setEdge] calls it: a node that exists is left
    alone, a new one has no label. *)
Definition ensureNode (ns : gmap string (option ResourceNode)) (v : string)
    : gmap string (option ResourceNode) :=
  match ns !! v with
  | Some _ => ns
  | None => <[v := None]> ns
  end.

(** [g.setEdge(e, label)] with [e = {v, w}]. *)
Definition setEdge (g : Graph) (e : string * string) (l : Edge) : Graph :=
  mkGraph (ensureNode (ensureNode (g_nodes g) e.1) e.2) (<[e := l]> (g_edges g)).

(** Assignments to the fields of a view or an edge label held by the
    graph of the board: the object is shared, so the graph sees them. *)
Definition write_node (g : Graph) (k : string) (n : ResourceNode) : Graph :=
  mkGraph (<[k := Some n]> (g_nodes g)) (g_edges g).
Definition write_edge (g : Graph) (e : string * string) (l : Edge) : Graph :=
  mkGraph (g_nodes g) (<[e := l]> (g_edges g)).

Definition set_visible (b : bool) (n : ResourceNode) : ResourceNode :=
  mkNode (model_id n) (resourceType n) b.
Definition set_e_visible (b : bool) (l : Edge) : Edge :=
  mkEdge (source l) (target l) b.

(** The part of a [RosStaticGraph] that [updateVisibility] uses.  [focus]
    is a reference to a view, [None] for [null]: as in an edge label,
    the id of the model of the view, which no two views share
    ([model.cid]).  [v === this.focus] is then equality of the two ids,
    and [this.focus.model.id] the reference itself. *)
Record View := mkView {
  graph : Graph;
  focus : option string;
  showParams : bool }.

(** [for (i = keys.length; i--;) body(keys[i])]: from the last key to the
    first, each round on the state the one before left.  [None] is a
    [TypeError] (a property read on [undefined]). *)
Definition for_rev {K S : Type} (keys : list K) (body : K → S → option S) (s : S)
    : option S :=
  foldr (fun k acc => acc ≫= body k) (Some s) keys.

(** [v.model.get("resourceType") !== "param"]. *)
Definition not_param (n : ResourceNode) : bool :=
  negb (bool_decide (resourceType n = "param")).

(** The bodies of the eight loops of [updateVisibility], in the order of
    the source.  The state of the last four is the graph of the board
    and [visibleGraph]; a view or label put into [visibleGraph] is the
    object the graph of the board holds, and is not written again in the
    same call once it is put there. *)
Definition show_node (k : string) (g : Graph) : option Graph :=
  v ← node g k;
  Some (write_node g k (set_visible true v)).

Definition show_edge (e : string * string) (g : Graph) : option Graph :=
  v ← edge g e;
  Some (write_edge g e (set_e_visible true v)).

Definition hide_param_node (k : string) (g : Graph) : option Graph :=
  v ← node g k;
  Some (write_node g k (set_visible (not_param v) v)).

Definition hide_param_edge (e : string * string) (g : Graph) : option Graph :=
  v ← edge g e;
  s ← node g (source v);
  t ← node g (target v);
  Some (write_edge g e (set_e_visible (not_param s && not_param t) v)).

Definition focus_node (f : string) (k : string) (st : Graph * Graph)
    : option (Graph * Graph) :=
  let '(g, visibleGraph) := st in
  v ← node g k;
  let b := visible v
           && (bool_decide (model_id v = f)
               || hasEdge g (model_id v) f
               || hasEdge g f (model_id v)) in
  let v' := set_visible b v in
  Some (write_node g k v',
        if b then setNode visibleGraph (model_id v') v' else visibleGraph).

Definition focus_edge (f : string) (e : string * string) (st : Graph * Graph)
    : option (Graph * Graph) :=
  let '(g, visibleGraph) := st in
  v ← edge g e;
  let b := e_visible v && (bool_decide (e.1 = f) || bool_decide (e.2 = f)) in
  let v' := set_e_visible b v in
  Some (write_edge g e v',
        if b then setEdge visibleGraph e v' else visibleGraph).

Definition copy_node (k : string) (st : Graph * Graph) : option (Graph * Graph) :=
  let '(g, visibleGraph) := st in
  v ← node g k;
  Some (g, if visible v then setNode visibleGraph (model_id v) v else visibleGraph).

Definition copy_edge (e : string * string) (st : Graph * Graph) : option (Graph * Graph) :=
  let '(g, visibleGraph) := st in
  v ← edge g e;
  Some (g, if e_visible v then setEdge visibleGraph e v else visibleGraph).

(** The second half of [updateVisibility], from
    [visibleGraph = new dagre.graphlib.Graph()] on. *)
Definition build_visible (nodes : list string) (edges : list (string * string))
    (focus : option string) (g : Graph) : option (Graph * Graph) :=
  let visibleGraph := empty_graph in
  match focus with
  | Some f =>
      st ← for_rev nodes (focus_node f) (g, visibleGraph);
      for_rev edges (focus_edge f) st
  | None =>
      st ← for_rev nodes copy_node (g, visibleGraph);
      for_rev edges copy_edge st
  end.

(** [updateVisibility]: the graph it returns, and the view with the flags
    it has written.  With [showParams] and no focus the graph returned
    is the graph of the board itself. *)
Definition updateVisibility (this : View) : option (Graph * View) :=
  let nodes := nodes (graph this) in
  let edges := edges (graph this) in
  let put g := mkView g (focus this) (showParams this) in
  if showParams this then
    g1 ← for_rev nodes show_node (graph this);
    g2 ← for_rev edges show_edge g1;
    match focus this with
    | None => Some (g2, put g2)
    | Some _ =>
        '(g3, visibleGraph) ← build_visible nodes edges (focus this) g2;
        Some (visibleGraph, put g3)
    end
  else
    g1 ← for_rev nodes hide_param_node (graph this);
    g2 ← for_rev edges hide_param_edge g1;
    '(g3, visibleGraph) ← build_visible nodes edges (focus this) g2;
    Some (visibleGraph, put g3).

(** The invariant of the graph of a board: a view is stored under the id
    of its model, an edge label refers to the views stored under the two
    ids of its key, and both are nodes of the graph.  [_addResource]
    keeps it, and [_addEdge] between two ids that have views; [_addEdge]
    with an id that has no view breaks it. *)
Record wf_graph (g : Graph) : Prop := mkWf {
  wf_label : ∀ k l, g_nodes g !! k = Some l → ∃ v, l = Some v ∧ model_id v = k;
  wf_ends : ∀ e l, g_edges g !! e = Some l →
      source l = e.1 ∧ target l = e.2
      ∧ is_Some (g_nodes g !! e.1) ∧ is_Some (g_nodes g !! e.2) }.

(** [_addResource(resource, mapping)] for a resource of the given type:
    [cid] is the [model.cid] of the model made for it, and the view starts
    hidden. *)
Definition _addResource (cid resourceType : string) (g : Graph) : Graph :=
  setNode g cid (mkNode cid resourceType false).

(** [this.graph.node(cid)] as [_addEdge] puts it into an edge label: the
    reference to the view stored under the id.  Where the graph has no
    view under the id the end is [undefined], a reference to no view:
    here the id itself, under which [setEdge] then makes a node without
    a label. *)
Definition end_view (g : Graph) (cid : string) : string :=
  match node g cid with
  | Some v => model_id v
  | None => cid
  end.

(** [_addEdge(sourceCid, targetCid, conditional)]. *)
Definition _addEdge (sourceCid targetCid : string) (g : Graph) : Graph :=
  setEdge g (sourceCid, targetCid)
    (mkEdge (end_view g sourceCid) (end_view g targetCid) false).

(** The condition on parameters in force: everything when [showParams],
    else no resource of type ["param"]; for an edge, neither end point. *)
Definition param_ok (showParams : bool) (n : ResourceNode) : bool :=
  showParams || not_param n.

Definition edge_not_param (g : Graph) (l : Edge) : bool :=
  match node g (source l), node g (target l) with
  | Some s, Some t => not_param s && not_param t
  | _, _ => false
  end.

Definition edge_param_ok (showParams : bool) (g : Graph) (l : Edge) : bool :=
  showParams || edge_not_param g l.

(** The condition on the focus: a node is the focus or has an edge to or
    from it, an edge starts or ends at it; no condition without focus. *)
Definition near_focus (focus : option string) (g : Graph) (k : string) : bool :=
  match focus with
  | None => true
  | Some f => bool_decide (k = f) || hasEdge g k f || hasEdge g f k
  end.

Definition at_focus (focus : option string) (e : string * string) : bool :=
  match focus with
  | None => true
  | Some f => bool_decide (e.1 = f) || bool_decide (e.2 = f)
  end.

(** The first half of [updateVisibility]: the two loops of the branch
    taken on [showParams]. *)
Definition param_pass (showParams : bool) (g : Graph) : option Graph :=
  if showParams then
    g1 ← for_rev (nodes g) show_node g;
    for_rev (edges g) show_edge g1
  else
    g1 ← for_rev (nodes g) hide_param_node g;
    for_rev (edges g) hide_param_edge g1.

(** [wf_graph] as a check that runs. *)
Definition check_wf (g : Graph) : bool :=
  forallb (fun kl : string * option ResourceNode =>
             match kl.2 with
             | Some v => bool_decide (model_id v = kl.1)
             | None => false
             end) (map_to_list (g_nodes g))
  && forallb (fun el : string * string * Edge =>
                bool_decide (source el.2 = el.1.1)
                && bool_decide (target el.2 = el.1.2)
                && bool_decide (is_Some (g_nodes g !! el.1.1))
                && bool_decide (is_Some (g_nodes g !! el.1.2)))
             (map_to_list (g_edges g)).

(** A board as [setModel] leaves it: a node [c1] that publishes on the
    topic [c2] and reads the parameter [c3], and a node [c4] that
    subscribes to [c2]; nothing is visible yet. *)
Definition sample_graph : Graph :=
  mkGraph
    (<["c1" := Some (mkNode "c1" "node" false)]>
     (<["c2" := Some (mkNode "c2" "topic" false)]>
      (<["c3" := Some (mkNode "c3" "param" false)]>
       (<["c4" := Some (mkNode "c4" "node" false)]> ∅))))
    (<[("c1", "c2") := mkEdge "c1" "c2" false]>
     (<[("c2", "c4") := mkEdge "c2" "c4" false]>
      (<[("c3", "c1") := mkEdge "c3" "c1" false]> ∅))).

Definition sample_view (focus : option string) (showParams : bool) : View :=
  mkView sample_graph focus showParams.

End Visibility.

(** ** The request for a computation graph *)

Module CgRequest.

(** What the request holds for an argument: [null] or a string. *)
Inductive jsvalue : Type :=
  | JNull
  | JString (s : string).

#[export] Instance jsvalue_eq_dec : EqDecision jsvalue.
Proof. solve_decision. Defined.

(** The feature model as the tree hands it back ([getModelData]): launch
    files, their args, the values of each arg.  [selected] is [true],
    [false] or unknown ([null] or absent), here [None]. *)
Record ValueData := mkValue {
  v_name : string;
  v_selected : option bool;
  v_resolved : bool;
  v_value : jsvalue }.

Record ArgData := mkArg {
  a_name : string;
  a_selected : option bool;
  a_children : list ValueData }.

Record LaunchData := mkLaunch {
  l_name : string;
  l_selected : option bool;
  l_children : list ArgData }.

Record FeatureModel := mkFeatureModel {
  fm_id : string;
  fm_children : list LaunchData }.

(** The [args] of an entry, a plain object made by [{}]: its own
    properties, which are what [JSON.stringify] sends, and whether its
    prototype is still [Object.prototype]. *)
Record ArgsObject := mkArgs {
  own : gmap string jsvalue;
  has_prototype : bool }.

(** The body of [POST /cg/calculate]. *)
Record LaunchEntry := mkEntry {
  name : string;
  args : ArgsObject }.

Record Request := mkRequest {
  project : string;
  launch : list LaunchEntry;
  discard : list string }.

(** [if (x.selected)] on the three states. *)
Definition truthy (selected : option bool) : bool :=
  match selected with
  | Some true => true
  | _ => false
  end.

(** The loop over the values of an arg: [value] is [null] until the first
    selected value sets it and breaks. *)
Fixpoint selected_value (ds : list ValueData) : jsvalue :=
  match ds with
  | [] => JNull
  | d3 :: rest =>
      if truthy (v_selected d3) then
        if v_resolved d3 then JString (v_name d3) else v_value d3
      else selected_value rest
  end.

(** The [value] that a round of the loop over the args computes. *)
Definition arg_value (d2 : ArgData) : jsvalue :=
  if truthy (a_selected d2) then selected_value (a_children d2) else JNull.

(** [args[k] = value] on a plain object: an own property is made or
    written, assigning a name twice keeps the last.  The name
    [__proto__] is the exception: it is an accessor of
    [Object.prototype], so that assigning a string to it does nothing,
    and assigning [null] takes the prototype of the object away; on an
    object without prototype [__proto__] is a name like any other. *)
Definition assign (args : ArgsObject) (k : string) (value : jsvalue) : ArgsObject :=
  if bool_decide (k = "__proto__") && has_prototype args then
    match value with
    | JNull => mkArgs (own args) false
    | JString _ => args
    end
  else mkArgs (<[k := value]> (own args)) (has_prototype args).

(** One round of the loop over the args: [args[d2.name] = value]. *)
Definition add_arg (args : ArgsObject) (d2 : ArgData) : ArgsObject :=
  assign args (a_name d2) (arg_value d2).

(** [const args = {}] and the loop over the args of a launch file. *)
Definition launch_entry (d1 : LaunchData) : LaunchEntry :=
  mkEntry (l_name d1) (foldl add_arg (mkArgs ∅ true) (l_children d1)).

(** One round of the loop over the launch files. *)
Definition add_launch (data : Request) (d1 : LaunchData) : Request :=
  match l_selected d1 with
  | None => data
  | Some true => mkRequest (project data) (launch data ++ [launch_entry d1]) (discard data)
  | Some false => mkRequest (project data) (launch data) (discard data ++ [l_name d1])
  end.

Definition cgRequestData (fm : FeatureModel) : Request :=
  foldl add_launch (mkRequest (fm_id fm) [] []) (fm_children fm).

(** The value of an arg in the words of the specification: the name of
    its first selected value if that value is resolved, the [value]
    field of that value if not, [null] when the arg is not selected. *)
Definition stated_arg_value (d2 : ArgData) : jsvalue :=
  match a_selected d2 with
  | Some true =>
      match find (fun d3 => bool_decide (v_selected d3 = Some true)) (a_children d2) with
      | Some d3 => if v_resolved d3 then JString (v_name d3) else v_value d3
      | None => JNull
      end
  | _ => JNull
  end.

(** A launch file whose two args share the name ["x"]. *)
Definition twice_x : LaunchData :=
  mkLaunch "a.launch" (Some true)
    [ mkArg "x" (Some true) [ mkValue "1" (Some true) true JNull ];
      mkArg "x" None [] ].

(** A model with one launch file selected, one discarded and one left
    open. *)
Definition sample_launch : LaunchData :=
  mkLaunch "a.launch" (Some true)
    [ mkArg "x" (Some true)
        [ mkValue "1" (Some false) true JNull; mkValue "2" (Some true) true JNull ];
      mkArg "y" (Some true) [ mkValue "?" (Some true) false (JString "5") ];
      mkArg "z" None [ mkValue "0" None true JNull ] ].

Definition sample_model : FeatureModel :=
  mkFeatureModel "p"
    [ sample_launch; mkLaunch "b.launch" (Some false) []; mkLaunch "c.launch" None [] ].

(** The args that come after the first arg named [__proto__] whose
    value is [null]: those assigned to an object without prototype. *)
Fixpoint after_null (l : list ArgData) : list ArgData :=
  match l with
  | [] => []
  | d2 :: rest =>
      if bool_decide (a_name d2 = "__proto__") && bool_decide (arg_value d2 = JNull)
      then rest else after_null rest
  end.

(** A launch file with an arg named [__proto__]. *)
Definition with_proto : LaunchData :=
  mkLaunch "a.launch" (Some true)
    [ mkArg "__proto__" (Some true) [ mkValue "1" (Some true) true JNull ];
      mkArg "x" (Some true) [ mkValue "2" (Some true) true JNull ] ].

End CgRequest.

(** ** The feature tree: launch files, args, values *)

Module FeatureTree.

(** [window.prompt]: the message to the text typed, [None] when the
    dialog is dismissed. *)
Definition Prompt : Type := string → option string.

(** A tree node of type ["value"]: [d.id], [d.data.selected],
    [d.data.resolved] and the [d.ui] fields.  [selected] is [true],
    [false] or unknown. *)
Record ValueNode := mkValueNode {
  v_id : nat;
  v_selected : option bool;
  v_resolved : bool;
  v_ui_selected : option bool;
  v_ui_value : option string;
  v_ui_name : string }.

(** A tree node of type ["arg"].  [a_children] is
    [source.children || source._children]: the array of the values
    whether the node is unfolded or folded, [None] when there is none. *)
Record ArgNode := mkArgNode {
  a_selected : option bool;
  a_defaultValue : option nat;
  a_ui_selected : option bool;
  a_ui_previousValue : option nat;
  a_ui_name : string;
  a_children : option (list ValueNode) }.

(** A tree node of type ["roslaunch"]. *)
Record LaunchNode := mkLaunchNode {
  r_selected : option bool;
  r_ui_selected : option bool;
  r_children : option (list ArgNode) }.

(** [if (x)] on the three states. *)
Definition truthy (selected : option bool) : bool :=
  match selected with
  | Some true => true
  | _ => false
  end.

(** [setValueSelected(d, ask)]: the boolean returned and the node left;
    [parent_name] is [d.parent.ui.name]. *)
Definition setValueSelected (prompt : Prompt) (parent_name : string)
    (d : ValueNode) (ask : bool) : bool * ValueNode :=
  if negb (v_resolved d) then
    if ask || bool_decide (v_ui_value d = None) then
      match prompt ("Value for [" ++ parent_name ++ "]:")%string with
      | None | Some "" => (false, d)
      | Some v =>
          (true, mkValueNode (v_id d) (Some true) (v_resolved d)
                   (Some true) (Some v) (v ++ " (*)")%string)
      end
    else
      (true, mkValueNode (v_id d) (Some true) (v_resolved d)
               None (v_ui_value d) (v_ui_name d))
  else
    (true, mkValueNode (v_id d) (Some true) (v_resolved d)
             (Some true) (v_ui_value d) (v_ui_name d)).

(** [d.ui.selected = s; d.data.selected = s] on a value. *)
Definition set_value (s : option bool) (d : ValueNode) : ValueNode :=
  mkValueNode (v_id d) s (v_resolved d) s (v_ui_value d) (v_ui_name d).

(** The search for the value chosen before:
    [for (j = 0; j < children.length; ++j) if (children[j].id === previous)]. *)
Fixpoint find_previous (previous : nat) (children : list ValueNode) (j : nat)
    : option nat :=
  match children with
  | [] => None
  | d :: rest =>
      if v_id d =? previous then Some j else find_previous previous rest (S j)
  end.

(** The index [i] that [propagateArgSelection] settles on. *)
Definition chosen_index (source : ArgNode) (children : list ValueNode) : nat :=
  let i := default 0 (a_defaultValue source) in
  match a_ui_previousValue source with
  | Some previous => default i (find_previous previous children 0)
  | None => i
  end.

(** [propagateArgSelection(source)]: the boolean returned and the arg
    left.  [None] is a [TypeError]: no array of children to go over, or
    no child at the index chosen. *)
Definition propagateArgSelection (prompt : Prompt) (source : ArgNode)
    : option (bool * ArgNode) :=
  children ← a_children source;
  let v := a_selected source in
  if truthy v then
    let children := set_value (Some false) <$> children in
    let i := chosen_index source children in
    d ← children !! i;
    let '(ok, d') := setValueSelected prompt (a_ui_name source) d false in
    Some (ok,
          mkArgNode (a_selected source) (a_defaultValue source) (a_ui_selected source)
            (if ok then Some (v_id d') else a_ui_previousValue source)
            (a_ui_name source) (Some (<[i := d']> children)))
  else
    Some (true,
          mkArgNode (a_selected source) (a_defaultValue source) (a_ui_selected source)
            (a_ui_previousValue source) (a_ui_name source)
            (Some (set_value v <$> children))).

(** [d.ui.selected = s; d.data.selected = s] on an arg. *)
Definition set_arg (s : option bool) (d : ArgNode) : ArgNode :=
  mkArgNode s (a_defaultValue d) s (a_ui_previousValue d) (a_ui_name d) (a_children d).

(** [propagateRosLaunchSelection(source)]. *)
Definition propagateRosLaunchSelection (prompt : Prompt) (source : LaunchNode)
    : option LaunchNode :=
  match r_children source with
  | None => Some source
  | Some children =>
      let v := r_selected source in
      children' ←
        (if truthy v then
           mapM (fun d => if truthy (a_selected d) then Some d
                          else snd <$> propagateArgSelection prompt (set_arg None d))
                children
         else
           mapM (fun d => '(_, d') ← propagateArgSelection prompt (set_arg None d);
                          Some (set_arg v d'))
                children);
      Some (mkLaunchNode (r_selected source) (r_ui_selected source) (Some children'))
  end.

(** [propagateValueSelection(source)], where [source] is the value [vi]
    of the arg [ai] of [roslaunch]: what it leaves of the launch file,
    [source.parent.parent]. *)
Definition propagateValueSelection (prompt : Prompt) (roslaunch : LaunchNode)
    (ai vi : nat) : option LaunchNode :=
  args0 ← r_children roslaunch;
  arg0 ← args0 !! ai;
  values0 ← a_children arg0;
  source ← values0 !! vi;
  roslaunch ←
    (if negb (truthy (r_selected roslaunch)) then
       propagateRosLaunchSelection prompt
         (mkLaunchNode (Some true) (r_ui_selected roslaunch) (r_children roslaunch))
     else Some roslaunch);
  args ← r_children roslaunch;
  arg ← args !! ai;
  let arg := mkArgNode (Some true) (a_defaultValue arg) (Some true)
               (Some (v_id source)) (a_ui_name arg) (a_children arg) in
  '(_, arg) ← propagateArgSelection prompt arg;
  Some (mkLaunchNode (r_selected roslaunch) (r_ui_selected roslaunch)
          (Some (<[ai := arg]> args))).

(** The order in which a label click goes through the three states. *)
Definition next_state (s : option bool) : option bool :=
  match s with
  | Some true => Some false
  | Some false => None
  | None => Some true
  end.

(** [onSelectRosLaunch(d)]. *)
Definition onSelectRosLaunch (prompt : Prompt) (d : LaunchNode) : option LaunchNode :=
  if negb (bool_decide (r_ui_selected d = r_selected d)) then
    Some (mkLaunchNode (r_selected d) (r_selected d) (r_children d))
  else
    let s := if truthy (r_selected d) then Some false
             else if bool_decide (r_selected d = Some false) then None
             else Some true in
    propagateRosLaunchSelection prompt (mkLaunchNode s s (r_children d)).

(** An arg with three values, the second of them chosen before, and a
    launch file that holds it next to an arg left open. *)
Definition sample_arg : ArgNode :=
  mkArgNode (Some true) None (Some true) (Some 5) "x"
    (Some [ mkValueNode 4 (Some true) true (Some true) None "1";
            mkValueNode 5 None true None None "2";
            mkValueNode 6 None false None None "?" ]).

Definition sample_launch : LaunchNode :=
  mkLaunchNode None None
    (Some [ mkArgNode None None None None "y"
              (Some [ mkValueNode 2 None true None None "a" ]);
            sample_arg ]).

Definition always (answer : string) : Prompt := fun _ => Some answer.

(** [node.children = args] on a launch file. *)
Definition with_args (r : LaunchNode) (args : list ArgNode) : LaunchNode :=
  mkLaunchNode (r_selected r) (r_ui_selected r) (Some args).

(** [node.children = values] on an arg. *)
Definition with_values (a : ArgNode) (values : list ValueNode) : ArgNode :=
  mkArgNode (a_selected a) (a_defaultValue a) (a_ui_selected a)
    (a_ui_previousValue a) (a_ui_name a) (Some values).

(** [onSelectArg(d)], where [d] is the arg [ai] of [roslaunch], its
    parent: what it leaves of the launch file.  What
    [propagateArgSelection] returns is not looked at. *)
Definition onSelectArg (prompt : Prompt) (roslaunch : LaunchNode) (ai : nat)
    : option LaunchNode :=
  args ← r_children roslaunch;
  d ← args !! ai;
  if negb (bool_decide (a_ui_selected d = a_selected d)) then
    let d := mkArgNode (a_selected d) (a_defaultValue d) (a_selected d)
               (a_ui_previousValue d) (a_ui_name d) (a_children d) in
    d ← (if truthy (a_selected d) then snd <$> propagateArgSelection prompt d
         else Some d);
    Some (with_args roslaunch (<[ai := d]> args))
  else if bool_decide (a_selected d = Some false) then Some roslaunch
  else if truthy (a_selected d) then
    d ← snd <$> propagateArgSelection prompt (set_arg None d);
    Some (with_args roslaunch (<[ai := d]> args))
  else
    roslaunch ← propagateRosLaunchSelection prompt
                  (mkLaunchNode (Some true) (r_ui_selected roslaunch)
                     (r_children roslaunch));
    args ← r_children roslaunch;
    d ← args !! ai;
    d ← snd <$> propagateArgSelection prompt (set_arg (Some true) d);
    Some (with_args roslaunch (<[ai := d]> args)).

(** [onSelectValue(d)], where [d] is the value [vi] of the arg [ai] of
    [roslaunch]. *)
Definition onSelectValue (prompt : Prompt) (roslaunch : LaunchNode) (ai vi : nat)
    : option LaunchNode :=
  args ← r_children roslaunch;
  arg ← args !! ai;
  values ← a_children arg;
  d ← values !! vi;
  if bool_decide (a_selected arg = Some false) then Some roslaunch
  else
    let selected := v_selected d in
    let '(ok, d) := setValueSelected prompt (a_ui_name arg) d (truthy selected) in
    let roslaunch :=
      with_args roslaunch (<[ai := with_values arg (<[vi := d]> values)]> args) in
    if negb ok then Some roslaunch
    else
      roslaunch ← propagateValueSelection prompt roslaunch ai vi;
      args ← r_children roslaunch;
      arg ← args !! ai;
      values ← a_children arg;
      d ← values !! vi;
      Some (with_args roslaunch
              (<[ai := with_values arg (<[vi := set_value (Some true) d]> values)]> args)).

(** What [setValueSelected(d, false)] leaves of a value that is resolved,
    or whose text was typed before: nothing is asked. *)
Definition reselected (s : ValueNode) : ValueNode :=
  mkValueNode (v_id s) (Some true) (v_resolved s)
    (if v_resolved s then Some true else None) (v_ui_value s) (v_ui_name s).

(** What the assertions of the handlers say of an arg under a launch
    file whose [data.selected] is [s]: the arg is discarded exactly when
    the launch file is, a selected arg has a selected launch file, and a
    selected value has a selected arg. *)
Definition arg_inv (s : option bool) (a : ArgNode) : bool :=
  Bool.eqb (bool_decide (a_selected a = Some false)) (bool_decide (s = Some false))
  && (negb (truthy (a_selected a)) || truthy s)
  && (truthy (a_selected a)
      || forallb (fun d => negb (truthy (v_selected d))) (default [] (a_children a))).

Definition tree_inv (r : LaunchNode) : bool :=
  forallb (arg_inv (r_selected r)) (default [] (r_children r)).

End FeatureTree.

(** ** The tree of values of the earlier view *)

Module ValueTree.

(** A datum of the model: [value], [userValue] and the data below it. *)
#[local] Unset Elimination Schemes.
Inductive Datum : Type :=
  mkDatum { value : option bool; userValue : option bool; children : list Datum }.
#[local] Set Elimination Schemes.

(** An ancestor of the node clicked: its own [value] and [userValue],
    whether its children are unfolded ([n.children] is not [null]), and
    the data of its children before and after the one on the path. *)
Record Frame := mkFrame {
  f_value : option bool;
  f_userValue : option bool;
  f_unfolded : bool;
  f_before : list Datum;
  f_after : list Datum }.

(** A tree node [d]: its ancestors from [d.parent] up to the root, and
    its data.  [d.depth] is the number of ancestors. *)
Record TreeNode := mkTreeNode {
  ancestors : list Frame;
  data : Datum }.

Definition truthy (v : option bool) : bool :=
  match v with
  | Some true => true
  | _ => false
  end.

(** [recalculateValue(n)] for an ancestor [n], given the [value] now held
    by its child on the path. *)
Definition recalculateValue (child_value : option bool) (n : Frame) : Frame :=
  if negb (f_unfolded n) then n
  else
    let value :=
      if existsb truthy ((value <$> f_before n) ++ child_value :: (value <$> f_after n))
      then Some true else None in
    mkFrame (if truthy value then value else f_userValue n)
      (f_userValue n) (f_unfolded n) (f_before n) (f_after n).

(** [while (n != null && n.depth > 0) { recalculateValue(n); n = n.parent; }]
    from the parent up: every ancestor but the root. *)
Fixpoint recalculate_up (child_value : option bool) (up : list Frame) : list Frame :=
  match up with
  | [] => []
  | [root] => [root]
  | n :: up' =>
      let n' := recalculateValue child_value n in
      n' :: recalculate_up (f_value n') up'
  end.

(** What the loop over the stack leaves of a datum below the source: each
    datum popped gets [fv(datum)] and has its children pushed. *)
Fixpoint assign_below (fv : Datum → option bool) (datum : Datum) : Datum :=
  mkDatum (fv datum) (userValue datum) (assign_below fv <$> children datum).

(** [propagateSelection(source)]. *)
Definition propagateSelection (source : TreeNode) : TreeNode :=
  let up := recalculate_up (value (data source)) (ancestors source) in
  let v := value (data source) in
  if truthy v then mkTreeNode up (data source)
  else
    let fv := if bool_decide (v = None) then userValue else (fun _ => v) in
    mkTreeNode up
      (mkDatum (value (data source)) (userValue (data source))
         (assign_below fv <$> children (data source))).

(** [onValueLabelClick(event, d)]. *)
Definition onValueLabelClick (d : TreeNode) : TreeNode :=
  match ancestors d with
  | [] => d
  | _ =>
      let v := if truthy (value (data d)) then Some false
               else if bool_decide (value (data d) = Some false) then None
               else Some true in
      propagateSelection
        (mkTreeNode (ancestors d) (mkDatum v v (children (data d))))
  end.

(** A node below the root, shown selected because a child is, with no
    choice of the user's own. *)
Definition sample_node : TreeNode :=
  mkTreeNode [ mkFrame None None true [] [] ]
    (mkDatum (Some true) None [ mkDatum (Some true) (Some true) [] ]).

(** [p] holds of a datum and of every datum below it. *)
Fixpoint all_below (p : Datum → bool) (d : Datum) : bool :=
  p d && forallb (all_below p) (children d).

(** A datum and the data below it without their [value]s. *)
Fixpoint erase (d : Datum) : Datum :=
  mkDatum None (userValue d) (erase <$> children d).

End ValueTree.

(** ** Candidates for names with wildcards *)

Module ConnectUnknown.
Import NameMatch.

(** The Backbone model of a topic, a service or a parameter, reduced to
    what [_connectUnknown] uses: [id] (the [cid], which no two models
    share), [name], [types] (an object used as a set of type names) and
    the array [candidates]. *)
Record Resource := mkResource {
  id : string;
  name : string;
  types : gset string;
  candidates : list string }.

(** [s.indexOf("?") >= 0]. *)
Fixpoint has_wildcard (s : string) : bool :=
  match s with
  | EmptyString => false
  | String c s' => Ascii.eqb c "?"%char || has_wildcard s'
  end.

(** Whether the loop of [_connectUnknown] pushes [other]: it is another
    model ([other === model] is equality of the ids), of the same types
    when [typeCheck], and the two names match. *)
Definition is_candidate (model other : Resource) (typeCheck : bool) : bool :=
  if bool_decide (id other = id model) then false
  else if typeCheck && negb (bool_decide (types model = types other)) then false
  else matches (split slash (name model)) 0 (split slash (name other)) 0.

(** [_connectUnknown(model, mapping, typeCheck)]: the model with the
    candidates pushed.  [mapping] is the object from [uid] to model, gone
    through in the order of its keys. *)
Definition _connectUnknown (model : Resource) (mapping : list (string * Resource))
    (typeCheck : bool) : Resource :=
  if negb (has_wildcard (name model)) then model
  else
    foldl (fun (m : Resource) (entry : string * Resource) =>
             let other := entry.2 in
             if is_candidate model other typeCheck
             then mkResource (id m) (name m) (types m) (candidates m ++ [id other])
             else m)
          model mapping.

(** Two topics under unknown namespaces and one with a known name, all
    of one type, as [_addResource] makes them. *)
Definition sample_topics : list (string * Resource) :=
  [ ("T1", mkResource "c1" "/?/scan" {["LaserScan"]} []);
    ("T2", mkResource "c2" "/robot/?" {["LaserScan"]} []);
    ("T3", mkResource "c3" "/robot/scan" {["LaserScan"]} []) ].

End ConnectUnknown.

(** ** Building the graph of a configuration *)

(** Plain objects used as maps from a [uid] to a model (ros.js:
    [this.nodes], [this.topics], [this.services], [this.params], each
    made by [{}]). *)
Module JsObject.

(** The property names of [Object.prototype], which a plain object
    inherits. *)
Definition prototype_keys : list string :=
  [ "constructor"; "hasOwnProperty"; "isPrototypeOf"; "propertyIsEnumerable";
    "toLocaleString"; "toString"; "valueOf"; "__proto__";
    "__defineGetter__"; "__defineSetter__"; "__lookupGetter__"; "__lookupSetter__" ].

(** What [mapping[k]] is when it is not [undefined]: the model stored
    under [k], referred to by its [cid], or a property inherited from
    [Object.prototype], a function or (for [__proto__]) the prototype
    itself: a truthy value with no [id] and no method [get]. *)
Inductive Property : Type :=
  | Own (cid : string)
  | Inherited.

(** An object whose prototype is still [Object.prototype]: no model was
    stored under the name [__proto__], which would make the model the
    prototype of the object. *)
Definition plain (mapping : gmap string string) : Prop :=
  mapping !! "__proto__" = None.

(** [mapping[k]], for the own properties [mapping] of a [plain] object;
    [None] is [undefined]. *)
Definition get (mapping : gmap string string) (k : string) : option Property :=
  match mapping !! k with
  | Some cid => Some (Own cid)
  | None => if bool_decide (k ∈ prototype_keys) then Some Inherited else None
  end.

(** [x.id] as the graph takes it for the id of a node: the [cid] of a
    model; [undefined] for an inherited property, which graphlib turns
    into the key ["undefined"]. *)
Definition id_of (x : Property) : string :=
  match x with
  | Own cid => cid
  | Inherited => "undefined"
  end.

End JsObject.

Module SetModel.
Import Visibility JsObject.

(** A link of the configuration: the [uid] of the node, the [uid] of the
    topic, service or parameter it is linked to ([topic_uid],
    [service_uid] or [param_uid]), and its [type], [None] for [null] or
    no type. *)
Record Link := mkLink {
  node_uid : string;
  resource_uid : string;
  link_type : option string }.

Record Links := mkLinks {
  publishers : list Link;
  subscribers : list Link;
  servers : list Link;
  clients : list Link;
  reads : list Link;
  writes : list Link }.

(** The attributes of a [models.Configuration] that [setModel] reads:
    the [uid]s of its resources, and its links. *)
Record Configuration := mkConfiguration {
  cfg_nodes : list string;
  cfg_topics : list string;
  cfg_services : list string;
  cfg_parameters : list string;
  cfg_links : Links }.

(** What [setModel] builds: the graph, the four objects from [uid] to
    model (a model is referred to by its [cid]), and the counter of
    [_.uniqueId], from which Backbone draws the [cid] of every model and
    of every view.  The [types] the handlers of links write into the
    models are left out. *)
Record Board := mkBoard {
  b_graph : Graph;
  b_nodes : gmap string string;
  b_topics : gmap string string;
  b_services : gmap string string;
  b_params : gmap string string;
  idCounter : nat }.

(** [_.uniqueId("c")] for the counter given. *)
Definition cid_of (counter : nat) : string := ("c" ++ pretty counter)%string.

(** [new Backbone.Model(resource)], [new views.ResourceNode(...)],
    [this.listenTo(view, ...)] and [this.graph.setNode(model.id, view)]
    of [_addResource]: the model takes one number of the counter, the
    view the next, and the first [listenTo] a third for the view. *)
Definition add_view (resourceType : string) (b : Board) : string * Board :=
  let cid := cid_of (S (idCounter b)) in
  (cid, mkBoard (_addResource cid resourceType (b_graph b))
          (b_nodes b) (b_topics b) (b_services b) (b_params b)
          (S (S (S (idCounter b))))).

(** [addNode], [addTopic], [addService], [addParameter]:
    [_addResource(resource, mapping)] with [mapping[resource.uid] = model].
    A [uid] ["__proto__"] makes the model the prototype of the object:
    read under that name it is the model, as the entry here has it, but
    the object then inherits the properties of the model as well, which
    [get] leaves out. *)
Definition addNode (b : Board) (uid : string) : Board :=
  let '(cid, b) := add_view "node" b in
  mkBoard (b_graph b) (<[uid := cid]> (b_nodes b)) (b_topics b) (b_services b)
    (b_params b) (idCounter b).

Definition addTopic (b : Board) (uid : string) : Board :=
  let '(cid, b) := add_view "topic" b in
  mkBoard (b_graph b) (b_nodes b) (<[uid := cid]> (b_topics b)) (b_services b)
    (b_params b) (idCounter b).

Definition addService (b : Board) (uid : string) : Board :=
  let '(cid, b) := add_view "service" b in
  mkBoard (b_graph b) (b_nodes b) (b_topics b) (<[uid := cid]> (b_services b))
    (b_params b) (idCounter b).

Definition addParameter (b : Board) (uid : string) : Board :=
  let '(cid, b) := add_view "param" b in
  mkBoard (b_graph b) (b_nodes b) (b_topics b) (b_services b)
    (<[uid := cid]> (b_params b)) (idCounter b).

Definition with_graph (b : Board) (g : Graph) : Board :=
  mkBoard g (b_nodes b) (b_topics b) (b_services b) (b_params b) (idCounter b).

(** [x.get("types")[link.type] = true], for [x] read from one of the
    objects: a model has the method [get]; a property inherited from
    [Object.prototype] has not, and the call is a [TypeError]. *)
Definition get_types (x : Property) : option unit :=
  match x with
  | Own _ => Some ()
  | Inherited => None
  end.

(** The six handlers of links, statement by statement; [None] is a
    [TypeError].  A [uid] with no property in the object gives
    [undefined], and the read of [get] or [id] on it throws.  A [uid]
    that names a property inherited from [Object.prototype] gives a
    value with no [get] and with [undefined] for [id], and [_addEdge] is
    called with it.  [addWrite] and [addRead] call [get] only for a link
    with a type.  The edge goes from the node for a publisher, a client
    and a write, and to the node for a subscriber, a server and a read. *)
Definition addPublisher (b : Board) (link : Link) : option Board :=
  topic ← get (b_topics b) (resource_uid link);
  _ ← get_types topic;
  node ← get (b_nodes b) (node_uid link);
  Some (with_graph b (_addEdge (id_of node) (id_of topic) (b_graph b))).

Definition addSubscriber (b : Board) (link : Link) : option Board :=
  topic ← get (b_topics b) (resource_uid link);
  _ ← get_types topic;
  node ← get (b_nodes b) (node_uid link);
  Some (with_graph b (_addEdge (id_of topic) (id_of node) (b_graph b))).

Definition addClient (b : Board) (link : Link) : option Board :=
  service ← get (b_services b) (resource_uid link);
  _ ← get_types service;
  node ← get (b_nodes b) (node_uid link);
  Some (with_graph b (_addEdge (id_of node) (id_of service) (b_graph b))).

Definition addServer (b : Board) (link : Link) : option Board :=
  service ← get (b_services b) (resource_uid link);
  _ ← get_types service;
  node ← get (b_nodes b) (node_uid link);
  Some (with_graph b (_addEdge (id_of service) (id_of node) (b_graph b))).

Definition addWrite (b : Board) (link : Link) : option Board :=
  param ← get (b_params b) (resource_uid link);
  _ ← match link_type link with
      | Some _ => get_types param
      | None => Some ()
      end;
  node ← get (b_nodes b) (node_uid link);
  Some (with_graph b (_addEdge (id_of node) (id_of param) (b_graph b))).

Definition addRead (b : Board) (link : Link) : option Board :=
  param ← get (b_params b) (resource_uid link);
  _ ← match link_type link with
      | Some _ => get_types param
      | None => Some ()
      end;
  node ← get (b_nodes b) (node_uid link);
  Some (with_graph b (_addEdge (id_of param) (id_of node) (b_graph b))).

(** [_.each(list, handler, this)] for a handler that may throw. *)
Definition each {A : Type} (l : list A) (handler : Board → A → option Board)
    (b : Board) : option Board :=
  foldl (fun acc x => acc ≫= fun b => handler b x) (Some b) l.

(** [setModel(model)] from its start to the last of the links: the graph
    and the four objects start empty, the resources are added, then the
    links in the order publishers, subscribers, servers, clients, reads,
    writes.  [counter] is where [_.uniqueId] stands when it is called.
    What [setModel] does after the links leaves the graph and the four
    objects as they are: [_connectUnknown] writes the [candidates] of the
    models, and [mapQuery] the marks of the queries. *)
Definition setModel_build (model : Configuration) (counter : nat) : option Board :=
  let b := mkBoard empty_graph ∅ ∅ ∅ ∅ counter in
  let b := foldl addNode b (cfg_nodes model) in
  let b := foldl addTopic b (cfg_topics model) in
  let b := foldl addService b (cfg_services model) in
  let b := foldl addParameter b (cfg_parameters model) in
  let links := cfg_links model in
  b ← each (publishers links) addPublisher b;
  b ← each (subscribers links) addSubscriber b;
  b ← each (servers links) addServer b;
  b ← each (clients links) addClient b;
  b ← each (reads links) addRead b;
  each (writes links) addWrite b.

(** Every link names a node and a resource that the configuration
    lists. *)
Definition known (nodes resources : list string) (k : Link) : Prop :=
  node_uid k ∈ nodes ∧ resource_uid k ∈ resources.

Definition links_known (model : Configuration) : Prop :=
  let l := cfg_links model in
  Forall (known (cfg_nodes model) (cfg_topics model)) (publishers l ++ subscribers l)
  ∧ Forall (known (cfg_nodes model) (cfg_services model)) (servers l ++ clients l)
  ∧ Forall (known (cfg_nodes model) (cfg_parameters model)) (reads l ++ writes l).

#[export] Instance known_dec (nodes resources : list string) (k : Link) :
  Decision (known nodes resources k).
Proof. unfold known. apply _. Defined.

#[export] Instance links_known_dec (model : Configuration) : Decision (links_known model).
Proof. unfold links_known. apply _. Defined.

(** The links that raise no [TypeError]: the node is listed, or its
    [uid] is the name of a property of [Object.prototype]; the resource
    is listed, or, where [get] is not called on it ([with_get] false
    and no type: a read or a write without a type), its [uid] is such a
    name. *)
Definition passes (nodes resources : list string) (with_get : bool) (k : Link) : Prop :=
  (node_uid k ∈ nodes ∨ node_uid k ∈ prototype_keys)
  ∧ (resource_uid k ∈ resources
     ∨ (with_get = false ∧ link_type k = None ∧ resource_uid k ∈ prototype_keys)).

Definition links_pass (model : Configuration) : Prop :=
  let l := cfg_links model in
  Forall (passes (cfg_nodes model) (cfg_topics model) true) (publishers l ++ subscribers l)
  ∧ Forall (passes (cfg_nodes model) (cfg_services model) true) (servers l ++ clients l)
  ∧ Forall (passes (cfg_nodes model) (cfg_parameters model) false) (reads l ++ writes l).

#[export] Instance passes_dec (nodes resources : list string) (with_get : bool) (k : Link) :
  Decision (passes nodes resources with_get k).
Proof. unfold passes. apply _. Defined.

#[export] Instance links_pass_dec (model : Configuration) : Decision (links_pass model).
Proof. unfold links_pass. apply _. Defined.

(** The four objects of a board are [plain]. *)
Definition plain_objects (b : Board) : Prop :=
  plain (b_nodes b) ∧ plain (b_topics b) ∧ plain (b_services b) ∧ plain (b_params b).

(** The [uid]s of all the resources of a configuration. *)
Definition uids (model : Configuration) : list string :=
  cfg_nodes model ++ cfg_topics model ++ cfg_services model ++ cfg_parameters model.

(** The four objects of a board are those of another. *)
Definition same_objects (b b' : Board) : Prop :=
  b_nodes b' = b_nodes b ∧ b_topics b' = b_topics b
  ∧ b_services b' = b_services b ∧ b_params b' = b_params b.

(** The models an object holds are views of the graph, of one type. *)
Definition typed (g : Graph) (mapping : gmap string string) (ty : string) : Prop :=
  ∀ uid c, mapping !! uid = Some c → ∃ v, node g c = Some v ∧ resourceType v = ty.

(** What holds of a board while [setModel] builds it from known links:
    the invariant of the graph; the four objects hold views of their
    type; no [cid] yet to be drawn is in the graph; and every edge joins
    a node of the system with a topic, a service or a parameter. *)
Record board_inv (b : Board) : Prop := mkBoardInv {
  inv_wf : wf_graph (b_graph b);
  inv_nodes : typed (b_graph b) (b_nodes b) "node";
  inv_topics : typed (b_graph b) (b_topics b) "topic";
  inv_services : typed (b_graph b) (b_services b) "service";
  inv_params : typed (b_graph b) (b_params b) "param";
  inv_fresh : ∀ n, idCounter b < n → g_nodes (b_graph b) !! cid_of n = None;
  inv_edges : ∀ e l, g_edges (b_graph b) !! e = Some l →
      ∃ s t, node (b_graph b) e.1 = Some s ∧ node (b_graph b) e.2 = Some t
        ∧ (resourceType s = "node" ↔ resourceType t ≠ "node") }.

(** The handlers of links, as one: the object of the resource, whether
    [get] is called on the resource whatever the link, and the direction
    of the edge. *)
Definition link_handler (resources : Board → gmap string string)
    (with_get from_node : bool) (b : Board) (link : Link) : option Board :=
  r ← get (resources b) (resource_uid link);
  _ ← (if with_get || bool_decide (is_Some (link_type link)) then get_types r else Some ());
  n ← get (b_nodes b) (node_uid link);
  Some (with_graph b (if from_node then _addEdge (id_of n) (id_of r) (b_graph b)
                      else _addEdge (id_of r) (id_of n) (b_graph b))).

(** A talker and a listener on one topic, the talker reading a
    parameter. *)
Definition sample_configuration : Configuration :=
  mkConfiguration ["/talker"; "/listener"] ["/chatter"] [] ["/rate"]
    (mkLinks [mkLink "/talker" "/chatter" (Some "std_msgs/String")]
       [mkLink "/listener" "/chatter" (Some "std_msgs/String")]
       [] [] [mkLink "/talker" "/rate" None] []).

(** The same, with a write of a parameter that no resource names: the
    [uid]s are names of properties of [Object.prototype]. *)
Definition inherited_configuration : Configuration :=
  mkConfiguration ["/talker"; "/listener"] ["/chatter"] [] ["/rate"]
    (mkLinks [mkLink "/talker" "/chatter" (Some "std_msgs/String")]
       [mkLink "/listener" "/chatter" (Some "std_msgs/String")]
       [] [] [mkLink "/talker" "/rate" None]
       [mkLink "constructor" "toString" None]).

End SetModel.

(** ** Selection, focus and the parameter switch *)

Module Interaction.
Import Visibility.

(** The view with the node selected.  [selection], like [focus], is a
    reference to a view of the graph. *)
Record Board := mkBoard {
  view : View;
  selection : option string }.

(** [onSelection(id)], without the classes it sets: the node clicked
    becomes the selection, unless it is the selection already, which is
    then dropped.  [None] is the [TypeError] of an id with no view. *)
Definition onSelection (id : string) (this : Board) : option Board :=
  v ← node (graph (view this)) id;
  if negb (bool_decide (selection this = Some (model_id v)))
  then Some (mkBoard (view this) (Some (model_id v)))
  else Some (mkBoard (view this) None).

(** [deselect()]. *)
Definition deselect (this : Board) : Board :=
  mkBoard (view this) None.

(** [onFocus()], up to [this.render()], which then runs
    [updateVisibility] on a board that is shown, lays out the graph it
    returns and draws. *)
Definition onFocus (this : Board) : Board :=
  match selection this with
  | None => this
  | Some s =>
      let focus' := focus (view this) in
      if negb (bool_decide (Some s = focus'))
      then deselect (mkBoard (mkView (graph (view this)) (Some s) (showParams (view this)))
                       (selection this))
      else mkBoard (mkView (graph (view this)) None (showParams (view this)))
             (selection this)
  end.

(** [onToggleParams()], up to [this.render()]: the switch is turned, and
    a focus on a parameter is dropped when parameters get hidden.
    [None] is a focus that refers to no view. *)
Definition onToggleParams (this : View) : option View :=
  let showParams' := negb (showParams this) in
  match focus this with
  | Some f =>
      if negb showParams' then
        v ← node (graph this) f;
        if bool_decide (resourceType v = "param")
        then Some (mkView (graph this) None showParams')
        else Some (mkView (graph this) (Some f) showParams')
      else Some (mkView (graph this) (Some f) showParams')
  | None => Some (mkView (graph this) None showParams')
  end.

(** A reference is to a view of the graph. *)
Definition refers (g : Graph) (r : option string) : Prop :=
  ∀ k, r = Some k → is_Some (node g k).

(** What the handlers rely on: the graph satisfies its invariant, and
    [focus] and [selection] are [null] or views of the graph. *)
Definition references_ok (this : Board) : Prop :=
  wf_graph (graph (view this))
  ∧ refers (graph (view this)) (focus (view this))
  ∧ refers (graph (view this)) (selection this).

End Interaction.

(** Folding and unfolding of the nodes of the tree
    (collapsible-tree.js, [collapse], [click] and [onBulletClick]). *)
Module Folding.

(** A node of the d3 hierarchy: [d.id], [d.children] (the children
    shown) and [d._children] (the children folded away); [None] is
    [null] or [undefined]. *)
#[local] Unset Elimination Schemes.
Inductive Node : Type :=
  mkNode { n_id : nat; children : option (list Node); _children : option (list Node) }.
#[local] Set Elimination Schemes.

(** [d.children || d._children]: an array is truthy even when empty. *)
Definition kids (d : Node) : option (list Node) :=
  match children d with
  | Some cs => Some cs
  | None => _children d
  end.

(** [collapse(d)]. *)
Fixpoint collapse (d : Node) : Node :=
  match d with
  | mkNode i (Some cs) _ => mkNode i None (Some (collapse <$> cs))
  | mkNode _ None _ => d
  end.

(** [click(event, d)], and the body of [onBulletClick] past its guard:
    the node left. *)
Definition click (d : Node) : Node :=
  match children d with
  | Some cs => mkNode (n_id d) None (Some cs)
  | None => mkNode (n_id d) (_children d) None
  end.

(** [onBulletClick(event, d)]: [None] when the click is passed on to
    [onFeatureLabelClick], the node left otherwise. *)
Definition onBulletClick (d : Node) : option Node :=
  if negb (bool_decide (is_Some (children d)))
     && negb (bool_decide (is_Some (_children d)))
  then None
  else Some (click d).

(** The whole tree below a node, shown or folded away. *)
Fixpoint unfolded (d : Node) : Node :=
  match d with
  | mkNode i (Some cs) _ => mkNode i (Some (unfolded <$> cs)) None
  | mkNode i None (Some cs) => mkNode i (Some (unfolded <$> cs)) None
  | mkNode i None None => mkNode i None None
  end.

(** No node of the tree has children folded away, as in a hierarchy
    just built. *)
Fixpoint fresh (d : Node) : bool :=
  match d with
  | mkNode _ (Some cs) None => forallb fresh cs
  | mkNode _ None None => true
  | mkNode _ _ (Some _) => false
  end.

(** No node of the tree shows its children. *)
Fixpoint folded (d : Node) : bool :=
  match d with
  | mkNode _ None (Some cs) => forallb folded cs
  | mkNode _ None None => true
  | mkNode _ (Some _) _ => false
  end.

End Folding.

(** The marks of the queries (ros.js, [mapQuery], [forgetQuery],
    [setHighlights] and the handler of the answer in [onQueryInput]). *)
Module Queries.
Import Visibility JsObject SetModel.

(** An object of the answer to a query.  A field that the object does
    not have is [None]. *)
Record QueryObject := mkQueryObject {
  o_resourceType : string;
  o_uid : option string;
  o_node_uid : option string;
  o_topic_uid : option string;
  o_service_uid : option string;
  o_param_uid : option string }.

Record Query := mkQuery {
  qid : string;
  objects : list QueryObject }.

(** The key that [mapping[field]] reads: a field that is not there is
    [undefined], and the key then its name. *)
Definition key (field : option string) : string := default "undefined" field.

(** What the three functions write, outside the graph: the [queries]
    object of every view and of every edge label, and which views and
    which edge paths carry the class ["query-object"].  A view is
    referred to by the id of its model, an edge label by the edge; a
    view or a label as it is made, with [queries] empty, has no entry. *)
Record Marks := mkMarks {
  node_queries : gmap string (gmap string bool);
  edge_queries : gmap (string * string) (gmap string bool);
  node_class : gset string;
  edge_class : gset (string * string) }.

(** [v.queries[q]]; [None] is [undefined]. *)
Definition lookup_flag {K : Type} `{Countable K} (queries : gmap K (gmap string bool))
    (k : K) (q : string) : option bool :=
  queries !! k ≫= fun qs => qs !! q.

(** [v.queries[q] === true].  [queries] is a plain object: under the
    name [__proto__] it has its prototype, which is not [true]. *)
Definition flag {K : Type} `{Countable K} (queries : gmap K (gmap string bool))
    (k : K) (q : string) : bool :=
  negb (bool_decide (q = "__proto__"))
  && bool_decide (lookup_flag queries k q = Some true).

(** [v.queries[q] = b] for a boolean [b]: an own property is made or
    written, but for the name [__proto__], the accessor of
    [Object.prototype], to which assigning a boolean does nothing. *)
Definition set_flag {K : Type} `{Countable K} (queries : gmap K (gmap string bool))
    (k : K) (q : string) (b : bool) : gmap K (gmap string bool) :=
  if bool_decide (q = "__proto__") then queries
  else <[k := <[q := b]> (default ∅ (queries !! k))]> queries.

(** [selection.classed("query-object", active)]. *)
Definition classed {K : Type} `{Countable K} (cls : gset K) (k : K) (active : bool)
    : gset K :=
  if active then {[k]} ∪ cls else cls ∖ {[k]}.

(** What a round of [mapQuery] marks: a view, an edge label, or
    nothing. *)
Inductive Target :=
  | TNode (v : string)
  | TEdge (e : string * string)
  | TNothing.

(** The object that the [switch] of [mapQuery] gets to for [obj];
    [None] is a [TypeError]: a [uid] that the object of its type does
    not have, own or inherited; an id under which the graph has no
    view; a link with no edge in either direction.  In [a || b || c] a
    property inherited from [Object.prototype] is truthy and taken. *)
Definition target (b : Board) (obj : QueryObject) : option Target :=
  let g := b_graph b in
  let view_of (mapping : gmap string string) : option Target :=
    x ← get mapping (key (o_uid obj));
    v ← node g (id_of x);
    Some (TNode (model_id v)) in
  if String.eqb (o_resourceType obj) "node" then view_of (b_nodes b)
  else if String.eqb (o_resourceType obj) "topic" then view_of (b_topics b)
  else if String.eqb (o_resourceType obj) "service" then view_of (b_services b)
  else if String.eqb (o_resourceType obj) "param" then view_of (b_params b)
  else if String.eqb (o_resourceType obj) "link" then
    x1 ← get (b_nodes b) (key (o_node_uid obj));
    x2 ← match get (b_topics b) (key (o_topic_uid obj)) with
         | Some x => Some x
         | None =>
             match get (b_services b) (key (o_service_uid obj)) with
             | Some x => Some x
             | None => get (b_params b) (key (o_param_uid obj))
             end
         end;
    let n1 := id_of x1 in
    let n2 := id_of x2 in
    if hasEdge g n1 n2 then Some (TEdge (n1, n2))
    else if hasEdge g n2 n1 then Some (TEdge (n2, n1))
    else None
  else Some TNothing.

(** A round of the loop of [mapQuery]. *)
Definition mapObject (b : Board) (q : string) (obj : QueryObject) (m : Marks)
    : option Marks :=
  t ← target b obj;
  Some match t with
       | TNode v =>
           mkMarks (set_flag (node_queries m) v q true) (edge_queries m)
             (node_class m) (edge_class m)
       | TEdge e =>
           mkMarks (node_queries m) (set_flag (edge_queries m) e q true)
             (node_class m) (edge_class m)
       | TNothing => m
       end.

(** [mapQuery(query)]. *)
Definition mapQuery (b : Board) (query : Query) (m : Marks) : option Marks :=
  for_rev (objects query) (mapObject b (qid query)) m.

(** [array.forEach(body)] for a body that may throw. *)
Definition forEach {K S : Type} (keys : list K) (body : K → S → option S) (s : S)
    : option S :=
  foldl (fun acc k => acc ≫= body k) (Some s) keys.

(** [forgetQuery(queryId)]. *)
Definition forgetQuery (b : Board) (queryId : string) (m : Marks) : option Marks :=
  let g := b_graph b in
  nq ← forEach (nodes g)
         (fun k nq => v ← node g k; Some (set_flag nq (model_id v) queryId false))
         (node_queries m);
  eq ← forEach (edges g)
         (fun e eq => _ ← edge g e; Some (set_flag eq e queryId false))
         (edge_queries m);
  Some (mkMarks nq eq (node_class m) (edge_class m)).

(** [setHighlights(queryId)]. *)
Definition setHighlights (b : Board) (queryId : string) (m : Marks) : option Marks :=
  let g := b_graph b in
  nc ← for_rev (nodes g)
         (fun k nc =>
            v ← node g k;
            Some (classed nc (model_id v) (flag (node_queries m) (model_id v) queryId)))
         (node_class m);
  ec ← for_rev (edges g)
         (fun e ec =>
            _ ← edge g e;
            Some (classed ec e (flag (edge_queries m) e queryId)))
         (edge_class m);
  Some (mkMarks (node_queries m) (edge_queries m) nc ec).

(** What [onQueryInput] does with the answer [data]. *)
Definition onQueryInput (b : Board) (data : Query) (m : Marks) : option Marks :=
  m ← forgetQuery b (qid data) m;
  m ← mapQuery b data m;
  setHighlights b (qid data) m.

(** Whether a round of [mapQuery] for [obj] marks the view [v], the
    edge [e]. *)
Definition marks_node (b : Board) (v : string) (obj : QueryObject) : bool :=
  match target b obj with
  | Some (TNode v') => bool_decide (v' = v)
  | _ => false
  end.

Definition marks_edge (b : Board) (e : string * string) (obj : QueryObject) : bool :=
  match target b obj with
  | Some (TEdge e') => bool_decide (e' = e)
  | _ => false
  end.

(** The board of the sample graph, and the answer to a query that names
    the node [/talker] and its link to the topic [/chatter]. *)
Definition sample_board : Board :=
  mkBoard sample_graph
    (<["/talker" := "c1"]> (<["/listener" := "c4"]> ∅))
    (<["/chatter" := "c2"]> ∅) ∅ (<["/rate" := "c3"]> ∅) 8.

Definition sample_query : Query :=
  mkQuery "q1"
    [ mkQueryObject "node" (Some "/talker") None None None None;
      mkQueryObject "link" None (Some "/talker") (Some "/chatter") None None ].

Definition no_marks : Marks := mkMarks ∅ ∅ ∅ ∅.

(** An answer whose link names its topic by a property of
    [Object.prototype] and gives a parameter too. *)
Definition inherited_query : Query :=
  mkQuery "q1"
    [ mkQueryObject "link" None (Some "/talker") (Some "constructor") None (Some "/rate") ].

End Queries.

(** * Properties *)

(** ** [_nameMatch] *)

Section NameMatchFacts.
Import NameMatch.

Lemma for_k_ext (f g : nat → option bool) (from n : nat) :
  (∀ k, from ≤ k < from + n → f k = g k) →
  for_k f from n = for_k g from n.
Proof.
  revert from. induction n as [|n IH]; intros from Hfg; simpl; [done|].
  rewrite (Hfg from) by lia.
  destruct (g from) as [[|]|]; try done.
  apply IH. intros k Hk. apply Hfg. lia.
Qed.

Lemma for_k_Some (f : nat → bool) (from n : nat) :
  for_k (fun k => Some (f k)) from n = Some (existsb f (seq from n)).
Proof.
  revert from. induction n as [|n IH]; intros from; simpl; [done|].
  destruct (f from); simpl; [done|]. apply IH.
Qed.

Lemma remaining_next (a1 a2 : list string) (i j : nat) :
  i < length a1 → j < length a2 →
  remaining a1 (i + 1) a2 (j + 1) < remaining a1 i a2 j.
Proof. unfold remaining. lia. Qed.

(** With more fuel than segments remain, the run does not stop early. *)
Lemma nameMatch_fuel_enough (fuel : nat) (a1 a2 : list string) :
  ∀ i j, remaining a1 i a2 j < fuel →
    ∃ b, ∀ fuel', remaining a1 i a2 j < fuel' →
      nameMatch_fuel fuel' a1 i a2 j = Some b.
Proof.
  induction fuel as [|fuel IH]; intros i j Hlt; [lia|].
  assert (Hsub : ∀ i' j', remaining a1 i' a2 j' < remaining a1 i a2 j →
            ∃ b, ∀ fuel', remaining a1 i' a2 j' < fuel' →
              nameMatch_fuel fuel' a1 i' a2 j' = Some b).
  { intros i' j' Hlt'. apply IH. lia. }
  clear IH.
  assert (Hloop : ∀ (calls : nat → nat * nat) from n,
            (∀ k, from ≤ k < from + n →
               remaining a1 (calls k).1 a2 (calls k).2 < remaining a1 i a2 j) →
            ∃ b, ∀ fuel', remaining a1 i a2 j ≤ fuel' →
              for_k (fun k => nameMatch_fuel fuel' a1 (calls k).1 a2 (calls k).2) from n
              = Some b).
  { intros calls from n. revert from.
    induction n as [|n IHn]; intros from Hdec; simpl; [by exists false|].
    destruct (Hsub (calls from).1 (calls from).2) as [b Hb]; [apply Hdec; lia|].
    destruct (IHn (S from)) as [b' Hb']; [intros k Hk; apply Hdec; lia|].
    exists (if b then true else b'). intros fuel' Hf.
    rewrite Hb by (specialize (Hdec from); lia).
    destruct b; [done|]. by apply Hb'. }
  destruct ((i <? length a1) && (j <? length a2)) eqn:Hin.
  - apply andb_true_iff in Hin as [Hi Hj].
    apply Nat.ltb_lt in Hi, Hj.
    destruct (is_wild a1 i) eqn:Hw1; [|destruct (is_wild a2 j) eqn:Hw2].
    + destruct (i =? length a1 - 1) eqn:Hlast.
      * exists true. intros [|f'] Hf; [lia|]. simpl.
        apply Nat.ltb_lt in Hi, Hj. by rewrite Hi, Hj, Hw1, Hlast.
      * destruct (Hloop (fun k => (i + 1, k)) j (length a2 - j)) as [b Hb].
        { intros k Hk. unfold remaining. simpl. lia. }
        exists b. intros [|f'] Hf; [lia|]. simpl.
        apply Nat.ltb_lt in Hi, Hj. rewrite Hi, Hj, Hw1, Hlast. simpl.
        apply (Hb f'). lia.
    + destruct (j =? length a2 - 1) eqn:Hlast.
      * exists true. intros [|f'] Hf; [lia|]. simpl.
        apply Nat.ltb_lt in Hi, Hj. by rewrite Hi, Hj, Hw1, Hw2, Hlast.
      * destruct (Hloop (fun k => (k, j + 1)) i (length a1 - i)) as [b Hb].
        { intros k Hk. unfold remaining. simpl. lia. }
        exists b. intros [|f'] Hf; [lia|]. simpl.
        apply Nat.ltb_lt in Hi, Hj. rewrite Hi, Hj, Hw1, Hw2, Hlast. simpl.
        apply (Hb f'). lia.
    + destruct (negb (bool_decide (a1 !! i = a2 !! j))) eqn:Hne.
      * exists false. intros [|f'] Hf; [lia|]. simpl.
        apply Nat.ltb_lt in Hi, Hj. by rewrite Hi, Hj, Hw1, Hw2, Hne.
      * destruct (Hsub (i + 1) (j + 1)) as [b Hb]; [by apply remaining_next|].
        exists b. intros [|f'] Hf; [lia|]. simpl.
        pose proof (remaining_next a1 a2 i j Hi Hj) as Hdec.
        apply Nat.ltb_lt in Hi, Hj. rewrite Hi, Hj, Hw1, Hw2, Hne. simpl.
        apply Hb. lia.
  - exists ((i =? length a1) && (j =? length a2)).
    intros [|f'] Hf; [lia|]. simpl. by rewrite Hin.
Qed.

Lemma nameMatch_fuel_stable (fuel : nat) (a1 a2 : list string) (i j : nat) :
  remaining a1 i a2 j < fuel →
  nameMatch_fuel fuel a1 i a2 j = _nameMatch a1 i a2 j.
Proof.
  intros Hlt.
  destruct (nameMatch_fuel_enough fuel a1 a2 i j Hlt) as [b Hb].
  unfold _nameMatch. rewrite !Hb; [done|lia|done].
Qed.

Lemma nameMatch_matches (a1 a2 : list string) (i j : nat) :
  _nameMatch a1 i a2 j = Some (matches a1 i a2 j).
Proof.
  destruct (nameMatch_fuel_enough _ a1 a2 i j (Nat.lt_succ_diag_r _)) as [b Hb].
  unfold matches, _nameMatch. by rewrite Hb by lia.
Qed.

(** The body of the function, on the booleans it returns. *)
Lemma matches_unfold (a1 a2 : list string) (i j : nat) :
  matches a1 i a2 j =
    if (i <? length a1) && (j <? length a2) then
      if is_wild a1 i then
        (i =? length a1 - 1)
        || existsb (fun k => matches a1 (i + 1) a2 k) (seq j (length a2 - j))
      else if is_wild a2 j then
        (j =? length a2 - 1)
        || existsb (fun k => matches a1 k a2 (j + 1)) (seq i (length a1 - i))
      else if negb (bool_decide (a1 !! i = a2 !! j)) then false
      else matches a1 (i + 1) a2 (j + 1)
    else (i =? length a1) && (j =? length a2).
Proof.
  unfold matches at 1. unfold _nameMatch. simpl.
  destruct ((i <? length a1) && (j <? length a2)) eqn:Hin; [|done].
  apply andb_true_iff in Hin as [Hi Hj]. apply Nat.ltb_lt in Hi, Hj.
  destruct (is_wild a1 i); [|destruct (is_wild a2 j)].
  - destruct (i =? length a1 - 1); [done|]. simpl.
    rewrite (for_k_ext _ (fun k => Some (matches a1 (i + 1) a2 k))).
    + by rewrite for_k_Some.
    + intros k Hk. rewrite nameMatch_fuel_stable; [apply nameMatch_matches|].
      unfold remaining. lia.
  - destruct (j =? length a2 - 1); [done|]. simpl.
    rewrite (for_k_ext _ (fun k => Some (matches a1 k a2 (j + 1)))).
    + by rewrite for_k_Some.
    + intros k Hk. rewrite nameMatch_fuel_stable; [apply nameMatch_matches|].
      unfold remaining. lia.
  - destruct (negb (bool_decide (a1 !! i = a2 !! j))); [done|].
    rewrite nameMatch_fuel_stable by (by apply remaining_next).
    by rewrite nameMatch_matches.
Qed.

Lemma existsb_seq_ext (f g : nat → bool) (from n : nat) :
  (∀ k, from ≤ k < from + n → f k = g k) →
  existsb f (seq from n) = existsb g (seq from n).
Proof.
  revert from. induction n as [|n IH]; intros from Hfg; simpl; [done|].
  rewrite (Hfg from) by lia. f_equal. apply IH. intros k Hk. apply Hfg. lia.
Qed.

Lemma seq_head (from len : nat) :
  from < len → seq from (len - from) = from :: seq (from + 1) (len - (from + 1)).
Proof.
  intros Hlt. replace (len - from) with (S (len - (from + 1))) by lia.
  simpl. by rewrite Nat.add_1_r.
Qed.

(** Swapping the two names, at any pair of positions. *)
Lemma matches_swap (a1 a2 : list string) (n : nat) :
  ∀ i j, remaining a1 i a2 j < n → matches a1 i a2 j = matches a2 j a1 i.
Proof.
  induction n as [|n IH]; intros i j Hlt; [lia|].
  rewrite (matches_unfold a1 a2 i j), (matches_unfold a2 a1 j i).
  rewrite (andb_comm (j <? length a2)).
  destruct ((i <? length a1) && (j <? length a2)) eqn:Hin;
    [|apply andb_comm].
  apply andb_true_iff in Hin as [Hi Hj]. apply Nat.ltb_lt in Hi, Hj.
  destruct (is_wild a1 i) eqn:Hw1, (is_wild a2 j) eqn:Hw2.
  - (* both segments are wildcards *)
    destruct (i =? length a1 - 1) eqn:Hli, (j =? length a2 - 1) eqn:Hlj; simpl.
    + done.
    + apply Nat.eqb_eq in Hli. apply Nat.eqb_neq in Hlj.
      rewrite (seq_head i) by done. simpl.
      rewrite <- (IH i (j + 1)) by (unfold remaining in *; lia).
      rewrite (matches_unfold a1 a2 i (j + 1)), Hw1.
      apply Nat.ltb_lt in Hi. rewrite Hi.
      assert ((j + 1 <? length a2) = true) as -> by (apply Nat.ltb_lt; lia).
      apply Nat.eqb_eq in Hli. by rewrite Hli.
    + apply Nat.eqb_neq in Hli. apply Nat.eqb_eq in Hlj.
      rewrite (seq_head j) by done. simpl.
      rewrite (IH (i + 1) j) by (unfold remaining in *; lia).
      rewrite (matches_unfold a2 a1 j (i + 1)), Hw2.
      apply Nat.ltb_lt in Hj. rewrite Hj.
      assert ((i + 1 <? length a1) = true) as -> by (apply Nat.ltb_lt; lia).
      apply Nat.eqb_eq in Hlj. by rewrite Hlj.
    + apply Nat.eqb_neq in Hli, Hlj.
      rewrite (seq_head j), (seq_head i) by done. simpl.
      rewrite (IH (i + 1) j) by (unfold remaining in *; lia).
      rewrite <- (IH i (j + 1)) by (unfold remaining in *; lia).
      rewrite (matches_unfold a2 a1 j (i + 1)), Hw2.
      rewrite (matches_unfold a1 a2 i (j + 1)), Hw1.
      assert ((j <? length a2) = true) as -> by (by apply Nat.ltb_lt).
      assert ((i <? length a1) = true) as -> by (by apply Nat.ltb_lt).
      assert ((i + 1 <? length a1) = true) as -> by (apply Nat.ltb_lt; lia).
      assert ((j + 1 <? length a2) = true) as -> by (apply Nat.ltb_lt; lia).
      apply Nat.eqb_neq in Hli, Hlj. rewrite Hli, Hlj. simpl.
      rewrite (existsb_seq_ext (fun k => matches a1 (i + 1) a2 k)
                 (fun k => matches a2 k a1 (i + 1)) (j + 1)).
      * apply orb_comm.
      * intros k Hk. apply IH. unfold remaining in *. lia.
  - f_equal. apply existsb_seq_ext. intros k Hk. apply IH.
    unfold remaining in *. lia.
  - f_equal. apply existsb_seq_ext. intros k Hk. apply IH.
    unfold remaining in *. lia.
  - rewrite (bool_decide_ext (a2 !! j = a1 !! i) (a1 !! i = a2 !! j)) by done.
    destruct (negb (bool_decide (a1 !! i = a2 !! j))); [done|].
    apply IH. unfold remaining in *. lia.
Qed.

Lemma existsb_seq_true (f : nat → bool) (from len : nat) :
  existsb f (seq from (len - from)) = true ↔ ∃ m, from + m < len ∧ f (from + m) = true.
Proof.
  rewrite existsb_exists. split.
  - intros (k & Hk%in_seq & Hf). exists (k - from).
    replace (from + (k - from)) with k by lia. split; [lia|done].
  - intros (m & Hm & Hf). exists (from + m). split; [|done]. apply in_seq. lia.
Qed.

Lemma nameMatch_true (a1 a2 : list string) (i j : nat) :
  _nameMatch a1 i a2 j = Some true ↔ matches a1 i a2 j = true.
Proof. rewrite nameMatch_matches. split; [by intros [= ->]|by intros ->]. Qed.

Lemma is_wild_true (a : list string) (i : nat) :
  a !! i = Some "?" → is_wild a i = true ∧ i < length a.
Proof.
  intros H. split; [by apply bool_decide_eq_true|]. by apply lookup_lt_Some in H.
Qed.

(** A wildcard that ends the first name matches whatever is left of the
    second, if anything is left. *)
Lemma matches_last_wildcard (a1 a2 : list string) (i j : nat) :
  a1 !! i = Some "?" → i = length a1 - 1 → j < length a2 →
  matches a1 i a2 j = true.
Proof.
  intros [Hw Hi]%is_wild_true Hlast Hj. rewrite matches_unfold, Hw.
  apply Nat.ltb_lt in Hi, Hj. rewrite Hi, Hj. simpl.
  apply Nat.eqb_eq in Hlast. by rewrite Hlast.
Qed.

(** A wildcard inside the first name stands for any number of segments
    of the second, none included, that leaves one to go on with. *)
Lemma matches_inner_wildcard (a1 a2 : list string) (i j : nat) :
  a1 !! i = Some "?" → i < length a1 - 1 → j < length a2 →
  matches a1 i a2 j = true
  ↔ ∃ m, j + m < length a2 ∧ matches a1 (i + 1) a2 (j + m) = true.
Proof.
  intros [Hw Hi]%is_wild_true Hinner Hj. rewrite matches_unfold, Hw.
  apply Nat.ltb_lt in Hi, Hj. rewrite Hi, Hj. simpl.
  assert ((i =? length a1 - 1) = false) as -> by (apply Nat.eqb_neq; lia).
  simpl. apply existsb_seq_true.
Qed.

(** C1. [_nameMatch] on the two names split at ["/"], from index 0 on
    both, gives each of the 24 pairs of the comment above it the result
    listed there.  A ["?"] that is the last segment of either name
    matches whatever is left of the other name, when a segment is left;
    a ["?"] inside either name matches zero or more segments of the other
    name, as long as one segment is left for what follows. *)
Theorem nameMatch_documented_tests :
  Forall (fun t : string * string * bool => test t.1.1 t.1.2 = Some t.2)
    documented_tests
  ∧ (∀ a1 a2 i j,
       a1 !! i = Some "?" → i = length a1 - 1 → j < length a2 →
       _nameMatch a1 i a2 j = Some true)
  ∧ (∀ a1 a2 i j,
       a2 !! j = Some "?" → j = length a2 - 1 → i < length a1 →
       _nameMatch a1 i a2 j = Some true)
  ∧ (∀ a1 a2 i j,
       a1 !! i = Some "?" → i < length a1 - 1 → j < length a2 →
       _nameMatch a1 i a2 j = Some true
       ↔ ∃ m, j + m < length a2 ∧ _nameMatch a1 (i + 1) a2 (j + m) = Some true)
  ∧ (∀ a1 a2 i j,
       a2 !! j = Some "?" → j < length a2 - 1 → i < length a1 →
       _nameMatch a1 i a2 j = Some true
       ↔ ∃ m, i + m < length a1 ∧ _nameMatch a1 (i + m) a2 (j + 1) = Some true).
Proof.
  split; [|split; [|split; [|split]]].
  - unfold documented_tests. repeat constructor.
  - intros a1 a2 i j Hw Hlast Hj. apply nameMatch_true.
    by apply matches_last_wildcard.
  - intros a1 a2 i j Hw Hlast Hi. apply nameMatch_true.
    rewrite (matches_swap a1 a2 _ i j (Nat.lt_succ_diag_r _)).
    by apply matches_last_wildcard.
  - intros a1 a2 i j Hw Hinner Hj. rewrite nameMatch_true.
    rewrite matches_inner_wildcard by done.
    by setoid_rewrite nameMatch_true.
  - intros a1 a2 i j Hw Hinner Hi. rewrite nameMatch_true.
    rewrite (matches_swap a1 a2 _ i j (Nat.lt_succ_diag_r _)).
    rewrite matches_inner_wildcard by done.
    setoid_rewrite nameMatch_true.
    split; intros (m & Hm & Hmatch); exists m; (split; [done|]).
    + by rewrite (matches_swap a1 a2 _ _ _ (Nat.lt_succ_diag_r _)).
    + by rewrite <- (matches_swap a1 a2 _ _ _ (Nat.lt_succ_diag_r _)).
Qed.

(** The specification words C1 with an inner ["?"] that matches one or
    more segments of the other name.  In ["/?/a"] against ["/a"] the ["?"] is the segment
    1 of 3 and meets segment 1 of the other name; the names match, yet
    no split gives the ["?"] one segment or more. *)
Lemma nameMatch_inner_wildcard_matches_nothing :
  test "/?/a" "/a" = Some true
  ∧ split slash "/?/a" !! 1 = Some "?"
  ∧ 1 < length (split slash "/?/a") - 1
  ∧ _nameMatch (split slash "/?/a") 1 (split slash "/a") 1 = Some true
  ∧ ¬ ∃ m, 1 ≤ m
      ∧ _nameMatch (split slash "/?/a") (1 + 1) (split slash "/a") (1 + m) = Some true.
Proof.
  split; [done|]. split; [done|]. split; [simpl; lia|]. split; [done|].
  intros (m & Hm & Hmatch). apply nameMatch_true in Hmatch.
  rewrite matches_unfold in Hmatch. simpl length in Hmatch.
  assert ((1 + m <? 2) = false) as Hge by (apply Nat.ltb_ge; lia).
  rewrite Hge in Hmatch. simpl in Hmatch. done.
Qed.

(** C9. [_nameMatch] returns a boolean for every two lists of segments
    and every two start indices: each call it makes to itself has fewer
    segments left, [(len1 - k1) + (len2 - k2)], than the call that makes
    it, and any fuel above that number is enough. *)
Theorem nameMatch_terminates (a1 a2 : list string) (k1 k2 : nat) :
  (∀ k1' k2', calls a1 a2 (k1, k2) (k1', k2') →
     remaining a1 k1' a2 k2' < remaining a1 k1 a2 k2)
  ∧ ∃ b, _nameMatch a1 k1 a2 k2 = Some b
      ∧ ∀ fuel, remaining a1 k1 a2 k2 < fuel →
          nameMatch_fuel fuel a1 k1 a2 k2 = Some b.
Proof.
  split.
  - intros k1' k2' Hcall. unfold remaining. inversion Hcall; subst; lia.
  - exists (matches a1 k1 a2 k2). split; [apply nameMatch_matches|].
    intros fuel Hfuel. rewrite nameMatch_fuel_stable by done.
    apply nameMatch_matches.
Qed.

(** C10. Swapping the two names does not change the result:
    [_nameMatch(a, 0, b, 0)] and [_nameMatch(b, 0, a, 0)] return the same
    boolean. *)
Theorem nameMatch_symmetric (a b : list string) :
  _nameMatch a 0 b 0 = _nameMatch b 0 a 0.
Proof.
  rewrite !nameMatch_matches. f_equal.
  apply (matches_swap a b _ 0 0 (Nat.lt_succ_diag_r _)).
Qed.

End NameMatchFacts.

(** ** [updateVisibility] *)

Section VisibilityFacts.
Import Visibility.

Lemma for_rev_cons {K S : Type} (k : K) (ks : list K) (body : K → S → option S) (s : S) :
  for_rev (k :: ks) body s = for_rev ks body s ≫= body k.
Proof. done. Qed.

(** In the round for the key [k] of a loop over [k :: ks], another key
    [x] is one of the loop exactly when it is one of [ks]. *)
Ltac other_key x ks :=
  destruct (decide (x ∈ ks));
  [rewrite decide_True by (by right)
  |rewrite decide_False by (by intros [?|?]%elem_of_cons)].

Lemma node_Some (g : Graph) (k : string) (v : ResourceNode) :
  node g k = Some v ↔ g_nodes g !! k = Some (Some v).
Proof.
  unfold node. destruct (g_nodes g !! k) as [[w|]|]; split; congruence.
Qed.

(** A loop that assigns [visible] on each node in turn. *)
Lemma for_rev_write_nodes (flag : ResourceNode → bool) (step : string → Graph → option Graph) :
  (∀ k g, step k g = v ← node g k; Some (write_node g k (set_visible (flag v) v))) →
  ∀ (ks : list string) (g : Graph),
    NoDup ks → (∀ k, k ∈ ks → is_Some (node g k)) →
    ∃ g', for_rev ks step g = Some g'
      ∧ g_edges g' = g_edges g
      ∧ ∀ k, g_nodes g' !! k =
          if decide (k ∈ ks)
          then fmap (fun v => set_visible (flag v) v) <$> g_nodes g !! k
          else g_nodes g !! k.
Proof.
  intros Hstep ks g. induction ks as [|k ks IH]; intros Hnd Hdef.
  - exists g. split; [done|]. split; [done|]. intros k.
    destruct (decide (k ∈ [])) as [Hin|_]; [by apply elem_of_nil in Hin|done].
  - apply NoDup_cons in Hnd as [Hk Hnd].
    destruct IH as (g1 & Hrun & Hedges & Hlook); [done|..].
    { intros k' Hk'. apply Hdef. by right. }
    destruct (Hdef k) as [v Hv]; [by left|].
    assert (node g1 k = Some v) as Hv1.
    { apply node_Some. rewrite Hlook. destruct (decide (k ∈ ks)); [done|].
      by apply node_Some. }
    exists (write_node g1 k (set_visible (flag v) v)).
    rewrite for_rev_cons, Hrun. simpl. rewrite Hstep, Hv1. simpl.
    split; [done|]. split; [done|]. intros k'.
    destruct (decide (k' = k)) as [->|Hne].
    + rewrite lookup_insert_eq. rewrite decide_True by (by left).
      apply node_Some in Hv. by rewrite Hv.
    + rewrite lookup_insert_ne by done. rewrite Hlook.
      by other_key k' ks.
Qed.

(** A loop that assigns [visible] on each edge in turn; the flag may read
    the nodes, which the loop leaves alone. *)
Lemma for_rev_write_edges
    (flag : gmap string (option ResourceNode) → Edge → option bool)
    (step : string * string → Graph → option Graph) :
  (∀ e g, step e g =
     v ← edge g e; b ← flag (g_nodes g) v; Some (write_edge g e (set_e_visible b v))) →
  ∀ (ks : list (string * string)) (g : Graph),
    NoDup ks →
    (∀ e, e ∈ ks → ∃ v, edge g e = Some v ∧ is_Some (flag (g_nodes g) v)) →
    ∃ g', for_rev ks step g = Some g'
      ∧ g_nodes g' = g_nodes g
      ∧ ∀ e, g_edges g' !! e =
          if decide (e ∈ ks)
          then (fun v => set_e_visible (default false (flag (g_nodes g) v)) v)
                 <$> g_edges g !! e
          else g_edges g !! e.
Proof.
  intros Hstep ks g. induction ks as [|k ks IH]; intros Hnd Hdef.
  - exists g. split; [done|]. split; [done|]. intros e.
    destruct (decide (e ∈ [])) as [Hin|_]; [by apply elem_of_nil in Hin|done].
  - apply NoDup_cons in Hnd as [Hk Hnd].
    destruct IH as (g1 & Hrun & Hnodes & Hlook); [done|..].
    { intros e He. apply Hdef. by right. }
    destruct (Hdef k) as (v & Hv & b & Hb); [by left|].
    assert (edge g1 k = Some v) as Hv1.
    { unfold edge. rewrite Hlook. by destruct (decide (k ∈ ks)). }
    exists (write_edge g1 k (set_e_visible b v)).
    rewrite for_rev_cons, Hrun. simpl. rewrite Hstep, Hv1. simpl.
    rewrite Hnodes, Hb. simpl.
    split; [done|]. split; [done|]. intros e.
    destruct (decide (e = k)) as [->|Hne].
    + rewrite lookup_insert_eq. rewrite decide_True by (by left).
      unfold edge in Hv. rewrite Hv. simpl. by rewrite Hb.
    + rewrite lookup_insert_ne by done. rewrite Hlook.
      by other_key e ks.
Qed.

(** A loop that assigns [visible] on each node and puts those left
    visible into [visibleGraph]; the flag may read the edges. *)
Lemma for_rev_collect_nodes
    (flag : gmap (string * string) Edge → ResourceNode → bool)
    (step : string → Graph * Graph → option (Graph * Graph)) :
  (∀ k g vg, step k (g, vg) =
     v ← node g k;
     let v' := set_visible (flag (g_edges g) v) v in
     Some (write_node g k v',
           if flag (g_edges g) v then setNode vg (model_id v') v' else vg)) →
  ∀ (ks : list string) (g vg : Graph),
    NoDup ks →
    (∀ k, k ∈ ks → ∃ v, node g k = Some v ∧ model_id v = k) →
    ∃ g' vg', for_rev ks step (g, vg) = Some (g', vg')
      ∧ g_edges g' = g_edges g
      ∧ g_edges vg' = g_edges vg
      ∧ (∀ k, g_nodes g' !! k =
          if decide (k ∈ ks)
          then fmap (fun v => set_visible (flag (g_edges g) v) v) <$> g_nodes g !! k
          else g_nodes g !! k)
      ∧ (∀ k, g_nodes vg' !! k =
          match node g k with
          | Some v =>
              if decide (k ∈ ks) then
                if flag (g_edges g) v then Some (Some (set_visible true v))
                else g_nodes vg !! k
              else g_nodes vg !! k
          | None => g_nodes vg !! k
          end).
Proof.
  intros Hstep ks g vg. induction ks as [|k ks IH]; intros Hnd Hdef.
  - exists g, vg. do 3 (split; [done|]). split.
    + intros k. destruct (decide (k ∈ [])) as [Hin|_]; [by apply elem_of_nil in Hin|done].
    + intros k. destruct (node g k); [|done].
      destruct (decide (k ∈ [])) as [Hin|_]; [by apply elem_of_nil in Hin|done].
  - apply NoDup_cons in Hnd as [Hk Hnd].
    destruct IH as (g1 & vg1 & Hrun & Hedges & Hvedges & Hlook & Hvlook); [done|..].
    { intros k' Hk'. apply Hdef. by right. }
    destruct (Hdef k) as (v & Hv & Hid); [by left|].
    assert (node g1 k = Some v) as Hv1.
    { apply node_Some. rewrite Hlook. destruct (decide (k ∈ ks)); [done|].
      by apply node_Some. }
    rewrite for_rev_cons, Hrun. simpl. rewrite Hstep, Hv1. simpl.
    rewrite Hedges. eexists _, _. split; [done|].
    split; [done|]. split; [by destruct (flag (g_edges g) v)|]. split.
    + intros k'. simpl. destruct (decide (k' = k)) as [->|Hne].
      * rewrite lookup_insert_eq. rewrite decide_True by (by left).
        apply node_Some in Hv. by rewrite Hv.
      * rewrite lookup_insert_ne by done. rewrite Hlook.
        by other_key k' ks.
    + intros k'. destruct (decide (k' = k)) as [->|Hne].
      * rewrite Hv. rewrite decide_True by (by left).
        destruct (flag (g_edges g) v) eqn:Hf; simpl.
        -- rewrite Hid. by rewrite lookup_insert_eq.
        -- rewrite Hvlook, Hv. by rewrite decide_False, ?Hf by done.
      * transitivity (g_nodes vg1 !! k').
        { destruct (flag (g_edges g) v); [|done]. simpl.
          rewrite lookup_insert_ne; [done|]. by rewrite Hid. }
        rewrite Hvlook. destruct (node g k') as [w|]; [|done].
        by other_key k' ks.
Qed.

Lemma ensureNode_present (ns : gmap string (option ResourceNode)) (v : string) :
  is_Some (ns !! v) → ensureNode ns v = ns.
Proof. intros [l Hl]. unfold ensureNode. by rewrite Hl. Qed.

(** A loop that assigns [visible] on each edge and puts those left
    visible into [visibleGraph], whose nodes already hold their end
    points. *)
Lemma for_rev_collect_edges
    (flag : string * string → Edge → bool)
    (step : string * string → Graph * Graph → option (Graph * Graph)) :
  (∀ e g vg, step e (g, vg) =
     v ← edge g e;
     let v' := set_e_visible (flag e v) v in
     Some (write_edge g e v', if flag e v then setEdge vg e v' else vg)) →
  ∀ (ks : list (string * string)) (g vg : Graph),
    NoDup ks →
    (∀ e, e ∈ ks → ∃ v, edge g e = Some v
       ∧ (flag e v = true → is_Some (g_nodes vg !! e.1) ∧ is_Some (g_nodes vg !! e.2))) →
    ∃ g' vg', for_rev ks step (g, vg) = Some (g', vg')
      ∧ g_nodes g' = g_nodes g
      ∧ g_nodes vg' = g_nodes vg
      ∧ (∀ e, g_edges g' !! e =
          if decide (e ∈ ks)
          then (fun v => set_e_visible (flag e v) v) <$> g_edges g !! e
          else g_edges g !! e)
      ∧ (∀ e, g_edges vg' !! e =
          match edge g e with
          | Some v =>
              if decide (e ∈ ks) then
                if flag e v then Some (set_e_visible true v)
                else g_edges vg !! e
              else g_edges vg !! e
          | None => g_edges vg !! e
          end).
Proof.
  intros Hstep ks g vg. induction ks as [|k ks IH]; intros Hnd Hdef.
  - exists g, vg. do 3 (split; [done|]). split.
    + intros e. destruct (decide (e ∈ [])) as [Hin|_]; [by apply elem_of_nil in Hin|done].
    + intros e. destruct (edge g e); [|done].
      destruct (decide (e ∈ [])) as [Hin|_]; [by apply elem_of_nil in Hin|done].
  - apply NoDup_cons in Hnd as [Hk Hnd].
    destruct IH as (g1 & vg1 & Hrun & Hnodes & Hvnodes & Hlook & Hvlook); [done|..].
    { intros e He. apply Hdef. by right. }
    destruct (Hdef k) as (v & Hv & Hends); [by left|].
    assert (edge g1 k = Some v) as Hv1.
    { unfold edge. rewrite Hlook. by destruct (decide (k ∈ ks)). }
    rewrite for_rev_cons, Hrun. simpl. rewrite Hstep, Hv1. simpl.
    eexists _, _. split; [done|]. split; [done|]. split.
    { destruct (flag k v) eqn:Hf; [|done]. simpl.
      destruct (Hends eq_refl) as [H1 H2]. rewrite Hvnodes.
      by rewrite (ensureNode_present _ k.1 H1), (ensureNode_present _ k.2 H2). }
    split.
    + intros e. simpl. destruct (decide (e = k)) as [->|Hne].
      * rewrite lookup_insert_eq. rewrite decide_True by (by left).
        unfold edge in Hv. by rewrite Hv.
      * rewrite lookup_insert_ne by done. rewrite Hlook.
        by other_key e ks.
    + intros e. destruct (decide (e = k)) as [->|Hne].
      * rewrite Hv. rewrite decide_True by (by left).
        destruct (flag k v) eqn:Hf; simpl.
        -- by rewrite lookup_insert_eq.
        -- rewrite Hvlook, Hv. by rewrite decide_False, ?Hf by done.
      * transitivity (g_edges vg1 !! e).
        { destruct (flag k v); [|done]. simpl. by rewrite lookup_insert_ne. }
        rewrite Hvlook. destruct (edge g e) as [w|]; [|done].
        by other_key e ks.
Qed.

Lemma NoDup_nodes (g : Graph) : NoDup (nodes g).
Proof. apply NoDup_fst_map_to_list. Qed.

Lemma NoDup_edges (g : Graph) : NoDup (edges g).
Proof. apply NoDup_fst_map_to_list. Qed.

Lemma elem_of_nodes (g : Graph) (k : string) :
  k ∈ nodes g ↔ is_Some (g_nodes g !! k).
Proof.
  unfold nodes. rewrite list_elem_of_fmap. split.
  - intros [[k' l] [-> Hin]]. apply elem_of_map_to_list in Hin. by exists l.
  - intros [l Hl]. exists (k, l). split; [done|]. by apply elem_of_map_to_list.
Qed.

Lemma elem_of_edges (g : Graph) (e : string * string) :
  e ∈ edges g ↔ is_Some (g_edges g !! e).
Proof.
  unfold edges. rewrite list_elem_of_fmap. split.
  - intros [[e' l] [-> Hin]]. apply elem_of_map_to_list in Hin. by exists l.
  - intros [l Hl]. exists (e, l). split; [done|]. by apply elem_of_map_to_list.
Qed.

Lemma wf_node (g : Graph) (k : string) :
  wf_graph g → is_Some (g_nodes g !! k) → ∃ v, node g k = Some v ∧ model_id v = k.
Proof.
  intros Hwf [l Hl]. destruct (wf_label g Hwf k l Hl) as (v & -> & Hid).
  exists v. split; [by apply node_Some|done].
Qed.

Lemma not_param_set_visible (b : bool) (v : ResourceNode) :
  not_param (set_visible b v) = not_param v.
Proof. done. Qed.

(** What the first two loops leave: the same nodes and edges, each with
    its flag set by the condition on parameters. *)
Lemma param_pass_spec (sp : bool) (g : Graph) :
  wf_graph g →
  ∃ g2, param_pass sp g = Some g2
    ∧ (∀ k, g_nodes g2 !! k =
         fmap (fun v => set_visible (param_ok sp v) v) <$> g_nodes g !! k)
    ∧ (∀ e, g_edges g2 !! e =
         (fun l => set_e_visible (edge_param_ok sp g l) l) <$> g_edges g !! e).
Proof.
  intros Hwf.
  assert (Hdef : ∀ k, k ∈ nodes g → is_Some (node g k)).
  { intros k Hk%elem_of_nodes. destruct (wf_node g k Hwf Hk) as (v & Hv & _). by exists v. }
  unfold param_pass. destruct sp.
  - destruct (for_rev_write_nodes (fun _ => true) show_node (fun _ _ => eq_refl)
                (nodes g) g (NoDup_nodes g) Hdef) as (g1 & -> & Hedges & Hlook).
    simpl.
    destruct (for_rev_write_edges (fun _ _ => Some true) show_edge (fun _ _ => eq_refl)
                (edges g) g1 (NoDup_edges g)) as (g2 & -> & Hnodes & Hlook2).
    { intros e [l Hl]%elem_of_edges. exists l. unfold edge. by rewrite Hedges. }
    exists g2. split; [done|]. split.
    + intros k. rewrite Hnodes, Hlook.
      destruct (decide (k ∈ nodes g)) as [Hin|Hin]; [done|].
      destruct (g_nodes g !! k) eqn:Hk; [|done].
      exfalso. apply Hin, elem_of_nodes. by rewrite Hk.
    + intros e. rewrite Hlook2, Hedges.
      destruct (decide (e ∈ edges g)) as [Hin|Hin]; [done|].
      destruct (g_edges g !! e) eqn:He; [|done].
      exfalso. apply Hin, elem_of_edges. by rewrite He.
  - destruct (for_rev_write_nodes not_param hide_param_node (fun _ _ => eq_refl)
                (nodes g) g (NoDup_nodes g) Hdef) as (g1 & -> & Hedges & Hlook).
    simpl.
    assert (Hnode1 : ∀ k, node g1 k = (fun v => set_visible (not_param v) v) <$> node g k).
    { intros k. unfold node. rewrite Hlook.
      destruct (decide (k ∈ nodes g)) as [Hin|Hin].
      - by destruct (g_nodes g !! k) as [[v|]|].
      - destruct (g_nodes g !! k) eqn:Hk; [|done].
        exfalso. apply Hin, elem_of_nodes. by rewrite Hk. }
    pose (flag := fun (ns : gmap string (option ResourceNode)) (v : Edge) =>
            s ← node (mkGraph ns ∅) (source v);
            t ← node (mkGraph ns ∅) (target v);
            Some (not_param s && not_param t)).
    destruct (for_rev_write_edges flag hide_param_edge) with (ks := edges g) (g := g1)
      as (g2 & -> & Hnodes & Hlook2).
    { intros e g'. unfold hide_param_edge, flag.
      destruct (edge g' e) as [v|]; [|done]. simpl.
      change (node {| g_nodes := g_nodes g'; g_edges := ∅ |}) with (node g').
      destruct (node g' (source v)); [|done]. simpl.
      by destruct (node g' (target v)). }
    { apply NoDup_edges. }
    { intros e [l Hl]%elem_of_edges. exists l. split; [unfold edge; by rewrite Hedges|].
      destruct (wf_ends g Hwf e l Hl) as (Hs & Ht & H1 & H2).
      destruct (wf_node g _ Hwf H1) as (v1 & Hv1 & _).
      destruct (wf_node g _ Hwf H2) as (v2 & Hv2 & _).
      unfold flag. change (node {| g_nodes := g_nodes g1; g_edges := ∅ |}) with (node g1).
      rewrite Hs, Ht, !Hnode1, Hv1, Hv2. simpl. by eexists. }
    exists g2. split; [done|]. split.
    + intros k. rewrite Hnodes, Hlook.
      destruct (decide (k ∈ nodes g)) as [Hin|Hin]; [done|].
      destruct (g_nodes g !! k) eqn:Hk; [|done].
      exfalso. apply Hin, elem_of_nodes. by rewrite Hk.
    + intros e. rewrite Hlook2, Hedges.
      destruct (decide (e ∈ edges g)) as [Hin|Hin].
      * destruct (g_edges g !! e) as [l|] eqn:Hl; [|done]. simpl. do 2 f_equal.
        unfold flag, edge_param_ok, edge_not_param. simpl.
        change (node {| g_nodes := g_nodes g1; g_edges := ∅ |}) with (node g1).
        rewrite !Hnode1.
        destruct (node g (source l)) as [s|]; [|done]. simpl.
        by destruct (node g (target l)) as [t|].
      * destruct (g_edges g !! e) eqn:He; [|done].
        exfalso. apply Hin, elem_of_edges. by rewrite He.
Qed.

Lemma set_visible_same (v : ResourceNode) : set_visible (visible v) v = v.
Proof. by destruct v. Qed.

Lemma set_e_visible_same (l : Edge) : set_e_visible (e_visible l) l = l.
Proof. by destruct l. Qed.

Lemma write_node_same (g : Graph) (k : string) (v : ResourceNode) :
  node g k = Some v → write_node g k v = g.
Proof.
  intros Hv%node_Some. destruct g as [ns es]. unfold write_node. simpl in *.
  f_equal. by apply insert_id.
Qed.

Lemma write_edge_same (g : Graph) (e : string * string) (l : Edge) :
  edge g e = Some l → write_edge g e l = g.
Proof.
  intros Hl. destruct g as [ns es]. unfold write_edge, edge in *. simpl in *.
  f_equal. by apply insert_id.
Qed.

(** What the last four loops build from a graph whose flags the first
    two have set. *)
Lemma build_visible_spec (fo : option string) (g : Graph)
    (ns : list string) (es : list (string * string)) :
  NoDup ns → (∀ k, k ∈ ns ↔ is_Some (g_nodes g !! k)) →
  NoDup es → (∀ e, e ∈ es ↔ is_Some (g_edges g !! e)) →
  (∀ k, is_Some (g_nodes g !! k) → ∃ v, node g k = Some v ∧ model_id v = k) →
  (∀ e l, edge g e = Some l → e_visible l = true →
     ∃ v1 v2, node g e.1 = Some v1 ∧ node g e.2 = Some v2
              ∧ visible v1 = true ∧ visible v2 = true) →
  ∃ g3 vg, build_visible ns es fo g = Some (g3, vg)
    ∧ (∀ k, g_nodes vg !! k =
         match node g k with
         | Some v => if visible v && near_focus fo g k
                     then Some (Some (set_visible true v)) else None
         | None => None
         end)
    ∧ (∀ e, g_edges vg !! e =
         match edge g e with
         | Some l => if e_visible l && at_focus fo e
                     then Some (set_e_visible true l) else None
         | None => None
         end)
    ∧ (∀ k, node g3 k =
         (fun v => set_visible (visible v && near_focus fo g k) v) <$> node g k)
    ∧ (∀ e, edge g3 e =
         (fun l => set_e_visible (e_visible l && at_focus fo e) l) <$> edge g e)
    ∧ (∀ k, g_nodes g3 !! k =
         fmap (fun v => set_visible (visible v && near_focus fo g k) v)
           <$> g_nodes g !! k).
Proof.
  intros Hnd_n elem_of_ns Hnd_e elem_of_es Hlabel Hends.
  pose (nflag := fun (E : gmap (string * string) Edge) (v : ResourceNode) =>
          visible v && near_focus fo (mkGraph ∅ E) (model_id v)).
  pose (eflag := fun (e : string * string) (l : Edge) => e_visible l && at_focus fo e).
  assert (Hnear : ∀ k v, node g k = Some v → nflag (g_edges g) v = visible v && near_focus fo g k).
  { intros k v Hv. destruct (Hlabel k) as (v' & Hv' & Hid).
    { apply node_Some in Hv. by rewrite Hv. }
    rewrite Hv in Hv'. injection Hv' as <-. unfold nflag. by rewrite Hid. }
  set (nstep := match fo with Some f => focus_node f | None => copy_node end).
  set (estep := match fo with Some f => focus_edge f | None => copy_edge end).
  assert (Hbuild : build_visible ns es fo g =
            for_rev ns nstep (g, empty_graph) ≫= for_rev es estep).
  { unfold build_visible, nstep, estep. by destruct fo. }
  destruct (for_rev_collect_nodes nflag nstep) with (ks := ns) (g := g) (vg := empty_graph)
    as (g3 & vg1 & Hrun1 & Hedges & Hvedges & Hlook & Hvlook).
  { intros k g' vg'. unfold nstep, nflag. destruct fo as [f|]; simpl.
    - done.
    - destruct (node g' k) as [v|] eqn:Hv; [|done]. simpl.
      rewrite !andb_true_r, !set_visible_same. by rewrite (write_node_same _ _ _ Hv). }
  { done. }
  { intros k Hk%elem_of_ns. by apply Hlabel. }
  destruct (for_rev_collect_edges eflag estep) with (ks := es) (g := g3) (vg := vg1)
    as (g4 & vg & Hrun2 & Hnodes2 & Hvnodes2 & Hlook2 & Hvlook2).
  { intros e g' vg'. unfold estep, eflag. destruct fo as [f|]; simpl.
    - done.
    - destruct (edge g' e) as [l|] eqn:Hl; [|done]. simpl.
      rewrite !andb_true_r, !set_e_visible_same. by rewrite (write_edge_same _ _ _ Hl). }
  { done. }
  { intros e [l Hl]%elem_of_es. exists l. split; [unfold edge; by rewrite Hedges|].
    unfold eflag. intros [Hvis Hat]%andb_true_iff.
    destruct (Hends e l Hl Hvis) as (v1 & v2 & Hv1 & Hv2 & Hvis1 & Hvis2).
    assert (He : hasEdge g e.1 e.2 = true).
    { unfold hasEdge. apply bool_decide_eq_true. exists l. by destruct e. }
    rewrite !Hvlook, Hv1, Hv2.
    assert (e.1 ∈ ns) as Hin1.
    { apply elem_of_ns. apply node_Some in Hv1. by rewrite Hv1. }
    assert (e.2 ∈ ns) as Hin2.
    { apply elem_of_ns. apply node_Some in Hv2. by rewrite Hv2. }
    rewrite !decide_True by done.
    rewrite (Hnear _ _ Hv1), (Hnear _ _ Hv2), Hvis1, Hvis2. simpl.
    assert (near_focus fo g e.1 = true ∧ near_focus fo g e.2 = true) as [-> ->].
    { unfold near_focus, at_focus in *. destruct fo as [f|]; [|done].
      apply orb_true_iff in Hat as [Hf%bool_decide_eq_true|Hf%bool_decide_eq_true].
      - rewrite <- Hf. rewrite He. rewrite bool_decide_true by done.
        by rewrite !orb_true_r.
      - rewrite <- Hf. rewrite He. rewrite (bool_decide_true (e.2 = e.2)) by done.
        by rewrite !orb_true_r. }
    split; by eexists. }
  exists g4, vg. rewrite Hbuild, Hrun1. simpl. split; [done|].
  assert (Hnotin : ∀ k, k ∉ ns → g_nodes g !! k = None).
  { intros k Hk. destruct (g_nodes g !! k) eqn:Hl; [|done].
    exfalso. apply Hk, elem_of_ns. by rewrite Hl. }
  assert (Henotin : ∀ e, e ∉ es → g_edges g !! e = None).
  { intros e He. destruct (g_edges g !! e) eqn:Hl; [|done].
    exfalso. apply He, elem_of_es. by rewrite Hl. }
  split; [|split; [|split; [|split]]].
  - intros k. rewrite Hvnodes2, Hvlook.
    destruct (node g k) as [v|] eqn:Hv; [|done].
    rewrite (Hnear _ _ Hv).
    destruct (decide (k ∈ ns)) as [Hin|Hin].
    + by destruct (visible v && near_focus fo g k).
    + apply Hnotin in Hin. apply node_Some in Hv. congruence.
  - intros e. rewrite Hvlook2. unfold edge at 1. rewrite Hedges. fold (edge g e).
    destruct (edge g e) as [l|] eqn:Hl; [|by rewrite Hvedges].
    destruct (decide (e ∈ es)) as [Hin|Hin].
    + unfold eflag. destruct (e_visible l && at_focus fo e); [done|].
      by rewrite Hvedges.
    + apply Henotin in Hin. unfold edge in Hl. congruence.
  - intros k. unfold node at 1. rewrite Hnodes2, Hlook. unfold node.
    destruct (decide (k ∈ ns)) as [Hin|Hin].
    + destruct (g_nodes g !! k) as [[v|]|] eqn:Hv; try done. simpl.
      by rewrite (Hnear k v) by (by apply node_Some).
    + by rewrite (Hnotin _ Hin).
  - intros e. unfold edge at 1. rewrite Hlook2, Hedges. unfold edge.
    destruct (decide (e ∈ es)) as [Hin|Hin]; [done|].
    by rewrite (Henotin _ Hin).
  - intros k. rewrite Hnodes2, Hlook.
    destruct (decide (k ∈ ns)) as [Hin|Hin].
    + destruct (g_nodes g !! k) as [[v|]|] eqn:Hv; try done. simpl.
      by rewrite (Hnear k v) by (by apply node_Some).
    + by rewrite (Hnotin _ Hin).
Qed.

Lemma updateVisibility_unfold (this : View) :
  updateVisibility this =
    g2 ← param_pass (showParams this) (graph this);
    match showParams this, focus this with
    | true, None => Some (g2, mkView g2 (focus this) (showParams this))
    | _, _ =>
        '(g3, visibleGraph) ← build_visible (nodes (graph this)) (edges (graph this))
                                (focus this) g2;
        Some (visibleGraph, mkView g3 (focus this) (showParams this))
    end.
Proof.
  unfold updateVisibility, param_pass. destruct (showParams this).
  - destruct (for_rev (nodes (graph this)) show_node (graph this)) as [g1|]; [|done].
    simpl. destruct (for_rev (edges (graph this)) show_edge g1) as [g2|]; [|done].
    simpl. by destruct (focus this).
  - destruct (for_rev (nodes (graph this)) hide_param_node (graph this)) as [g1|]; [|done].
    simpl. destruct (for_rev (edges (graph this)) hide_param_edge g1) as [g2|]; [|done].
    simpl. by destruct (focus this).
Qed.

(** The graph [updateVisibility] builds, whenever it builds one: the
    nodes and edges that pass the condition on parameters and the
    condition on the focus, each with [visible] set; and the flags it
    leaves in the graph of the board. *)
Lemma updateVisibility_spec (this : View) :
  wf_graph (graph this) →
  showParams this = false ∨ is_Some (focus this) →
  let g := graph this in
  let sp := showParams this in
  let fo := focus this in
  ∃ vg this', updateVisibility this = Some (vg, this')
    ∧ (∀ k, g_nodes vg !! k =
         match node g k with
         | Some v => if param_ok sp v && near_focus fo g k
                     then Some (Some (set_visible true v)) else None
         | None => None
         end)
    ∧ (∀ e, g_edges vg !! e =
         match edge g e with
         | Some l => if edge_param_ok sp g l && at_focus fo e
                     then Some (set_e_visible true l) else None
         | None => None
         end)
    ∧ (∀ k, node (graph this') k =
         (fun v => set_visible (param_ok sp v && near_focus fo g k) v) <$> node g k)
    ∧ (∀ e, edge (graph this') e =
         (fun l => set_e_visible (edge_param_ok sp g l && at_focus fo e) l) <$> edge g e)
    ∧ (∀ k, g_nodes (graph this') !! k =
         fmap (fun v => set_visible (param_ok sp v && near_focus fo g k) v)
           <$> g_nodes g !! k).
Proof.
  intros Hwf Hcase g sp fo.
  destruct (param_pass_spec sp g Hwf) as (g2 & Hpass & Hn2 & He2).
  assert (Hnode2 : ∀ k, node g2 k = (fun v => set_visible (param_ok sp v) v) <$> node g k).
  { intros k. unfold node. rewrite Hn2. by destruct (g_nodes g !! k) as [[v|]|]. }
  assert (Hhas : ∀ a b, hasEdge g2 a b = hasEdge g a b).
  { intros a b. unfold hasEdge. apply bool_decide_ext. rewrite He2.
    by rewrite fmap_is_Some. }
  assert (Hnear2 : ∀ k, near_focus fo g2 k = near_focus fo g k).
  { intros k. unfold near_focus. destruct fo; [|done]. by rewrite !Hhas. }
  destruct (build_visible_spec fo g2 (nodes g) (edges g))
    as (g3 & vg & Hbuild & Hvn & Hve & Hn3 & He3 & Hl3).
  { apply NoDup_nodes. }
  { intros k. rewrite elem_of_nodes, Hn2. by rewrite fmap_is_Some. }
  { apply NoDup_edges. }
  { intros e. rewrite elem_of_edges, He2. by rewrite fmap_is_Some. }
  { intros k Hk. rewrite Hn2, fmap_is_Some in Hk.
    destruct (wf_node g k Hwf Hk) as (v & Hv & Hid).
    exists (set_visible (param_ok sp v) v). by rewrite Hnode2, Hv. }
  { intros e l Hl Hvis. unfold edge in Hl. rewrite He2 in Hl.
    destruct (g_edges g !! e) as [l0|] eqn:Hl0; [|done].
    simpl in Hl. injection Hl as <-. simpl in Hvis.
    destruct (wf_ends g Hwf e l0 Hl0) as (Hs & Ht & H1 & H2).
    destruct (wf_node g _ Hwf H1) as (v1 & Hv1 & _).
    destruct (wf_node g _ Hwf H2) as (v2 & Hv2 & _).
    exists (set_visible (param_ok sp v1) v1), (set_visible (param_ok sp v2) v2).
    rewrite !Hnode2, Hv1, Hv2. do 2 (split; [done|]). simpl.
    unfold edge_param_ok, edge_not_param, param_ok in *.
    rewrite Hs, Ht, Hv1, Hv2 in Hvis. destruct sp; [done|]. simpl in *.
    by apply andb_true_iff in Hvis. }
  exists vg, (mkView g3 fo sp). split.
  { rewrite updateVisibility_unfold. fold g sp fo. rewrite Hpass. simpl.
    rewrite Hbuild. simpl.
    destruct Hcase as [Hsp|[f Hf]].
    - fold sp in Hsp. by rewrite Hsp.
    - fold fo in Hf. rewrite Hf. by destruct sp. }
  split; [|split; [|split; [|split]]].
  - intros k. rewrite Hvn, Hnode2, Hnear2.
    by destruct (node g k) as [v|].
  - intros e. rewrite Hve. unfold edge. rewrite He2.
    by destruct (g_edges g !! e) as [l|].
  - intros k. simpl. rewrite Hn3, Hnode2, Hnear2.
    by destruct (node g k) as [v|].
  - intros e. simpl. rewrite He3. unfold edge. rewrite He2.
    by destruct (g_edges g !! e) as [l|].
  - intros k. simpl. rewrite Hl3, Hn2, Hnear2.
    by destruct (g_nodes g !! k) as [[v|]|].
Qed.

(** The invariant holds of the empty graph [setModel] starts from;
    [_addResource] and [updateVisibility] keep it, and [_addEdge] keeps
    it exactly when both ids have views. *)
Lemma wf_empty_graph : wf_graph empty_graph.
Proof. split; intros k l Hl; simpl in Hl; by rewrite lookup_empty in Hl. Qed.

Lemma wf_addResource (cid ty : string) (g : Graph) :
  wf_graph g → wf_graph (_addResource cid ty g).
Proof.
  intros [Hlabel Hends]. split; simpl.
  - intros k l. destruct (decide (k = cid)) as [->|Hne].
    + rewrite lookup_insert_eq. intros [= <-]. by eexists.
    + rewrite lookup_insert_ne by done. apply Hlabel.
  - intros e l Hl. destruct (Hends e l Hl) as (Hs & Ht & H1 & H2).
    do 2 (split; [done|]).
    rewrite !lookup_insert_is_Some.
    split; [destruct (decide (cid = e.1))|destruct (decide (cid = e.2))]; auto.
Qed.

Lemma wf_addEdge (sourceCid targetCid : string) (g : Graph) :
  wf_graph g → is_Some (node g sourceCid) → is_Some (node g targetCid) →
  wf_graph (_addEdge sourceCid targetCid g).
Proof.
  intros Hwf [s Hs] [t Ht]. unfold _addEdge, end_view. rewrite Hs, Ht.
  assert (is_Some (g_nodes g !! sourceCid)) as H1
    by (apply node_Some in Hs; by rewrite Hs).
  assert (is_Some (g_nodes g !! targetCid)) as H2
    by (apply node_Some in Ht; by rewrite Ht).
  destruct (wf_node g _ Hwf H1) as (s' & Hs' & Hids).
  destruct (wf_node g _ Hwf H2) as (t' & Ht' & Hidt).
  assert (s' = s) as -> by congruence. assert (t' = t) as -> by congruence.
  destruct Hwf as [Hlabel Hends].
  unfold setEdge. simpl.
  rewrite (ensureNode_present _ sourceCid H1), (ensureNode_present _ targetCid H2).
  split; simpl; [done|].
  intros e l. destruct (decide (e = (sourceCid, targetCid))) as [->|Hne].
  - rewrite lookup_insert_eq. by intros [= <-].
  - rewrite lookup_insert_ne by done. apply Hends.
Qed.

Lemma ensureNode_lookup (ns : gmap string (option ResourceNode)) (v k : string) :
  ensureNode ns v !! k
  = match ns !! k with
    | Some l => Some l
    | None => if bool_decide (k = v) then Some None else None
    end.
Proof.
  unfold ensureNode. destruct (ns !! v) as [l|] eqn:Hv.
  - destruct (ns !! k) as [l'|] eqn:Hk; [done|].
    case_bool_decide; [congruence|done].
  - destruct (decide (k = v)) as [->|Hne].
    + by rewrite lookup_insert_eq, Hv, bool_decide_true.
    + rewrite lookup_insert_ne by done. rewrite bool_decide_false by done.
      by destruct (ns !! k).
Qed.

(** [_addEdge] leaves the views of the graph as they are: an end without
    a view stays without one. *)
Lemma node_addEdge (sourceCid targetCid k : string) (g : Graph) :
  node (_addEdge sourceCid targetCid g) k = node g k.
Proof.
  unfold node, _addEdge. simpl. rewrite !ensureNode_lookup.
  destruct (g_nodes g !! k) as [l|]; [done|]. by repeat case_bool_decide.
Qed.

(** An end without a view is a reference to no view, and breaks the
    invariant: the graph has a node without a label. *)
Lemma addEdge_undefined_end (sourceCid targetCid : string) (g : Graph) :
  node g sourceCid = None ∨ node g targetCid = None →
  (∃ l, edge (_addEdge sourceCid targetCid g) (sourceCid, targetCid) = Some l
        ∧ (node (_addEdge sourceCid targetCid g) (source l) = None
           ∨ node (_addEdge sourceCid targetCid g) (target l) = None))
  ∧ ¬ wf_graph (_addEdge sourceCid targetCid g).
Proof.
  intros Hnone. split.
  - eexists. split; [unfold edge, _addEdge; simpl; apply lookup_insert_eq|].
    rewrite !node_addEdge. unfold end_view. simpl.
    destruct Hnone as [H|H]; rewrite H; auto.
  - intros Hwf.
    assert (∃ k, (k = sourceCid ∨ k = targetCid) ∧ node g k = None) as (k & Hk & Hnk).
    { destruct Hnone; [exists sourceCid|exists targetCid]; auto. }
    assert (is_Some (g_nodes (_addEdge sourceCid targetCid g) !! k)) as Hin.
    { unfold _addEdge. simpl. rewrite !ensureNode_lookup.
      destruct (g_nodes g !! k); [done|].
      destruct Hk as [Hk|Hk]; rewrite Hk.
      - by rewrite (bool_decide_true (sourceCid = sourceCid)) by done.
      - rewrite (bool_decide_true (targetCid = targetCid)) by done. by case_bool_decide. }
    destruct (wf_node _ _ Hwf Hin) as (v & Hv & _).
    rewrite node_addEdge in Hv. congruence.
Qed.

Lemma wf_flags (g g' : Graph)
    (F : string → ResourceNode → bool) (G : string * string → Edge → bool) :
  wf_graph g →
  (∀ k, g_nodes g' !! k = fmap (fun v => set_visible (F k v) v) <$> g_nodes g !! k) →
  (∀ e, g_edges g' !! e = (fun l => set_e_visible (G e l) l) <$> g_edges g !! e) →
  wf_graph g'.
Proof.
  intros [Hlabel Hends] Hn He. split.
  - intros k l. rewrite Hn. destruct (g_nodes g !! k) as [l0|] eqn:Hl0; [|done].
    destruct (Hlabel k l0 Hl0) as (v & -> & Hid). intros [= <-]. by eexists.
  - intros e l. rewrite He, !Hn. destruct (g_edges g !! e) as [l0|] eqn:Hl0; [|done].
    destruct (Hends e l0 Hl0) as (Hs & Ht & H1 & H2). intros [= <-].
    by rewrite !fmap_is_Some.
Qed.

Lemma wf_updateVisibility (this this' : View) (vg : Graph) :
  wf_graph (graph this) → updateVisibility this = Some (vg, this') →
  wf_graph (graph this').
Proof.
  intros Hwf Hrun.
  destruct (showParams this) eqn:Hsp, (focus this) as [f|] eqn:Hfo.
  2: { rewrite updateVisibility_unfold, Hsp, Hfo in Hrun.
       destruct (param_pass_spec true (graph this) Hwf) as (g2 & Hpass & Hn2 & He2).
       rewrite Hpass in Hrun. simpl in Hrun. injection Hrun as _ <-. simpl.
       by apply (wf_flags (graph this) g2 (fun _ => param_ok true)
                   (fun _ => edge_param_ok true (graph this))). }
  all: destruct (updateVisibility_spec this Hwf)
         as (vg0 & this0 & Hrun0 & _ & _ & _ & He' & Hn');
    [rewrite ?Hsp, ?Hfo; by eauto|];
    rewrite Hrun in Hrun0; injection Hrun0 as <- <-;
    apply (wf_flags (graph this) (graph this')
             (fun k v => param_ok (showParams this) v
                         && near_focus (focus this) (graph this) k)
             (fun e l => edge_param_ok (showParams this) (graph this) l
                         && at_focus (focus this) e)); done.
Qed.

Lemma check_wf_sound (g : Graph) : check_wf g = true → wf_graph g.
Proof.
  unfold check_wf. intros [Hn He]%andb_true_iff.
  rewrite forallb_forall in Hn, He. split.
  - intros k l Hl.
    assert (In (k, l) (map_to_list (g_nodes g))) as Hin
      by (by apply list_elem_of_In, elem_of_map_to_list).
    apply Hn in Hin. simpl in Hin. destruct l as [v|]; [|done].
    apply bool_decide_eq_true in Hin. by exists v.
  - intros e l Hl.
    assert (In (e, l) (map_to_list (g_edges g))) as Hin
      by (by apply list_elem_of_In, elem_of_map_to_list).
    apply He in Hin. simpl in Hin.
    apply andb_true_iff in Hin as [[[H1 H2]%andb_true_iff H3]%andb_true_iff H4].
    apply bool_decide_eq_true in H1, H2, H3, H4. done.
Qed.

Lemma sample_graph_wf : wf_graph sample_graph.
Proof. apply check_wf_sound. vm_compute. reflexivity. Qed.

(** With the focus on the node [c1] and parameters hidden, the graph
    returned holds [c1] and the topic [c2] and the edge between them: the
    parameter [c3], though linked to [c1], and the node [c4] are left
    out. *)
Example updateVisibility_sample_focus :
  fst <$> updateVisibility (sample_view (Some "c1") false) =
  Some (mkGraph
          (<["c1" := Some (mkNode "c1" "node" true)]>
           (<["c2" := Some (mkNode "c2" "topic" true)]> ∅))
          (<[("c1", "c2") := mkEdge "c1" "c2" true]> ∅)).
Proof. vm_compute. reflexivity. Qed.

(** C2. With a focus node [f] set, [updateVisibility] returns a graph
    whose every node is [f] or has an edge to or from [f] in the graph of
    the board, and whose every edge starts or ends at [f]; every node and
    edge of it passes the condition on parameters in force (all
    resources under [showParams], else those not of type ["param"]), and
    has [visible] set. *)
Theorem updateVisibility_focus (this : View) (f : string) :
  wf_graph (graph this) → focus this = Some f →
  ∃ vg this', updateVisibility this = Some (vg, this')
    ∧ (∀ k l, g_nodes vg !! k = Some l →
         ∃ v, node (graph this) k = Some v
           ∧ l = Some (set_visible true v)
           ∧ (k = f ∨ hasEdge (graph this) k f = true ∨ hasEdge (graph this) f k = true)
           ∧ param_ok (showParams this) v = true)
    ∧ (∀ e l, g_edges vg !! e = Some l →
         ∃ l0, edge (graph this) e = Some l0
           ∧ l = set_e_visible true l0
           ∧ (source l0 = f ∨ target l0 = f)
           ∧ edge_param_ok (showParams this) (graph this) l0 = true).
Proof.
  intros Hwf Hf.
  destruct (updateVisibility_spec this Hwf) as (vg & this' & Hrun & Hn & He & _).
  { right. by rewrite Hf. }
  exists vg, this'. split; [done|]. split.
  - intros k l Hl. rewrite Hn in Hl.
    destruct (node (graph this) k) as [v|]; [|done]. exists v. split; [done|].
    destruct (param_ok (showParams this) v) eqn:Hp; [|done].
    destruct (near_focus (focus this) (graph this) k) eqn:Hnear; [|done].
    simpl in Hl. injection Hl as <-. split; [done|]. split; [|done].
    rewrite Hf in Hnear. simpl in Hnear.
    apply orb_true_iff in Hnear as [[Hk|Hk]%orb_true_iff|Hk]; auto.
    apply bool_decide_eq_true in Hk. auto.
  - intros e l Hl. rewrite He in Hl.
    destruct (edge (graph this) e) as [l0|] eqn:Hl0; [|done]. exists l0. split; [done|].
    destruct (edge_param_ok (showParams this) (graph this) l0) eqn:Hp; [|done].
    destruct (at_focus (focus this) e) eqn:Hat; [|done].
    simpl in Hl. injection Hl as <-. split; [done|]. split; [|done].
    destruct (wf_ends _ Hwf e l0 Hl0) as (-> & -> & _).
    rewrite Hf in Hat. simpl in Hat.
    apply orb_true_iff in Hat as [Hk|Hk]; apply bool_decide_eq_true in Hk; auto.
Qed.

Lemma updateVisibility_focus_witness :
  ∃ vg this', updateVisibility (sample_view (Some "c1") false) = Some (vg, this')
    ∧ (∀ k l, g_nodes vg !! k = Some l →
         ∃ v, node sample_graph k = Some v
           ∧ l = Some (set_visible true v)
           ∧ (k = "c1" ∨ hasEdge sample_graph k "c1" = true
              ∨ hasEdge sample_graph "c1" k = true)
           ∧ param_ok false v = true)
    ∧ (∀ e l, g_edges vg !! e = Some l →
         ∃ l0, edge sample_graph e = Some l0
           ∧ l = set_e_visible true l0
           ∧ (source l0 = "c1" ∨ target l0 = "c1")
           ∧ edge_param_ok false sample_graph l0 = true).
Proof.
  apply (updateVisibility_focus (sample_view (Some "c1") false) "c1").
  - apply check_wf_sound. vm_compute. reflexivity.
  - reflexivity.
Defined.

(** C3. With parameters hidden and no focus, [updateVisibility] returns
    exactly the nodes of the graph of the board whose [resourceType] is
    not ["param"] and exactly its edges whose two end points are not of
    type ["param"], each with [visible] set to [true]; in the graph of
    the board it leaves [visible] false on every node of type ["param"]
    and on every edge with such an end point, and true on the rest. *)
Theorem updateVisibility_hide_params (this : View) :
  wf_graph (graph this) → showParams this = false → focus this = None →
  ∃ vg this', updateVisibility this = Some (vg, this')
    ∧ (∀ k l, g_nodes vg !! k = Some l ↔
         ∃ v, node (graph this) k = Some v ∧ resourceType v ≠ "param"
           ∧ l = Some (set_visible true v))
    ∧ (∀ e l, g_edges vg !! e = Some l ↔
         ∃ l0 s t, edge (graph this) e = Some l0
           ∧ node (graph this) (source l0) = Some s
           ∧ node (graph this) (target l0) = Some t
           ∧ resourceType s ≠ "param" ∧ resourceType t ≠ "param"
           ∧ l = set_e_visible true l0)
    ∧ (∀ k v, node (graph this) k = Some v →
         node (graph this') k
         = Some (set_visible (negb (bool_decide (resourceType v = "param"))) v))
    ∧ (∀ e l0, edge (graph this) e = Some l0 →
         ∃ s t, node (graph this) (source l0) = Some s
           ∧ node (graph this) (target l0) = Some t
           ∧ edge (graph this') e
             = Some (set_e_visible
                       (negb (bool_decide (resourceType s = "param"))
                        && negb (bool_decide (resourceType t = "param"))) l0)).
Proof.
  intros Hwf Hsp Hfo.
  destruct (updateVisibility_spec this Hwf)
    as (vg & this' & Hrun & Hn & He & Hn' & He' & _).
  { by left. }
  rewrite Hsp, Hfo in *. simpl in *.
  assert (Hnp : ∀ v, not_param v = true ↔ resourceType v ≠ "param").
  { intros v. unfold not_param. rewrite negb_true_iff. apply bool_decide_eq_false. }
  assert (Hedge : ∀ e l0, edge (graph this) e = Some l0 →
            ∃ s t, node (graph this) (source l0) = Some s
              ∧ node (graph this) (target l0) = Some t).
  { intros e l0 Hl0. destruct (wf_ends _ Hwf e l0 Hl0) as (-> & -> & H1 & H2).
    destruct (wf_node _ _ Hwf H1) as (s & Hs & _).
    destruct (wf_node _ _ Hwf H2) as (t & Ht & _). by exists s, t. }
  exists vg, this'. split; [done|]. split; [|split; [|split]].
  - intros k l. rewrite Hn. split.
    + destruct (node (graph this) k) as [v|]; [|done].
      unfold param_ok. simpl. rewrite andb_true_r.
      destruct (not_param v) eqn:Hv; [|done]. intros [= <-].
      exists v. by rewrite <- Hnp.
    + intros (v & -> & Hv%Hnp & ->). unfold param_ok. simpl. by rewrite Hv.
  - intros e l. rewrite He. split.
    + destruct (edge (graph this) e) as [l0|] eqn:Hl0; [|done].
      destruct (Hedge e l0 Hl0) as (s & t & Hs & Ht).
      unfold edge_param_ok, edge_not_param. simpl. rewrite Hs, Ht, andb_true_r.
      destruct (not_param s && not_param t) eqn:Hst; [|done]. intros [= <-].
      apply andb_true_iff in Hst as [H1%Hnp H2%Hnp]. by exists l0, s, t.
    + intros (l0 & s & t & -> & Hs & Ht & H1%Hnp & H2%Hnp & ->).
      unfold edge_param_ok, edge_not_param. simpl. by rewrite Hs, Ht, H1, H2.
  - intros k v Hv. rewrite Hn', Hv. simpl. unfold param_ok. simpl.
    by rewrite andb_true_r.
  - intros e l0 Hl0. destruct (Hedge e l0 Hl0) as (s & t & Hs & Ht).
    exists s, t. do 2 (split; [done|]). rewrite He', Hl0. simpl.
    unfold edge_param_ok, edge_not_param. simpl. by rewrite Hs, Ht, andb_true_r.
Qed.

Lemma updateVisibility_hide_params_witness :
  ∃ vg this', updateVisibility (sample_view None false) = Some (vg, this')
    ∧ (∀ k l, g_nodes vg !! k = Some l ↔
         ∃ v, node sample_graph k = Some v ∧ resourceType v ≠ "param"
           ∧ l = Some (set_visible true v))
    ∧ (∀ e l, g_edges vg !! e = Some l ↔
         ∃ l0 s t, edge sample_graph e = Some l0
           ∧ node sample_graph (source l0) = Some s
           ∧ node sample_graph (target l0) = Some t
           ∧ resourceType s ≠ "param" ∧ resourceType t ≠ "param"
           ∧ l = set_e_visible true l0)
    ∧ (∀ k v, node sample_graph k = Some v →
         node (graph this') k
         = Some (set_visible (negb (bool_decide (resourceType v = "param"))) v))
    ∧ (∀ e l0, edge sample_graph e = Some l0 →
         ∃ s t, node sample_graph (source l0) = Some s
           ∧ node sample_graph (target l0) = Some t
           ∧ edge (graph this') e
             = Some (set_e_visible
                       (negb (bool_decide (resourceType s = "param"))
                        && negb (bool_decide (resourceType t = "param"))) l0)).
Proof.
  apply (updateVisibility_hide_params (sample_view None false)).
  - apply check_wf_sound. vm_compute. reflexivity.
  - reflexivity.
  - reflexivity.
Defined.

End VisibilityFacts.

(** ** [cgRequestData] *)

Section CgRequestFacts.
Import CgRequest.

Lemma foldl_add_launch (l : list LaunchData) (acc : Request) :
  foldl add_launch acc l =
    mkRequest (project acc)
      (launch acc ++ (launch_entry <$> filter (fun d1 => l_selected d1 = Some true) l))
      (discard acc ++ (l_name <$> filter (fun d1 => l_selected d1 = Some false) l)).
Proof.
  revert acc. induction l as [|d1 l IH]; intros acc; simpl.
  - rewrite !app_nil_r. by destruct acc.
  - rewrite IH. unfold add_launch.
    destruct (l_selected d1) as [[|]|] eqn:Hsel; simpl.
    + rewrite filter_cons_True, filter_cons_False by (by rewrite Hsel).
      simpl. by rewrite <- app_assoc.
    + rewrite filter_cons_False, filter_cons_True by (by rewrite Hsel).
      simpl. by rewrite <- app_assoc.
    + by rewrite !filter_cons_False by (by rewrite Hsel).
Qed.

Lemma assign_own_ne (o : ArgsObject) (k n : string) (v : jsvalue) :
  k ≠ n → own (assign o k v) !! n = own o !! n.
Proof.
  intros Hne. unfold assign.
  destruct (bool_decide (k = "__proto__") && has_prototype o).
  - by destruct v.
  - simpl. by rewrite lookup_insert_ne.
Qed.

Lemma assign_own_eq (o : ArgsObject) (k : string) (v : jsvalue) :
  k ≠ "__proto__" ∨ has_prototype o = false →
  own (assign o k v) !! k = Some v ∧ has_prototype (assign o k v) = has_prototype o.
Proof.
  intros Hk. unfold assign.
  assert (bool_decide (k = "__proto__") && has_prototype o = false) as ->.
  { destruct Hk as [Hk| ->]; [by rewrite bool_decide_false|apply andb_false_r]. }
  simpl. by rewrite lookup_insert_eq.
Qed.

Lemma assign_proto (o : ArgsObject) (v : jsvalue) :
  has_prototype o = true →
  own (assign o "__proto__" v) = own o
  ∧ has_prototype (assign o "__proto__" v) = negb (bool_decide (v = JNull)).
Proof. intros Hp. unfold assign. rewrite Hp. by destruct v. Qed.

(** A key of the object is the name of an arg assigned to it. *)
Lemma foldl_add_arg_key (l : list ArgData) (o : ArgsObject) (n : string) :
  is_Some (own (foldl add_arg o l) !! n) →
  is_Some (own o !! n) ∨ ∃ d2, d2 ∈ l ∧ a_name d2 = n.
Proof.
  revert o. induction l as [|d l IH]; intros o; simpl; [by left|].
  intros [Ho|(d2 & Hin & Hn)]%IH.
  - destruct (decide (a_name d = n)) as [Hn|Hn].
    + right. exists d. split; [by left|done].
    + left. unfold add_arg in Ho. by rewrite assign_own_ne in Ho.
  - right. exists d2. split; [by right|done].
Qed.

(** C4. The request lists under [launch] one entry [{name, args}] for
    each launch file whose [selected] is [true], with the name of the
    launch file and the object filled from its args, whose keys are
    names of these args; under [discard] the name of each launch file
    whose [selected] is [false]; both in the order of the model, and
    nothing else: a launch file whose [selected] is unknown is in
    neither list. *)
Theorem cgRequestData_partition (fm : FeatureModel) :
  launch (cgRequestData fm)
  = (fun d1 => mkEntry (l_name d1) (foldl add_arg (mkArgs ∅ true) (l_children d1)))
      <$> filter (fun d1 => l_selected d1 = Some true) (fm_children fm)
  ∧ name <$> launch (cgRequestData fm)
    = l_name <$> filter (fun d1 => l_selected d1 = Some true) (fm_children fm)
  ∧ (∀ i e n, launch (cgRequestData fm) !! i = Some e → is_Some (own (args e) !! n) →
       ∃ d1 d2, filter (fun d1 => l_selected d1 = Some true) (fm_children fm) !! i = Some d1
         ∧ d2 ∈ l_children d1 ∧ a_name d2 = n)
  ∧ discard (cgRequestData fm)
    = l_name <$> filter (fun d1 => l_selected d1 = Some false) (fm_children fm)
  ∧ project (cgRequestData fm) = fm_id fm.
Proof.
  unfold cgRequestData. rewrite foldl_add_launch. simpl.
  split; [done|]. split; [|split; [|done]].
  - rewrite <- list_fmap_compose. by apply list_fmap_ext.
  - intros i e n. rewrite list_lookup_fmap.
    destruct (filter _ (fm_children fm) !! i) as [d1|]; [|done]. simpl.
    intros [= <-]. simpl. intros [Hn|(d2 & Hin & Hd2)]%foldl_add_arg_key.
    + simpl in Hn. rewrite lookup_empty in Hn. by destruct Hn.
    + by exists d1, d2.
Qed.

Example cgRequestData_sample :
  (name <$> launch (cgRequestData sample_model), discard (cgRequestData sample_model))
  = (["a.launch"], ["b.launch"]).
Proof. reflexivity. Qed.

Lemma selected_value_find (ds : list ValueData) :
  selected_value ds =
    match find (fun d3 => bool_decide (v_selected d3 = Some true)) ds with
    | Some d3 => if v_resolved d3 then JString (v_name d3) else v_value d3
    | None => JNull
    end.
Proof.
  induction ds as [|d3 ds IH]; simpl; [done|].
  destruct (v_selected d3) as [[|]|]; simpl; done.
Qed.

Lemma arg_value_stated (d2 : ArgData) : arg_value d2 = stated_arg_value d2.
Proof.
  unfold arg_value, stated_arg_value. rewrite selected_value_find.
  by destruct (a_selected d2) as [[|]|].
Qed.

Lemma foldl_add_arg_other (l : list ArgData) (o : ArgsObject) (n : string) :
  n ∉ a_name <$> l → own (foldl add_arg o l) !! n = own o !! n.
Proof.
  revert o. induction l as [|d l IH]; intros o Hn; simpl; [done|].
  rewrite fmap_cons, not_elem_of_cons in Hn. destruct Hn as [Hne Hn].
  rewrite IH by done. unfold add_arg. by rewrite assign_own_ne.
Qed.

Lemma foldl_add_arg_lookup (l : list ArgData) (o : ArgsObject) (d2 : ArgData) :
  NoDup (a_name <$> l) → d2 ∈ l → a_name d2 ≠ "__proto__" →
  own (foldl add_arg o l) !! a_name d2 = Some (arg_value d2).
Proof.
  revert o. induction l as [|d l IH]; intros o Hnd Hin Hname;
    [by apply elem_of_nil in Hin|].
  rewrite fmap_cons in Hnd. apply NoDup_cons in Hnd as [Hd Hnd]. simpl.
  apply elem_of_cons in Hin as [->|Hin].
  - rewrite foldl_add_arg_other by done. unfold add_arg.
    by apply assign_own_eq; left.
  - by apply IH.
Qed.

(** With distinct names, an object that has its prototype gets no
    property [__proto__]. *)
Lemma foldl_add_arg_proto (l : list ArgData) (o : ArgsObject) :
  NoDup (a_name <$> l) → has_prototype o = true →
  own (foldl add_arg o l) !! "__proto__" = own o !! "__proto__".
Proof.
  revert o. induction l as [|d l IH]; intros o Hnd Hp; [done|].
  rewrite fmap_cons in Hnd. apply NoDup_cons in Hnd as [Hd Hnd]. simpl.
  destruct (decide (a_name d = "__proto__")) as [Hn|Hn].
  - rewrite foldl_add_arg_other by (by rewrite <- Hn). unfold add_arg. rewrite Hn.
    by destruct (assign_proto o (arg_value d) Hp) as [-> _].
  - rewrite IH; [by apply assign_own_ne|done|].
    unfold add_arg, assign. rewrite bool_decide_false by done. simpl. exact Hp.
Qed.

(** C5, for launch files whose args bear distinct names.  The entry of a
    selected launch file maps the name of each of its args, but for an
    arg named [__proto__], to the name of the first selected value of
    the arg if that value is resolved, to the [value] field of that
    value if it is not, and to [null] when the arg is not selected; the
    args object has these entries and no other, one for each such arg,
    and none for an arg named [__proto__]. *)
Theorem cgRequestData_args (fm : FeatureModel) (d1 : LaunchData) :
  d1 ∈ fm_children fm → l_selected d1 = Some true →
  NoDup (a_name <$> l_children d1) →
  launch_entry d1 ∈ launch (cgRequestData fm)
  ∧ name (launch_entry d1) = l_name d1
  ∧ (∀ d2, d2 ∈ l_children d1 → a_name d2 ≠ "__proto__" →
       own (args (launch_entry d1)) !! a_name d2 = Some (stated_arg_value d2))
  ∧ own (args (launch_entry d1)) !! "__proto__" = None
  ∧ (∀ n, is_Some (own (args (launch_entry d1)) !! n)
          ↔ n ≠ "__proto__" ∧ ∃ d2, d2 ∈ l_children d1 ∧ a_name d2 = n)
  ∧ size (own (args (launch_entry d1)))
    = length (filter (fun d2 => a_name d2 ≠ "__proto__") (l_children d1)).
Proof.
  intros Hin Hsel Hnd.
  assert (Hproto : own (args (launch_entry d1)) !! "__proto__" = None).
  { simpl. by rewrite foldl_add_arg_proto. }
  assert (Hkeys : ∀ n, is_Some (own (args (launch_entry d1)) !! n)
            ↔ n ≠ "__proto__" ∧ ∃ d2, d2 ∈ l_children d1 ∧ a_name d2 = n).
  { intros n. split.
    - intros Hn. split.
      + intros ->. rewrite Hproto in Hn. by destruct Hn.
      + simpl in Hn. apply foldl_add_arg_key in Hn as [Hn|?]; [|done].
        simpl in Hn. rewrite lookup_empty in Hn. by destruct Hn.
    - intros (Hne & d2 & Hd2 & <-). simpl.
      rewrite foldl_add_arg_lookup by done. by eexists. }
  split; [|split; [done|split; [|split; [done|split; [done|]]]]].
  - unfold cgRequestData. rewrite foldl_add_launch. simpl.
    apply list_elem_of_fmap. exists d1. split; [done|].
    by apply list_elem_of_filter.
  - intros d2 Hd2 Hname. simpl. rewrite <- arg_value_stated.
    by apply foldl_add_arg_lookup.
  - rewrite <- size_dom.
    assert (dom (own (args (launch_entry d1)))
            = list_to_set (a_name <$> filter (fun d2 => a_name d2 ≠ "__proto__")
                                        (l_children d1))) as ->.
    { apply set_eq. intros n. rewrite elem_of_dom, Hkeys, elem_of_list_to_set.
      rewrite list_elem_of_fmap. split.
      - intros (Hne & d2 & Hd2 & <-). exists d2. split; [done|].
        by apply list_elem_of_filter.
      - intros (d2 & -> & [Hne Hd2]%list_elem_of_filter). split; [done|].
        by exists d2. }
    rewrite size_list_to_set, length_fmap; [done|].
    assert (Hsub : ∀ l : list ArgData,
              NoDup (a_name <$> l) →
              NoDup (a_name <$> filter (fun d2 => a_name d2 ≠ "__proto__") l)).
    { induction l as [|d l IH]; [done|]. rewrite fmap_cons.
      intros [Hd Hl]%NoDup_cons.
      destruct (decide (a_name d ≠ "__proto__")).
      - rewrite filter_cons_True by done. rewrite fmap_cons. apply NoDup_cons.
        split; [|by apply IH].
        intros (d2 & Hn & [_ Hd2]%list_elem_of_filter)%list_elem_of_fmap.
        apply Hd. apply list_elem_of_fmap. by exists d2.
      - rewrite filter_cons_False by done. by apply IH. }
    by apply Hsub.
Qed.

Lemma cgRequestData_args_witness :
  launch_entry sample_launch ∈ launch (cgRequestData sample_model)
  ∧ name (launch_entry sample_launch) = l_name sample_launch
  ∧ (∀ d2, d2 ∈ l_children sample_launch → a_name d2 ≠ "__proto__" →
       own (args (launch_entry sample_launch)) !! a_name d2 = Some (stated_arg_value d2))
  ∧ own (args (launch_entry sample_launch)) !! "__proto__" = None
  ∧ (∀ n, is_Some (own (args (launch_entry sample_launch)) !! n)
          ↔ n ≠ "__proto__" ∧ ∃ d2, d2 ∈ l_children sample_launch ∧ a_name d2 = n)
  ∧ size (own (args (launch_entry sample_launch)))
    = length (filter (fun d2 => a_name d2 ≠ "__proto__") (l_children sample_launch)).
Proof.
  apply (cgRequestData_args sample_model sample_launch).
  - apply list_elem_of_here.
  - reflexivity.
  - apply (bool_decide_unpack _). vm_compute. reflexivity.
Defined.

Example cgRequestData_sample_args :
  own (args (launch_entry sample_launch))
  = <["x" := JString "2"]> (<["y" := JString "5"]> (<["z" := JNull]> ∅)).
Proof. vm_compute. reflexivity. Qed.

(** An arg named [__proto__], selected with the value ["1"], gets no
    entry: the object holds the other arg alone. *)
Example cgRequestData_proto_args :
  own (args (launch_entry with_proto)) = <["x" := JString "2"]> ∅.
Proof. vm_compute. reflexivity. Qed.

(** The specification states C5 of every selected launch file.  When
    two args of a launch file bear the same name the second assignment
    replaces the first, so the first arg, selected with the value ["1"],
    is sent as [null], and the object has one entry for the two args. *)
Lemma cgRequestData_args_same_name :
  launch (cgRequestData (mkFeatureModel "p" [twice_x])) = [launch_entry twice_x]
  ∧ l_selected twice_x = Some true
  ∧ l_children twice_x !! 0 = Some (mkArg "x" (Some true) [mkValue "1" (Some true) true JNull])
  ∧ stated_arg_value (mkArg "x" (Some true) [mkValue "1" (Some true) true JNull])
    = JString "1"
  ∧ own (args (launch_entry twice_x)) !! "x" = Some JNull
  ∧ size (own (args (launch_entry twice_x))) = 1
  ∧ length (l_children twice_x) = 2.
Proof. repeat split; vm_compute; reflexivity. Qed.

End CgRequestFacts.

(** ** Selection in the feature tree *)

Section FeatureTreeFacts.
Import FeatureTree.

Lemma truthy_true (s : option bool) : truthy s = true ↔ s = Some true.
Proof. destruct s as [[|]|]; simpl; split; congruence. Qed.

Lemma setValueSelected_true (prompt : Prompt) (n : string) (d d' : ValueNode) (ask : bool) :
  setValueSelected prompt n d ask = (true, d') →
  v_selected d' = Some true ∧ v_id d' = v_id d.
Proof.
  unfold setValueSelected.
  destruct (negb (v_resolved d)); [|by intros [= <-]].
  destruct (ask || bool_decide (v_ui_value d = None)); [|by intros [= <-]].
  destruct (prompt _) as [[|c v]|]; try done. by intros [= <-].
Qed.

Lemma setValueSelected_false (prompt : Prompt) (n : string) (d d' : ValueNode) (ask : bool) :
  setValueSelected prompt n d ask = (false, d') → d' = d.
Proof.
  unfold setValueSelected.
  destruct (negb (v_resolved d)); [|done].
  destruct (ask || bool_decide (v_ui_value d = None)); [|done].
  destruct (prompt _) as [[|c v]|]; try done; by intros [= <-].
Qed.

Lemma setValueSelected_answered (prompt : Prompt) (n : string) (d : ValueNode) (ask : bool) :
  (∀ msg, ∃ answer, prompt msg = Some answer ∧ answer ≠ "") →
  (setValueSelected prompt n d ask).1 = true.
Proof.
  intros Hans. unfold setValueSelected.
  destruct (negb (v_resolved d)); [|done].
  destruct (ask || bool_decide (v_ui_value d = None)); [|done].
  destruct (Hans ("Value for [" ++ n ++ "]:")%string) as (answer & -> & Hne).
  by destruct answer.
Qed.

Lemma find_previous_range (previous : nat) (l : list ValueNode) (j0 j : nat) :
  find_previous previous l j0 = Some j → j0 ≤ j < j0 + length l.
Proof.
  revert j0. induction l as [|d l IH]; intros j0; simpl; [done|].
  destruct (v_id d =? previous).
  - intros [= <-]. lia.
  - intros H%IH. lia.
Qed.

Lemma find_previous_present (l : list ValueNode) (j0 vi : nat) (d : ValueNode) :
  l !! vi = Some d → is_Some (find_previous (v_id d) l j0).
Proof.
  revert j0 vi. induction l as [|d0 l IH]; intros j0 vi; [done|]. simpl.
  destruct (v_id d0 =? v_id d) eqn:Hid; [by eexists|].
  destruct vi as [|vi]; simpl.
  - intros [= ->]. by rewrite Nat.eqb_refl in Hid.
  - apply IH.
Qed.

Lemma chosen_index_range (source : ArgNode) (l : list ValueNode) :
  default 0 (a_defaultValue source) < length l ∨ is_Some (a_ui_previousValue source ≫= fun p => find_previous p l 0) →
  chosen_index source l < length l.
Proof.
  unfold chosen_index. intros Hcase.
  destruct (a_ui_previousValue source) as [p|]; simpl in *.
  - destruct (find_previous p l 0) as [j|] eqn:Hj; simpl.
    + apply find_previous_range in Hj. lia.
    + destruct Hcase as [?|[? ?]]; done.
  - destruct Hcase as [?|[? ?]]; done.
Qed.

(** What [propagateArgSelection] leaves of a selected arg. *)
Lemma propagateArgSelection_selected (prompt : Prompt) (source : ArgNode)
    (cs : list ValueNode) :
  a_selected source = Some true → a_children source = Some cs →
  let children := set_value (Some false) <$> cs in
  let i := chosen_index source children in
  propagateArgSelection prompt source =
    d ← children !! i;
    let r := setValueSelected prompt (a_ui_name source) d false in
    Some (r.1,
          mkArgNode (Some true) (a_defaultValue source) (a_ui_selected source)
            (if r.1 then Some (v_id r.2) else a_ui_previousValue source)
            (a_ui_name source) (Some (<[i := r.2]> children))).
Proof.
  intros Hsel Hcs. unfold propagateArgSelection. rewrite Hcs, Hsel. simpl.
  destruct (_ !! _) as [d|]; [|done]. simpl.
  by destruct (setValueSelected prompt (a_ui_name source) d false).
Qed.

(** C6. For an arg whose [selected] is [true] and that has values,
    [propagateArgSelection], when it returns [true] (the prompt, if one
    came up, was not dismissed), leaves exactly one of the values with
    [selected === true] and every other with [selected === false]; and
    it does return [true] when the default index is a value of the arg
    and the prompt is answered. *)
Theorem propagateArgSelection_xor (prompt : Prompt) (source : ArgNode)
    (cs : list ValueNode) :
  a_selected source = Some true → a_children source = Some cs → cs ≠ [] →
  (∀ source', propagateArgSelection prompt source = Some (true, source') →
     ∃ cs' i, a_children source' = Some cs'
       ∧ length cs' = length cs ∧ i < length cs
       ∧ ∀ j d, cs' !! j = Some d → v_selected d = Some (bool_decide (j = i)))
  ∧ (default 0 (a_defaultValue source) < length cs →
     (∀ msg, ∃ answer, prompt msg = Some answer ∧ answer ≠ "") →
     ∃ source', propagateArgSelection prompt source = Some (true, source')).
Proof.
  intros Hsel Hcs Hne.
  rewrite (propagateArgSelection_selected prompt source cs Hsel Hcs).
  set (children := set_value (Some false) <$> cs).
  set (i := chosen_index source children).
  assert (Hlen : length children = length cs) by apply length_fmap.
  split.
  - intros source'. destruct (children !! i) as [d|] eqn:Hd; [|done]. simpl.
    destruct (setValueSelected prompt (a_ui_name source) d false) as [ok d'] eqn:Hset.
    simpl. intros [= -> <-].
    apply setValueSelected_true in Hset as [Hd' _].
    apply lookup_lt_Some in Hd.
    exists (<[i := d']> children), i. split; [done|].
    split; [by rewrite length_insert|]. split; [lia|].
    intros j e. destruct (decide (j = i)) as [->|Hji].
    + rewrite list_lookup_insert_eq by done. intros [= <-].
      by rewrite bool_decide_true.
    + rewrite list_lookup_insert_ne by done. unfold children.
      rewrite list_lookup_fmap. destruct (cs !! j); [|done]. intros [= <-].
      by rewrite bool_decide_false.
  - intros Hdef Hans.
    assert (i < length children) as Hi.
    { apply chosen_index_range. left. by rewrite Hlen. }
    destruct (lookup_lt_is_Some_2 _ _ Hi) as [d ->]. simpl.
    rewrite (setValueSelected_answered prompt _ d false Hans). by eexists.
Qed.

Lemma propagateArgSelection_xor_witness :
  (∀ source', propagateArgSelection (always "true") sample_arg = Some (true, source') →
     ∃ cs' i, a_children source' = Some cs'
       ∧ length cs' = 3 ∧ i < 3
       ∧ ∀ j d, cs' !! j = Some d → v_selected d = Some (bool_decide (j = i)))
  ∧ (default 0 (a_defaultValue sample_arg) < 3 →
     (∀ msg, ∃ answer, always "true" msg = Some answer ∧ answer ≠ "") →
     ∃ source', propagateArgSelection (always "true") sample_arg = Some (true, source')).
Proof.
  apply (propagateArgSelection_xor (always "true") sample_arg
           [ mkValueNode 4 (Some true) true (Some true) None "1";
             mkValueNode 5 None true None None "2";
             mkValueNode 6 None false None None "?" ]).
  - reflexivity.
  - reflexivity.
  - discriminate.
Defined.

(** The arg of the sample clicked: the value chosen before, the second,
    is the one selected again. *)
Example propagateArgSelection_sample :
  (fun r : bool * ArgNode => (r.1, fmap (M := list) v_selected <$> a_children r.2))
    <$> propagateArgSelection (always "true") sample_arg
  = Some (true, Some [Some false; Some true; Some false]).
Proof. reflexivity. Qed.

Lemma propagateArgSelection_keeps (prompt : Prompt) (source source' : ArgNode) (ok : bool) :
  propagateArgSelection prompt source = Some (ok, source') →
  a_selected source' = a_selected source.
Proof.
  unfold propagateArgSelection.
  destruct (a_children source) as [cs|]; [|done]. simpl.
  destruct (truthy (a_selected source)).
  - destruct (_ !! _) as [d|]; [|done]. simpl.
    destruct (setValueSelected _ _ _ _). by intros [= <- <-].
  - by intros [= <- <-].
Qed.

(** On an arg that is not selected the values take the state of the
    arg, and nothing is asked. *)
Lemma propagateArgSelection_open (prompt : Prompt) (source : ArgNode)
    (cs : list ValueNode) :
  truthy (a_selected source) = false → a_children source = Some cs →
  propagateArgSelection prompt source =
    Some (true,
          mkArgNode (a_selected source) (a_defaultValue source) (a_ui_selected source)
            (a_ui_previousValue source) (a_ui_name source)
            (Some (set_value (a_selected source) <$> cs))).
Proof. intros Hv Hcs. unfold propagateArgSelection. by rewrite Hcs, Hv. Qed.

Lemma propagateRosLaunchSelection_keeps (prompt : Prompt) (source source' : LaunchNode) :
  propagateRosLaunchSelection prompt source = Some source' →
  r_selected source' = r_selected source
  ∧ r_ui_selected source' = r_ui_selected source.
Proof.
  unfold propagateRosLaunchSelection.
  destruct (r_children source) as [args|]; [|by intros [= <-]].
  destruct (truthy (r_selected source)).
  - destruct (mapM _ args); [|done]. by intros [= <-].
  - destruct (mapM _ args); [|done]. by intros [= <-].
Qed.

(** The arg of the value that [propagateValueSelection] starts from, once
    selected with that value as the one chosen before, is processed
    without error. *)
Lemma propagateArgSelection_previous (prompt : Prompt) (arg : ArgNode)
    (vals : list ValueNode) (vi : nat) (s : ValueNode) :
  a_children arg = Some vals → vals !! vi = Some s →
  is_Some (propagateArgSelection prompt
             (mkArgNode (Some true) (a_defaultValue arg) (Some true)
                (Some (v_id s)) (a_ui_name arg) (a_children arg))).
Proof.
  intros Hvals Hs.
  set (arg2 := mkArgNode (Some true) (a_defaultValue arg) (Some true)
                 (Some (v_id s)) (a_ui_name arg) (a_children arg)).
  rewrite (propagateArgSelection_selected prompt arg2 vals eq_refl Hvals).
  set (children := set_value (Some false) <$> vals).
  assert (chosen_index arg2 children < length children) as Hi.
  { apply chosen_index_range. right. simpl.
    apply (find_previous_present children 0 vi (set_value (Some false) s)).
    unfold children. by rewrite list_lookup_fmap, Hs. }
  destruct (lookup_lt_is_Some_2 _ _ Hi) as [d ->]. simpl. by eexists.
Qed.

(** The round of [propagateRosLaunchSelection] for an arg of a selected
    launch file leaves the values of the arg in place, with their ids. *)
Lemma propagate_round_children (prompt : Prompt) (d d' : ArgNode)
    (vals : list ValueNode) :
  a_children d = Some vals →
  (if truthy (a_selected d) then Some d
   else snd <$> propagateArgSelection prompt (set_arg None d)) = Some d' →
  ∃ vals', a_children d' = Some vals' ∧ v_id <$> vals' = v_id <$> vals.
Proof.
  intros Hvals. destruct (truthy (a_selected d)).
  - intros [= <-]. by exists vals.
  - rewrite (propagateArgSelection_open prompt (set_arg None d) vals) by done.
    simpl. intros [= <-]. simpl. eexists. split; [done|].
    rewrite <- list_fmap_compose. by apply list_fmap_ext.
Qed.

(** C7. [propagateValueSelection] on a value whose [selected] is [true]
    leaves [selected === true] on the arg above it and on the launch
    file above that; and it runs to its end whenever every arg of the
    launch file has its array of values. *)
Theorem propagateValueSelection_upward (prompt : Prompt) (roslaunch : LaunchNode)
    (ai vi : nat) (args : list ArgNode) (arg : ArgNode)
    (vals : list ValueNode) (source : ValueNode) :
  r_children roslaunch = Some args → args !! ai = Some arg →
  a_children arg = Some vals → vals !! vi = Some source →
  v_selected source = Some true →
  (∀ roslaunch', propagateValueSelection prompt roslaunch ai vi = Some roslaunch' →
     r_selected roslaunch' = Some true
     ∧ ∃ args' arg', r_children roslaunch' = Some args'
         ∧ args' !! ai = Some arg' ∧ a_selected arg' = Some true)
  ∧ ((∀ a, a ∈ args → is_Some (a_children a)) →
     is_Some (propagateValueSelection prompt roslaunch ai vi)).
Proof.
  intros Hargs Harg Hvals Hsrc _.
  unfold propagateValueSelection. rewrite Hargs. simpl. rewrite Harg. simpl.
  rewrite Hvals. simpl. rewrite Hsrc. simpl.
  split.
  - intros roslaunch'.
    destruct (if negb (truthy (r_selected roslaunch)) then _ else _) as [r1|] eqn:Hr1;
      [|done]. simpl.
    assert (r_selected r1 = Some true) as Hsel1.
    { destruct (truthy (r_selected roslaunch)) eqn:Ht; simpl in Hr1.
      - injection Hr1 as <-. by apply truthy_true.
      - by apply propagateRosLaunchSelection_keeps in Hr1 as [-> _]. }
    destruct (r_children r1) as [args1|]; [|done]. simpl.
    destruct (args1 !! ai) as [arg1|] eqn:Harg1; [|done]. simpl.
    destruct (propagateArgSelection _ _) as [[ok arg3]|] eqn:Hrun; [|done]. simpl.
    intros [= <-]. simpl. split; [done|].
    exists (<[ai := arg3]> args1), arg3. split; [done|]. split.
    + apply list_lookup_insert_eq. by apply lookup_lt_Some in Harg1.
    + by apply propagateArgSelection_keeps in Hrun.
  - intros Hall. destruct (truthy (r_selected roslaunch)) eqn:Ht; simpl.
    + rewrite Hargs. simpl. rewrite Harg. simpl.
      destruct (propagateArgSelection_previous prompt arg vals vi source Hvals Hsrc)
        as [[ok arg3] ->]. simpl. by eexists.
    + unfold propagateRosLaunchSelection. simpl.
      set (round := fun d : ArgNode => if truthy (a_selected d) then Some d
                      else snd <$> propagateArgSelection prompt (set_arg None d)).
      assert (is_Some (mapM round args)) as [args1 Hmap].
      { apply mapM_is_Some. apply Forall_forall. intros a [cs Hcs]%Hall.
        unfold compose, round. destruct (truthy (a_selected a)); [by eexists|].
        rewrite (propagateArgSelection_open prompt (set_arg None a) cs) by done.
        by eexists. }
      rewrite Hmap. simpl.
      apply mapM_Some in Hmap.
      destruct (Forall2_lookup_l _ _ _ _ _ Hmap Harg) as (arg1 & Harg1 & Hround).
      rewrite Harg1. simpl.
      destruct (propagate_round_children prompt arg arg1 vals Hvals Hround)
        as (vals1 & Hvals1 & Hids).
      assert (∃ s1, vals1 !! vi = Some s1 ∧ v_id s1 = v_id source) as (s1 & Hs1 & Hid).
      { assert ((v_id <$> vals1) !! vi = Some (v_id source)) as H.
        { by rewrite Hids, list_lookup_fmap, Hsrc. }
        rewrite list_lookup_fmap in H. destruct (vals1 !! vi) as [s1|]; [|done].
        exists s1. split; [done|]. by injection H. }
      rewrite <- Hid.
      destruct (propagateArgSelection_previous prompt arg1 vals1 vi s1 Hvals1 Hs1)
        as [[ok arg3] ->]. simpl. by eexists.
Qed.

Lemma propagateValueSelection_upward_witness :
  (∀ roslaunch', propagateValueSelection (always "true") sample_launch 1 0 = Some roslaunch' →
     r_selected roslaunch' = Some true
     ∧ ∃ args' arg', r_children roslaunch' = Some args'
         ∧ args' !! 1 = Some arg' ∧ a_selected arg' = Some true)
  ∧ ((∀ a, a ∈ [ mkArgNode None None None None "y"
                   (Some [ mkValueNode 2 None true None None "a" ]);
                 sample_arg ] → is_Some (a_children a)) →
     is_Some (propagateValueSelection (always "true") sample_launch 1 0)).
Proof.
  apply (propagateValueSelection_upward (always "true") sample_launch 1 0
           [ mkArgNode None None None None "y"
               (Some [ mkValueNode 2 None true None None "a" ]);
             sample_arg ]
           sample_arg
           [ mkValueNode 4 (Some true) true (Some true) None "1";
             mkValueNode 5 None true None None "2";
             mkValueNode 6 None false None None "?" ]
           (mkValueNode 4 (Some true) true (Some true) None "1")).
  - reflexivity.
  - reflexivity.
  - reflexivity.
  - reflexivity.
  - reflexivity.
Defined.

(** The first value of the second arg of the sample clicked: the launch
    file and the arg are selected, the other arg is left open. *)
Example propagateValueSelection_sample :
  (fun r : LaunchNode => (r_selected r, fmap (M := list) a_selected <$> r_children r))
    <$> propagateValueSelection (always "true") sample_launch 1 0
  = Some (Some true, Some [None; Some true]).
Proof. reflexivity. Qed.

Lemma propagateRosLaunchSelection_runs (prompt : Prompt) (source : LaunchNode) :
  (∀ args, r_children source = Some args → ∀ a, a ∈ args → is_Some (a_children a)) →
  is_Some (propagateRosLaunchSelection prompt source).
Proof.
  intros Hall. unfold propagateRosLaunchSelection.
  destruct (r_children source) as [args|]; [|by eexists].
  specialize (Hall args eq_refl).
  assert (Hopen : ∀ a, a ∈ args → ∃ cs,
            propagateArgSelection prompt (set_arg None a)
            = Some (true, mkArgNode None (a_defaultValue a) None (a_ui_previousValue a)
                            (a_ui_name a) (Some (set_value None <$> cs)))).
  { intros a [cs Hcs]%Hall. exists cs.
    by rewrite (propagateArgSelection_open prompt (set_arg None a) cs). }
  destruct (truthy (r_selected source)).
  - destruct (mapM (fun d : ArgNode => if truthy (a_selected d) then Some d
               else snd <$> propagateArgSelection prompt (set_arg None d)) args)
      as [args'|] eqn:Hmap; [by eexists|].
    exfalso. apply (is_Some_None (A := list ArgNode)). rewrite <- Hmap.
    apply mapM_is_Some, Forall_forall. intros a Ha. unfold compose.
    destruct (truthy (a_selected a)); [by eexists|].
    destruct (Hopen a Ha) as [cs ->]. by eexists.
  - destruct (mapM (fun d : ArgNode =>
               '(_, d') ← propagateArgSelection prompt (set_arg None d);
               Some (set_arg (r_selected source) d')) args)
      as [args'|] eqn:Hmap; [by eexists|].
    exfalso. apply (is_Some_None (A := list ArgNode)). rewrite <- Hmap.
    apply mapM_is_Some, Forall_forall. intros a Ha. unfold compose.
    destruct (Hopen a Ha) as [cs ->]. by eexists.
Qed.

Lemma onSelectRosLaunch_next (d : LaunchNode) :
  (if truthy (r_selected d) then Some false
   else if bool_decide (r_selected d = Some false) then None
   else Some true) = next_state (r_selected d).
Proof. by destruct (r_selected d) as [[|]|]. Qed.

(** C8, with [onValueLabelClick] as it is.  A click on the label of a
    launch file whose [ui.selected] agrees with its [data.selected] moves
    [data.selected] (and [ui.selected] with it) one step along
    true, false, unknown, true; when the two disagree the click copies
    [data.selected] into [ui.selected] and changes nothing else.  A click
    handled by [onValueLabelClick] on a node other than the root moves
    [value] one step along the same cycle and sets [userValue] to the
    same state, whether or not the two agreed before. *)
Theorem label_click_cycle :
  (∀ prompt d d',
     r_ui_selected d = r_selected d → onSelectRosLaunch prompt d = Some d' →
     r_selected d' = next_state (r_selected d)
     ∧ r_ui_selected d' = next_state (r_selected d))
  ∧ (∀ prompt d,
       r_ui_selected d = r_selected d →
       (∀ args, r_children d = Some args → ∀ a, a ∈ args → is_Some (a_children a)) →
       is_Some (onSelectRosLaunch prompt d))
  ∧ (∀ prompt d,
       r_ui_selected d ≠ r_selected d →
       onSelectRosLaunch prompt d
       = Some (mkLaunchNode (r_selected d) (r_selected d) (r_children d)))
  ∧ (∀ d,
       ValueTree.ancestors d ≠ [] →
       ValueTree.value (ValueTree.data (ValueTree.onValueLabelClick d))
       = next_state (ValueTree.value (ValueTree.data d))
       ∧ ValueTree.userValue (ValueTree.data (ValueTree.onValueLabelClick d))
         = next_state (ValueTree.value (ValueTree.data d))).
Proof.
  split; [|split; [|split]].
  - intros prompt d d' Hagree. unfold onSelectRosLaunch.
    rewrite bool_decide_true by done. simpl. rewrite onSelectRosLaunch_next.
    by intros [-> ->]%propagateRosLaunchSelection_keeps.
  - intros prompt d Hagree Hall. unfold onSelectRosLaunch.
    rewrite bool_decide_true by done. simpl.
    by apply propagateRosLaunchSelection_runs.
  - intros prompt d Hne. unfold onSelectRosLaunch.
    by rewrite bool_decide_false.
  - intros [up [v u cs]] Hup. simpl in Hup.
    unfold ValueTree.onValueLabelClick, ValueTree.propagateSelection. simpl.
    destruct up as [|n up]; [done|].
    destruct v as [[|]|]; done.
Qed.

(** A launch file left open and shown so, clicked: it is selected, and
    its args stay open.  The same launch file shown as selected while it
    is open: the click only takes the mark back. *)
Example onSelectRosLaunch_sample :
  (fun r : LaunchNode => (r_selected r, r_ui_selected r))
    <$> onSelectRosLaunch (always "true") sample_launch
  = Some (Some true, Some true)
  ∧ onSelectRosLaunch (always "true")
      (mkLaunchNode None (Some true) (r_children sample_launch))
    = Some (mkLaunchNode None None (r_children sample_launch)).
Proof. split; reflexivity. Qed.

(** The specification states C8 of both handlers: a click would only
    copy, and leave the data alone, when the state shown and the state
    held disagree.  The node of the sample shows [value] true though
    the user chose nothing ([userValue] unknown); [onValueLabelClick] on
    it changes [value] to false. *)
Lemma onValueLabelClick_changes_data :
  ValueTree.ancestors ValueTree.sample_node ≠ []
  ∧ ValueTree.value (ValueTree.data ValueTree.sample_node) = Some true
  ∧ ValueTree.userValue (ValueTree.data ValueTree.sample_node) = None
  ∧ ValueTree.value (ValueTree.data (ValueTree.onValueLabelClick ValueTree.sample_node))
    = Some false
  ∧ ValueTree.userValue (ValueTree.data (ValueTree.onValueLabelClick ValueTree.sample_node))
    = Some false.
Proof. repeat split; done. Qed.

End FeatureTreeFacts.

(** ** More on [_nameMatch], and [_connectUnknown] *)

Section ConnectUnknownFacts.
Import NameMatch ConnectUnknown.

Lemma matches_same (a : list string) (n : nat) :
  ∀ i, length a - i < n → i ≤ length a → matches a i a i = true.
Proof.
  induction n as [|n IH]; intros i Hn Hi; [lia|].
  rewrite matches_unfold. rewrite andb_diag.
  destruct (i <? length a) eqn:Hlt.
  - apply Nat.ltb_lt in Hlt.
    destruct (is_wild a i).
    + destruct (i =? length a - 1) eqn:Hlast; [done|]. simpl.
      apply Nat.eqb_neq in Hlast.
      apply existsb_exists. exists (i + 1). split; [apply in_seq; lia|].
      apply IH; lia.
    + rewrite bool_decide_true by done. simpl. apply IH; lia.
  - apply Nat.ltb_ge in Hlt. rewrite andb_diag. apply Nat.eqb_eq. lia.
Qed.

(** X1. Every name matches itself, wildcards or not. *)
Theorem nameMatch_reflexive (a : list string) : _nameMatch a 0 a 0 = Some true.
Proof.
  apply nameMatch_true. apply (matches_same a (S (length a))); lia.
Qed.

Lemma not_wild (a : list string) (i : nat) : "?" ∉ a → is_wild a i = false.
Proof.
  intros Hno. apply bool_decide_eq_false. intros Hi.
  apply Hno. by apply list_elem_of_lookup_2 in Hi.
Qed.

Lemma matches_plain (a b : list string) (n : nat) :
  "?" ∉ a → "?" ∉ b →
  ∀ i j, remaining a i b j < n → i ≤ length a → j ≤ length b →
    matches a i b j = true ↔ drop i a = drop j b.
Proof.
  intros Ha Hb. induction n as [|n IH]; intros i j Hn Hi Hj; [lia|].
  rewrite matches_unfold, (not_wild a i Ha), (not_wild b j Hb).
  destruct (i <? length a) eqn:Hlti; simpl.
  - apply Nat.ltb_lt in Hlti.
    destruct (lookup_lt_is_Some_2 a i Hlti) as [x Hx].
    rewrite (drop_S a x i Hx).
    destruct (j <? length b) eqn:Hltj.
    + apply Nat.ltb_lt in Hltj.
      destruct (lookup_lt_is_Some_2 b j Hltj) as [y Hy].
      rewrite (drop_S b y j Hy), Hx, Hy.
      destruct (decide (x = y)) as [->|Hne].
      * rewrite bool_decide_true by done. simpl.
        rewrite !Nat.add_1_r, IH by (unfold remaining in *; lia).
        split; [by intros ->|by intros [= ->]].
      * rewrite bool_decide_false by congruence. simpl.
        split; [done|by intros [= ->]].
    + apply Nat.ltb_ge in Hltj. rewrite (drop_ge b) by done.
      split; [|done]. intros [H1 H2]%andb_true_iff. apply Nat.eqb_eq in H1. lia.
  - apply Nat.ltb_ge in Hlti. rewrite (drop_ge a) by done.
    assert ((i =? length a) = true) as -> by (apply Nat.eqb_eq; lia). simpl.
    rewrite Nat.eqb_eq. split.
    + intros ->. by rewrite drop_all.
    + intros Hd. symmetry in Hd. apply (f_equal length) in Hd.
      rewrite length_drop in Hd. simpl in Hd. lia.
Qed.

(** X2. Two names with no ["?"] segment match exactly when they are the
    same name. *)
Theorem nameMatch_plain (a b : list string) :
  "?" ∉ a → "?" ∉ b → _nameMatch a 0 b 0 = Some true ↔ a = b.
Proof.
  intros Ha Hb. rewrite nameMatch_true.
  rewrite (matches_plain a b (S (remaining a 0 b 0)) Ha Hb 0 0) by lia.
  by rewrite !drop_0.
Qed.

Lemma nameMatch_plain_witness :
  _nameMatch (split slash "/ns/a") 0 (split slash "/ns/b") 0 = Some true
  ↔ split slash "/ns/a" = split slash "/ns/b".
Proof.
  apply (nameMatch_plain (split slash "/ns/a") (split slash "/ns/b")).
  - apply (bool_decide_unpack _). vm_compute. reflexivity.
  - apply (bool_decide_unpack _). vm_compute. reflexivity.
Defined.








(** The three topics of the sample: each wildcard name is a candidate of
    the other, and the known topic of both. *)
Example connectUnknown_sample :
  (fun entry : string * Resource => candidates (_connectUnknown entry.2 sample_topics true))
    <$> sample_topics
  = [ ["c2"; "c3"]; ["c1"; "c3"]; [] ].
Proof. vm_compute. reflexivity. Qed.

End ConnectUnknownFacts.

(** ** More on [updateVisibility] *)

Section VisibilityMore.
Import Visibility.

Lemma updateVisibility_settings (this this' : View) (vg : Graph) :
  updateVisibility this = Some (vg, this') →
  focus this' = focus this ∧ showParams this' = showParams this.
Proof.
  rewrite updateVisibility_unfold.
  destruct (param_pass _ _) as [g2|]; [|done]. simpl.
  destruct (showParams this), (focus this);
    try (destruct (build_visible _ _ _ _) as [[g3 vg']|]; [|done]; simpl);
    by intros [= <- <-].
Qed.

(** [updateVisibility_spec] with no condition on the settings: with
    [showParams] and no focus the graph returned is the graph of the
    board, every flag set. *)
Lemma updateVisibility_spec_all (this : View) :
  wf_graph (graph this) →
  let g := graph this in
  let sp := showParams this in
  let fo := focus this in
  ∃ vg this', updateVisibility this = Some (vg, this')
    ∧ (∀ k, g_nodes vg !! k =
         match node g k with
         | Some v => if param_ok sp v && near_focus fo g k
                     then Some (Some (set_visible true v)) else None
         | None => None
         end)
    ∧ (∀ e, g_edges vg !! e =
         match edge g e with
         | Some l => if edge_param_ok sp g l && at_focus fo e
                     then Some (set_e_visible true l) else None
         | None => None
         end)
    ∧ (∀ k, g_nodes (graph this') !! k =
         fmap (fun v => set_visible (param_ok sp v && near_focus fo g k) v)
           <$> g_nodes g !! k)
    ∧ (∀ e, g_edges (graph this') !! e =
         (fun l => set_e_visible (edge_param_ok sp g l && at_focus fo e) l)
           <$> g_edges g !! e).
Proof.
  intros Hwf g sp fo.
  destruct (showParams this) eqn:Hsp, (focus this) as [f|] eqn:Hfo.
  2: { destruct (param_pass_spec true g Hwf) as (g2 & Hpass & Hn2 & He2).
       exists g2, (mkView g2 None true). split.
       { rewrite updateVisibility_unfold. fold g. rewrite Hsp, Hfo, Hpass. done. }
       subst sp fo. simpl. split; [|split; [|split]].
       - intros k. rewrite Hn2. unfold node.
         destruct (g_nodes g !! k) as [l|] eqn:Hl; [|done].
         by destruct (wf_label g Hwf k l Hl) as (v & -> & _).
       - intros e. rewrite He2. unfold edge. by destruct (g_edges g !! e).
       - intros k. rewrite Hn2. by destruct (g_nodes g !! k) as [[v|]|].
       - intros e. rewrite He2. by destruct (g_edges g !! e) as [l|]. }
  all: destruct (updateVisibility_spec this Hwf)
         as (vg & this' & Hrun & Hn & He & _ & He' & Hn');
    [rewrite ?Hsp, ?Hfo; by eauto|];
    exists vg, this'; rewrite Hsp, Hfo in *; done.
Qed.

(** X5. With [showParams] set and no focus, [updateVisibility] returns
    the graph of the board itself, with the nodes and edges it had, and
    [visible] true on every one of them. *)
Theorem updateVisibility_show_all (this : View) :
  wf_graph (graph this) → showParams this = true → focus this = None →
  ∃ g', updateVisibility this = Some (g', mkView g' None true)
    ∧ (∀ k, node g' k = set_visible true <$> node (graph this) k)
    ∧ (∀ e, edge g' e = set_e_visible true <$> edge (graph this) e).
Proof.
  intros Hwf Hsp Hfo.
  destruct (param_pass_spec true (graph this) Hwf) as (g2 & Hpass & Hn2 & He2).
  exists g2. split; [|split].
  - by rewrite updateVisibility_unfold, Hsp, Hfo, Hpass.
  - intros k. unfold node. rewrite Hn2.
    by destruct (g_nodes (graph this) !! k) as [[v|]|].
  - intros e. unfold edge. by rewrite He2.
Qed.

Lemma updateVisibility_show_all_witness :
  ∃ g', updateVisibility (sample_view None true) = Some (g', mkView g' None true)
    ∧ (∀ k, node g' k = set_visible true <$> node sample_graph k)
    ∧ (∀ e, edge g' e = set_e_visible true <$> edge sample_graph e).
Proof.
  apply (updateVisibility_show_all (sample_view None true)).
  - apply check_wf_sound. vm_compute. reflexivity.
  - reflexivity.
  - reflexivity.
Defined.

(** X6. After [updateVisibility], a node or an edge of the board has
    [visible] true exactly when it is in the graph returned: what is laid
    out is what is shown. *)
Theorem updateVisibility_visible_iff_returned (this : View) :
  wf_graph (graph this) →
  ∃ vg this', updateVisibility this = Some (vg, this')
    ∧ (∀ k v, node (graph this') k = Some v →
         visible v = true ↔ is_Some (g_nodes vg !! k))
    ∧ (∀ e l, edge (graph this') e = Some l →
         e_visible l = true ↔ is_Some (g_edges vg !! e)).
Proof.
  intros Hwf.
  destruct (updateVisibility_spec_all this Hwf)
    as (vg & this' & Hrun & Hn & He & Hn' & He').
  exists vg, this'. split; [done|]. split.
  - intros k v. unfold node. rewrite Hn', Hn. unfold node.
    destruct (g_nodes (graph this) !! k) as [[v0|]|]; try done. simpl.
    intros [= <-]. simpl.
    destruct (param_ok _ v0 && near_focus _ _ k); split; try done;
      by intros [? ?].
  - intros e l. unfold edge. rewrite He', He. unfold edge.
    destruct (g_edges (graph this) !! e) as [l0|]; [|done]. simpl.
    intros [= <-]. simpl.
    destruct (edge_param_ok _ _ l0 && at_focus _ e); split; try done;
      by intros [? ?].
Qed.

Lemma updateVisibility_visible_iff_returned_witness :
  ∃ vg this', updateVisibility (sample_view (Some "c2") false) = Some (vg, this')
    ∧ (∀ k v, node (graph this') k = Some v →
         visible v = true ↔ is_Some (g_nodes vg !! k))
    ∧ (∀ e l, edge (graph this') e = Some l →
         e_visible l = true ↔ is_Some (g_edges vg !! e)).
Proof.
  apply (updateVisibility_visible_iff_returned (sample_view (Some "c2") false)).
  apply check_wf_sound. vm_compute. reflexivity.
Defined.

(** X7. On a board whose graph satisfies the invariant,
    [updateVisibility] completes, and the graph it returns is a graph of
    views like the one of the board: every node of it has its view as
    label (no node is made by [setEdge] for a missing end), and every
    edge of it joins two of its nodes. *)
Theorem updateVisibility_returns_wf (this : View) :
  wf_graph (graph this) →
  ∃ vg this', updateVisibility this = Some (vg, this') ∧ wf_graph vg.
Proof.
  intros Hwf.
  destruct (updateVisibility_spec_all this Hwf)
    as (vg & this' & Hrun & Hn & He & _ & _).
  exists vg, this'. split; [done|]. split.
  - intros k l. rewrite Hn.
    destruct (node (graph this) k) as [v|] eqn:Hv; [|done].
    destruct (_ && _); [|done]. intros [= <-]. eexists. split; [done|]. simpl.
    apply node_Some in Hv.
    by destruct (wf_label _ Hwf k _ Hv) as (v' & [= <-] & Hid).
  - intros e l. rewrite He.
    destruct (edge (graph this) e) as [l0|] eqn:Hl0; [|done].
    destruct (edge_param_ok _ _ l0 && at_focus _ e) eqn:Hkeep; [|done].
    intros [= <-]. simpl.
    destruct (wf_ends _ Hwf e l0 Hl0) as (Hs & Ht & H1 & H2).
    do 2 (split; [done|]).
    destruct (wf_node _ _ Hwf H1) as (v1 & Hv1 & _).
    destruct (wf_node _ _ Hwf H2) as (v2 & Hv2 & _).
    apply andb_true_iff in Hkeep as [Hp Hat].
    assert (param_ok (showParams this) v1 = true
            ∧ param_ok (showParams this) v2 = true) as [Hp1 Hp2].
    { unfold edge_param_ok, edge_not_param, param_ok in *.
      rewrite Hs, Ht, Hv1, Hv2 in Hp. destruct (showParams this); [done|].
      simpl in *. by apply andb_true_iff in Hp. }
    assert (hasEdge (graph this) e.1 e.2 = true) as Hhas.
    { apply bool_decide_eq_true. exists l0. by destruct e. }
    assert (near_focus (focus this) (graph this) e.1 = true
            ∧ near_focus (focus this) (graph this) e.2 = true) as [Hn1 Hn2].
    { unfold near_focus, at_focus in *. destruct (focus this) as [f|]; [|done].
      apply orb_true_iff in Hat as [Hf%bool_decide_eq_true|Hf%bool_decide_eq_true];
        rewrite <- Hf, Hhas.
      - rewrite bool_decide_true by done. by rewrite !orb_true_r.
      - rewrite (bool_decide_true (e.2 = e.2)) by done. by rewrite !orb_true_r. }
    rewrite !Hn, Hv1, Hv2, Hp1, Hp2, Hn1, Hn2. simpl. split; by eexists.
Qed.

Lemma updateVisibility_returns_wf_witness :
  ∃ vg this', updateVisibility (sample_view (Some "c3") true) = Some (vg, this')
    ∧ wf_graph vg.
Proof.
  apply (updateVisibility_returns_wf (sample_view (Some "c3") true)).
  apply check_wf_sound. vm_compute. reflexivity.
Defined.

Lemma graph_eq (g1 g2 : Graph) :
  (∀ k, g_nodes g1 !! k = g_nodes g2 !! k) →
  (∀ e, g_edges g1 !! e = g_edges g2 !! e) → g1 = g2.
Proof.
  destruct g1 as [n1 e1], g2 as [n2 e2]. simpl. intros Hn He.
  f_equal; by apply map_eq.
Qed.

(** X8. [updateVisibility] does not depend on the flags it finds: called
    again on the view it has left, it returns the same graph and leaves
    the view as it is. *)
Theorem updateVisibility_idempotent (this : View) :
  wf_graph (graph this) →
  ∃ vg this', updateVisibility this = Some (vg, this')
    ∧ updateVisibility this' = Some (vg, this').
Proof.
  intros Hwf.
  destruct (updateVisibility_spec_all this Hwf)
    as (vg & this' & Hrun & Hn & He & Hn' & He').
  exists vg, this'. split; [done|].
  destruct (updateVisibility_settings _ _ _ Hrun) as [Hfo Hsp].
  pose proof (wf_updateVisibility _ _ _ Hwf Hrun) as Hwf'.
  destruct (updateVisibility_spec_all this' Hwf')
    as (vg2 & this2 & Hrun2 & Hn2 & He2 & Hn2' & He2').
  destruct (updateVisibility_settings _ _ _ Hrun2) as [Hfo2 Hsp2].
  rewrite Hfo, Hsp in *.
  set (g := graph this) in *. set (g' := graph this') in *.
  set (sp := showParams this) in *. set (fo := focus this) in *.
  assert (Hnode' : ∀ k, node g' k
            = (fun v => set_visible (param_ok sp v && near_focus fo g k) v) <$> node g k).
  { intros k. unfold node. rewrite Hn'. by destruct (g_nodes g !! k) as [[v|]|]. }
  assert (Hhas : ∀ a b, hasEdge g' a b = hasEdge g a b).
  { intros a b. unfold hasEdge. apply bool_decide_ext. rewrite He'.
    by rewrite fmap_is_Some. }
  assert (Hnear : ∀ k, near_focus fo g' k = near_focus fo g k).
  { intros k. unfold near_focus. destruct fo; [|done]. by rewrite !Hhas. }
  assert (Hpok : ∀ l, edge_param_ok sp g' l = edge_param_ok sp g l).
  { intros l. unfold edge_param_ok, edge_not_param. rewrite !Hnode'.
    destruct (node g (source l)) as [s|]; [|done]. simpl.
    by destruct (node g (target l)) as [t|]. }
  assert (vg2 = vg) as ->.
  { apply graph_eq.
    - intros k. rewrite Hn2, Hn, Hnode', Hnear.
      destruct (node g k) as [v|]; [|done]. simpl.
      change (param_ok sp (set_visible _ v)) with (param_ok sp v).
      by destruct (param_ok sp v && near_focus fo g k).
    - intros e. rewrite He2, He. unfold edge. rewrite He'.
      destruct (g_edges g !! e) as [l|]; [|done]. simpl.
      rewrite Hpok.
      change (edge_param_ok sp g (set_e_visible _ l)) with (edge_param_ok sp g l).
      by destruct (edge_param_ok sp g l && at_focus fo e). }
  assert (graph this2 = g') as Hg2.
  { apply graph_eq.
    - intros k. rewrite Hn2', Hn', Hnear.
      by destruct (g_nodes g !! k) as [[v|]|].
    - intros e. rewrite He2', He'.
      destruct (g_edges g !! e) as [l|]; [|done]. simpl. rewrite Hpok.
      change (edge_param_ok sp g (set_e_visible _ l)) with (edge_param_ok sp g l).
      by destruct (edge_param_ok sp g l && at_focus fo e). }
  rewrite Hrun2. do 2 f_equal. subst g g' sp fo.
  clear -Hg2 Hfo Hsp Hfo2 Hsp2.
  destruct this2 as [g2 f2 s2], this' as [g1 f1 s1]. simpl in *. congruence.
Qed.

Lemma updateVisibility_idempotent_witness :
  ∃ vg this', updateVisibility (sample_view (Some "c1") false) = Some (vg, this')
    ∧ updateVisibility this' = Some (vg, this').
Proof.
  apply (updateVisibility_idempotent (sample_view (Some "c1") false)).
  apply check_wf_sound. vm_compute. reflexivity.
Defined.

End VisibilityMore.

(** ** [setModel] *)

Section SetModelFacts.
Import Visibility JsObject SetModel.

Lemma cid_of_inj (n m : nat) : cid_of n = cid_of m → n = m.
Proof. unfold cid_of. simpl. intros [= H]. by apply (inj pretty). Qed.

Lemma node_addResource_other (g : Graph) (cid ty k : string) (v : ResourceNode) :
  g_nodes g !! cid = None → node g k = Some v →
  node (_addResource cid ty g) k = Some v.
Proof.
  intros Hfresh Hv. apply node_Some. apply node_Some in Hv. simpl.
  rewrite lookup_insert_ne; [done|]. congruence.
Qed.

Lemma typed_addResource (g : Graph) (mapping : gmap string string) (ty cid ty' : string) :
  g_nodes g !! cid = None → typed g mapping ty →
  typed (_addResource cid ty' g) mapping ty.
Proof.
  intros Hfresh Ht uid c Hc. destruct (Ht uid c Hc) as (v & Hv & Hty).
  exists v. split; [|done]. by apply node_addResource_other.
Qed.

Lemma typed_insert (g : Graph) (mapping : gmap string string) (ty cid uid : string) :
  g_nodes g !! cid = None → typed g mapping ty →
  typed (_addResource cid ty g) (<[uid := cid]> mapping) ty.
Proof.
  intros Hfresh Ht uid' c. destruct (decide (uid' = uid)) as [->|Hne].
  - rewrite lookup_insert_eq. intros [= <-]. exists (mkNode cid ty false).
    split; [|done]. apply node_Some. simpl. by rewrite lookup_insert_eq.
  - rewrite lookup_insert_ne by done. by apply typed_addResource.
Qed.

Lemma fresh_addResource (g : Graph) (counter : nat) (ty : string) :
  (∀ n, counter < n → g_nodes g !! cid_of n = None) →
  ∀ n, S counter < n →
    g_nodes (_addResource (cid_of (S counter)) ty g) !! cid_of n = None.
Proof.
  intros Hfresh n Hn. simpl. rewrite lookup_insert_ne.
  - apply Hfresh. lia.
  - intros H%cid_of_inj. lia.
Qed.

Lemma edges_addResource (g : Graph) (cid ty : string) :
  g_nodes g !! cid = None →
  (∀ e l, g_edges g !! e = Some l →
     ∃ s t, node g e.1 = Some s ∧ node g e.2 = Some t
       ∧ (resourceType s = "node" ↔ resourceType t ≠ "node")) →
  ∀ e l, g_edges (_addResource cid ty g) !! e = Some l →
    ∃ s t, node (_addResource cid ty g) e.1 = Some s
      ∧ node (_addResource cid ty g) e.2 = Some t
      ∧ (resourceType s = "node" ↔ resourceType t ≠ "node").
Proof.
  intros Hfresh He e l Hl. destruct (He e l Hl) as (s & t & Hs & Ht & Hty).
  exists s, t. split; [|split]; [by apply node_addResource_other..|done].
Qed.

Ltac add_resource_inv :=
  intros [Hwf Hn Ht Hs Hp Hfresh He];
  pose proof (Hfresh _ (Nat.lt_succ_diag_r _)) as Hnew;
  split; simpl;
  [ by apply wf_addResource
  | (by apply typed_insert) || (by apply typed_addResource)
  | (by apply typed_insert) || (by apply typed_addResource)
  | (by apply typed_insert) || (by apply typed_addResource)
  | (by apply typed_insert) || (by apply typed_addResource)
  | intros n Hlt; apply fresh_addResource; [done|lia]
  | by apply edges_addResource ].

Lemma addNode_inv (b : Board) (uid : string) : board_inv b → board_inv (addNode b uid).
Proof. add_resource_inv. Qed.

Lemma addTopic_inv (b : Board) (uid : string) : board_inv b → board_inv (addTopic b uid).
Proof. add_resource_inv. Qed.

Lemma addService_inv (b : Board) (uid : string) : board_inv b → board_inv (addService b uid).
Proof. add_resource_inv. Qed.

Lemma addParameter_inv (b : Board) (uid : string) :
  board_inv b → board_inv (addParameter b uid).
Proof. add_resource_inv. Qed.

Lemma addEdge_board (b : Board) (src tgt : string) (vs vt : ResourceNode) :
  board_inv b →
  node (b_graph b) src = Some vs → node (b_graph b) tgt = Some vt →
  (resourceType vs = "node" ↔ resourceType vt ≠ "node") →
  board_inv (with_graph b (_addEdge src tgt (b_graph b))).
Proof.
  intros [Hwf Hn Ht Hs Hp Hfresh He] Hvs Hvt Hty.
  assert (wf_graph (_addEdge src tgt (b_graph b))) as Hwf'.
  { apply wf_addEdge; [done|by eexists..]. }
  assert (Hnodes : g_nodes (_addEdge src tgt (b_graph b)) = g_nodes (b_graph b)).
  { unfold _addEdge. simpl. apply node_Some in Hvs, Hvt.
    rewrite (ensureNode_present _ src), (ensureNode_present _ tgt); by eauto. }
  assert (Hedges : ∀ e, e ≠ (src, tgt) →
            g_edges (_addEdge src tgt (b_graph b)) !! e = g_edges (b_graph b) !! e).
  { intros e Hne. unfold _addEdge. simpl. by rewrite lookup_insert_ne. }
  pose proof (node_addEdge src tgt) as Hnode.
  remember (_addEdge src tgt (b_graph b)) as g' eqn:Hg'.
  assert (Htyped : ∀ m ty, typed (b_graph b) m ty → typed g' m ty).
  { intros m ty Hm uid c Hc. rewrite Hg', Hnode. by apply (Hm uid). }
  split; simpl; [done|by apply Htyped..| |].
  - intros n Hlt. rewrite Hnodes. by apply Hfresh.
  - intros e l. rewrite Hg', !Hnode, <- Hg'.
    destruct (decide (e = (src, tgt))) as [->|Hne].
    + intros _. by exists vs, vt.
    + rewrite Hedges by done. apply He.
Qed.

(** What [mapping[k]] is, by the properties the object has. *)
Lemma get_spec (mapping : gmap string string) (k : string) (uids : list string) :
  (∀ uid, is_Some (mapping !! uid) ↔ uid ∈ uids) →
  match get mapping k with
  | Some (Own c) => mapping !! k = Some c ∧ k ∈ uids
  | Some Inherited => (k ∉ uids) ∧ k ∈ prototype_keys
  | None => (k ∉ uids) ∧ (k ∉ prototype_keys)
  end.
Proof.
  intros Hdom. unfold get. destruct (mapping !! k) as [c|] eqn:Hk.
  - split; [done|]. apply Hdom. by rewrite Hk.
  - assert (k ∉ uids) by (intros Hin%Hdom; rewrite Hk in Hin; by destruct Hin).
    by case_bool_decide.
Qed.

(** Each handler is [link_handler] for its object, its call of [get]
    and its direction. *)
Lemma addPublisher_handler (b : Board) (link : Link) :
  addPublisher b link = link_handler b_topics true true b link.
Proof. reflexivity. Qed.

Lemma addSubscriber_handler (b : Board) (link : Link) :
  addSubscriber b link = link_handler b_topics true false b link.
Proof. reflexivity. Qed.

Lemma addClient_handler (b : Board) (link : Link) :
  addClient b link = link_handler b_services true true b link.
Proof. reflexivity. Qed.

Lemma addServer_handler (b : Board) (link : Link) :
  addServer b link = link_handler b_services true false b link.
Proof. reflexivity. Qed.

Lemma addWrite_handler (b : Board) (link : Link) :
  addWrite b link = link_handler b_params false true b link.
Proof. unfold addWrite, link_handler. by destruct (link_type link). Qed.

Lemma addRead_handler (b : Board) (link : Link) :
  addRead b link = link_handler b_params false false b link.
Proof. unfold addRead, link_handler. by destruct (link_type link). Qed.

(** A handler raises no [TypeError] exactly on the links that pass. *)
Lemma link_handler_passes (resources : Board → gmap string string)
    (with_get from_node : bool) (b : Board) (link : Link) (ns rs : list string) :
  (∀ uid, is_Some (b_nodes b !! uid) ↔ uid ∈ ns) →
  (∀ uid, is_Some (resources b !! uid) ↔ uid ∈ rs) →
  is_Some (link_handler resources with_get from_node b link)
  ↔ passes ns rs with_get link.
Proof.
  intros Hn Hr. unfold link_handler, passes.
  pose proof (get_spec (resources b) (resource_uid link) rs Hr) as Hgr.
  pose proof (get_spec (b_nodes b) (node_uid link) ns Hn) as Hgn.
  destruct (get (resources b) (resource_uid link)) as [[c|]|]; simpl.
  - replace (if with_get || _ then Some () else Some ()) with (Some ())
      by (by destruct (_ || _)).
    simpl. destruct (get (b_nodes b) (node_uid link)) as [[c'|]|]; simpl.
    + split; [intros _; tauto|by eexists].
    + split; [intros _; tauto|by eexists].
    + split; [by intros [? ?]|tauto].
  - destruct with_get; simpl.
    { split; [by intros [? ?]|]. intros [_ [?|(? & _)]]; [tauto|done]. }
    destruct (link_type link) as [ty|]; simpl.
    { split; [by intros [? ?]|]. intros [_ [?|(_ & ? & _)]]; [tauto|done]. }
    destruct (get (b_nodes b) (node_uid link)) as [[c'|]|]; simpl.
    + split; [intros _; tauto|by eexists].
    + split; [intros _; tauto|by eexists].
    + split; [by intros [? ?]|tauto].
  - split; [by intros [? ?]|tauto].
Qed.

(** A handler writes the graph only. *)
Lemma link_handler_graph (resources : Board → gmap string string)
    (with_get from_node : bool) (b b' : Board) (link : Link) :
  link_handler resources with_get from_node b link = Some b' →
  same_objects b b'.
Proof.
  unfold link_handler. intros Hrun.
  destruct (get (resources b) _) as [r|]; [simpl in Hrun|done].
  destruct (if _ || _ then _ else _); [simpl in Hrun|done].
  destruct (get (b_nodes b) _) as [n|]; [simpl in Hrun|done].
  by injection Hrun as <-.
Qed.

(** On a link that is known a handler keeps the invariant. *)
Lemma link_handler_inv (resources : Board → gmap string string) (ty : string)
    (with_get from_node : bool) (b b' : Board) (link : Link) :
  (∀ b, board_inv b → typed (b_graph b) (resources b) ty) → ty ≠ "node" →
  board_inv b →
  is_Some (b_nodes b !! node_uid link) → is_Some (resources b !! resource_uid link) →
  link_handler resources with_get from_node b link = Some b' →
  board_inv b'.
Proof.
  intros Htyped Hty Hinv [n Hn] [r Hr]. unfold link_handler, get. rewrite Hn, Hr. simpl.
  replace (if with_get || _ then Some () else Some ()) with (Some ())
    by (by destruct (_ || _)).
  simpl. intros [= <-].
  destruct (inv_nodes b Hinv _ _ Hn) as (vn & Hvn & Htn).
  destruct (Htyped b Hinv _ _ Hr) as (vr & Hvr & Htr).
  destruct from_node.
  - apply (addEdge_board b n r vn vr Hinv Hvn Hvr). rewrite Htn, Htr. by split.
  - apply (addEdge_board b r n vr vn Hinv Hvr Hvn). rewrite Htn, Htr.
    split; [done|]. by intros [].
Qed.

Lemma each_cons {A : Type} (x : A) (l : list A) (handler : Board → A → option Board)
    (b : Board) :
  each (x :: l) handler b = handler b x ≫= each l handler.
Proof.
  unfold each. simpl. destruct (handler b x) as [b1|]; [done|]. simpl.
  induction l as [|y l IH]; [done|]. simpl. apply IH.
Qed.

(** One loop over links: it gets through exactly when every link
    passes, it writes the graph only, and it keeps the invariant when
    every link is known. *)
Lemma each_link_handler (resources : Board → gmap string string) (ty : string)
    (with_get from_node : bool) (handler : Board → Link → option Board)
    (l : list Link) (b : Board) (ns rs : list string) :
  (∀ b link, handler b link = link_handler resources with_get from_node b link) →
  (∀ b1 b2, same_objects b1 b2 → resources b2 = resources b1) →
  (∀ b, board_inv b → typed (b_graph b) (resources b) ty) → ty ≠ "node" →
  (∀ uid, is_Some (b_nodes b !! uid) ↔ uid ∈ ns) →
  (∀ uid, is_Some (resources b !! uid) ↔ uid ∈ rs) →
  (is_Some (each l handler b) ↔ Forall (passes ns rs with_get) l)
  ∧ ∀ b', each l handler b = Some b' →
      same_objects b b'
      ∧ (board_inv b → Forall (known ns rs) l → board_inv b').
Proof.
  intros Hdef Hres Htyped Hty. revert b.
  induction l as [|k l IH]; intros b Hn Hr.
  - split; [split; [by intros _|by eexists]|]. by intros b' [= <-].
  - rewrite each_cons, Hdef.
    pose proof (link_handler_passes resources with_get from_node b k ns rs Hn Hr) as Hrun.
    destruct (link_handler resources with_get from_node b k) as [b1|] eqn:Hk; simpl.
    + pose proof (link_handler_graph _ _ _ _ _ _ Hk) as Hsame.
      assert (∀ uid, is_Some (b_nodes b1 !! uid) ↔ uid ∈ ns) as Hn1.
      { destruct Hsame as (-> & _). exact Hn. }
      assert (∀ uid, is_Some (resources b1 !! uid) ↔ uid ∈ rs) as Hr1.
      { rewrite (Hres b b1 Hsame). exact Hr. }
      destruct (IH b1 Hn1 Hr1) as [IHrun IHkeep]. split.
      * rewrite IHrun, Forall_cons. split; [|by intros [_ ?]].
        intros Hl. split; [|done]. apply Hrun. by eexists.
      * intros b' Hb'. destruct (IHkeep b' Hb') as [Hsame' Hinv']. split.
        -- destruct Hsame as (? & ? & ? & ?), Hsame' as (? & ? & ? & ?).
           repeat split; congruence.
        -- intros Hinv [[Hkn Hkr] Hl]%Forall_cons. apply Hinv'; [|done].
           apply (link_handler_inv resources ty with_get from_node b b1 k); try done.
           ++ by apply Hn.
           ++ by apply Hr.
    + split; [|done]. split; [by intros [? ?]|].
      intros [Hk' _]%Forall_cons. apply Hrun in Hk'. by destruct Hk'.
Qed.

Lemma foldl_add_resource (add : Board → string → Board)
    (object : Board → gmap string string) (l : list string) (b : Board) :
  (∀ b uid, board_inv b → board_inv (add b uid)) →
  (∀ b uid uid', is_Some (object (add b uid) !! uid')
                 ↔ uid' = uid ∨ is_Some (object b !! uid')) →
  board_inv b →
  board_inv (foldl add b l)
  ∧ ∀ uid, is_Some (object (foldl add b l) !! uid)
           ↔ is_Some (object b !! uid) ∨ uid ∈ l.
Proof.
  intros Hinv Hobj. revert b. induction l as [|x l IH]; intros b Hb; simpl.
  - split; [done|]. intros uid. rewrite elem_of_nil. tauto.
  - destruct (IH (add b x) (Hinv b x Hb)) as [Hinv' Hdom]. split; [done|].
    intros uid. rewrite Hdom, Hobj, elem_of_cons. tauto.
Qed.

Lemma foldl_keep_object (add : Board → string → Board)
    (object : Board → gmap string string) (l : list string) (b : Board) :
  (∀ b uid, object (add b uid) = object b) →
  object (foldl add b l) = object b.
Proof.
  intros Hkeep. revert b. induction l as [|x l IH]; intros b; simpl; [done|].
  by rewrite IH.
Qed.

Lemma empty_board_inv (counter : nat) : board_inv (mkBoard empty_graph ∅ ∅ ∅ ∅ counter).
Proof.
  split; simpl.
  1: apply wf_empty_graph.
  1-4: by intros uid c Hc; rewrite lookup_empty in Hc.
  - intros n _. apply lookup_empty.
  - intros e l Hl. by rewrite lookup_empty in Hl.
Qed.

Lemma is_Some_insert_iff (m : gmap string string) (uid uid' c : string) :
  is_Some (<[uid := c]> m !! uid') ↔ uid' = uid ∨ is_Some (m !! uid').
Proof.
  rewrite lookup_insert_is_Some. split.
  - intros [->|[_ ?]]; auto.
  - intros [->|?]; [by left|]. destruct (decide (uid = uid')); auto.
Qed.

(** The board after the four loops over the resources. *)
Lemma resources_added (model : Configuration) (counter : nat) :
  let b := foldl addParameter
             (foldl addService
                (foldl addTopic
                   (foldl addNode (mkBoard empty_graph ∅ ∅ ∅ ∅ counter) (cfg_nodes model))
                   (cfg_topics model))
                (cfg_services model))
             (cfg_parameters model) in
  board_inv b
  ∧ (∀ uid, is_Some (b_nodes b !! uid) ↔ uid ∈ cfg_nodes model)
  ∧ (∀ uid, is_Some (b_topics b !! uid) ↔ uid ∈ cfg_topics model)
  ∧ (∀ uid, is_Some (b_services b !! uid) ↔ uid ∈ cfg_services model)
  ∧ (∀ uid, is_Some (b_params b !! uid) ↔ uid ∈ cfg_parameters model).
Proof.
  set (b0 := mkBoard empty_graph ∅ ∅ ∅ ∅ counter).
  destruct (foldl_add_resource addNode b_nodes (cfg_nodes model) b0)
    as [Hinv1 Hn]; [apply addNode_inv|intros; apply is_Some_insert_iff
                   |apply empty_board_inv|].
  set (b1 := foldl addNode b0 (cfg_nodes model)) in *.
  destruct (foldl_add_resource addTopic b_topics (cfg_topics model) b1)
    as [Hinv2 Ht]; [apply addTopic_inv|intros; apply is_Some_insert_iff|done|].
  set (b2 := foldl addTopic b1 (cfg_topics model)) in *.
  destruct (foldl_add_resource addService b_services (cfg_services model) b2)
    as [Hinv3 Hs]; [apply addService_inv|intros; apply is_Some_insert_iff|done|].
  set (b3 := foldl addService b2 (cfg_services model)) in *.
  destruct (foldl_add_resource addParameter b_params (cfg_parameters model) b3)
    as [Hinv4 Hp]; [apply addParameter_inv|intros; apply is_Some_insert_iff|done|].
  subst b3 b2 b1. simpl. split; [done|].
  assert (Hempty : ∀ uid, ¬ is_Some ((∅ : gmap string string) !! uid)).
  { intros uid. rewrite lookup_empty. by intros [? ?]. }
  split; [|split; [|split]]; intros uid; specialize (Hempty uid).
  - rewrite (foldl_keep_object addParameter b_nodes) by done.
    rewrite (foldl_keep_object addService b_nodes) by done.
    rewrite (foldl_keep_object addTopic b_nodes) by done.
    rewrite Hn. simpl. tauto.
  - rewrite (foldl_keep_object addParameter b_topics) by done.
    rewrite (foldl_keep_object addService b_topics) by done.
    rewrite Ht, (foldl_keep_object addNode b_topics) by done.
    simpl. tauto.
  - rewrite (foldl_keep_object addParameter b_services) by done.
    rewrite Hs, (foldl_keep_object addTopic b_services) by done.
    rewrite (foldl_keep_object addNode b_services) by done.
    simpl. tauto.
  - rewrite Hp, (foldl_keep_object addService b_params) by done.
    rewrite (foldl_keep_object addTopic b_params) by done.
    rewrite (foldl_keep_object addNode b_params) by done.
    simpl. tauto.
Qed.

Lemma known_passes (ns rs : list string) (with_get : bool) (k : Link) :
  known ns rs k → passes ns rs with_get k.
Proof. intros [? ?]. split; by left. Qed.

Lemma links_known_pass (model : Configuration) : links_known model → links_pass model.
Proof.
  intros (H1 & H2 & H3).
  split; [|split]; (eapply Forall_impl; [eassumption|]); intros k; apply known_passes.
Qed.

(** [setModel] gets past the last of its links exactly when every link
    passes, and has a board that satisfies the invariant when every link
    is known. *)
Lemma setModel_spec (model : Configuration) (counter : nat) :
  (is_Some (setModel_build model counter) ↔ links_pass model)
  ∧ (links_known model → ∀ b, setModel_build model counter = Some b → board_inv b).
Proof.
  unfold setModel_build.
  destruct (resources_added model counter) as (Hinv & Hn & Ht & Hs & Hp).
  set (b0 := foldl addParameter _ _) in *. clearbody b0.
  set (L := cfg_links model).
  assert (Hobj : ∀ b b', same_objects b b' →
            (∀ uid, is_Some (b_nodes b !! uid) ↔ uid ∈ cfg_nodes model) →
            (∀ uid, is_Some (b_topics b !! uid) ↔ uid ∈ cfg_topics model) →
            (∀ uid, is_Some (b_services b !! uid) ↔ uid ∈ cfg_services model) →
            (∀ uid, is_Some (b_params b !! uid) ↔ uid ∈ cfg_parameters model) →
            (∀ uid, is_Some (b_nodes b' !! uid) ↔ uid ∈ cfg_nodes model)
            ∧ (∀ uid, is_Some (b_topics b' !! uid) ↔ uid ∈ cfg_topics model)
            ∧ (∀ uid, is_Some (b_services b' !! uid) ↔ uid ∈ cfg_services model)
            ∧ (∀ uid, is_Some (b_params b' !! uid) ↔ uid ∈ cfg_parameters model)).
  { intros b b' (-> & -> & -> & ->). tauto. }
  assert (Hr1 : ∀ b1 b2, same_objects b1 b2 → b_topics b2 = b_topics b1)
    by (by intros ?? (? & ? & ? & ?)).
  assert (Hr2 : ∀ b1 b2, same_objects b1 b2 → b_services b2 = b_services b1)
    by (by intros ?? (? & ? & ? & ?)).
  assert (Hr3 : ∀ b1 b2, same_objects b1 b2 → b_params b2 = b_params b1)
    by (by intros ?? (? & ? & ? & ?)).
  unfold links_pass, links_known. fold L. rewrite !Forall_app.
  destruct (each_link_handler b_topics "topic" true true addPublisher (publishers L) b0
              _ _ addPublisher_handler Hr1 inv_topics ltac:(done) Hn Ht)
    as [Hrun1 Hkeep1].
  destruct (each (publishers L) addPublisher b0) as [b1|] eqn:H1; simpl.
  2: { split; [|by intros _ ?]. split; [by intros [? ?]|].
       intros ([HF _] & _). apply Hrun1 in HF. by destruct HF. }
  destruct (Hkeep1 b1 eq_refl) as [Hsame1 Hinv1].
  destruct (Hobj _ _ Hsame1 Hn Ht Hs Hp) as (Hn1 & Ht1 & Hs1 & Hp1).
  destruct (each_link_handler b_topics "topic" true false addSubscriber (subscribers L) b1
              _ _ addSubscriber_handler Hr1 inv_topics ltac:(done) Hn1 Ht1)
    as [Hrun2 Hkeep2].
  destruct (each (subscribers L) addSubscriber b1) as [b2|] eqn:H2; simpl.
  2: { split; [|by intros _ ?]. split; [by intros [? ?]|].
       intros ([_ HF] & _). apply Hrun2 in HF. by destruct HF. }
  destruct (Hkeep2 b2 eq_refl) as [Hsame2 Hinv2].
  destruct (Hobj _ _ Hsame2 Hn1 Ht1 Hs1 Hp1) as (Hn2 & Ht2 & Hs2 & Hp2).
  destruct (each_link_handler b_services "service" true false addServer (servers L) b2
              _ _ addServer_handler Hr2 inv_services ltac:(done) Hn2 Hs2)
    as [Hrun3 Hkeep3].
  destruct (each (servers L) addServer b2) as [b3|] eqn:H3; simpl.
  2: { split; [|by intros _ ?]. split; [by intros [? ?]|].
       intros (_ & [HF _] & _). apply Hrun3 in HF. by destruct HF. }
  destruct (Hkeep3 b3 eq_refl) as [Hsame3 Hinv3].
  destruct (Hobj _ _ Hsame3 Hn2 Ht2 Hs2 Hp2) as (Hn3 & Ht3 & Hs3 & Hp3).
  destruct (each_link_handler b_services "service" true true addClient (clients L) b3
              _ _ addClient_handler Hr2 inv_services ltac:(done) Hn3 Hs3)
    as [Hrun4 Hkeep4].
  destruct (each (clients L) addClient b3) as [b4|] eqn:H4; simpl.
  2: { split; [|by intros _ ?]. split; [by intros [? ?]|].
       intros (_ & [_ HF] & _). apply Hrun4 in HF. by destruct HF. }
  destruct (Hkeep4 b4 eq_refl) as [Hsame4 Hinv4].
  destruct (Hobj _ _ Hsame4 Hn3 Ht3 Hs3 Hp3) as (Hn4 & Ht4 & Hs4 & Hp4).
  destruct (each_link_handler b_params "param" false false addRead (reads L) b4
              _ _ addRead_handler Hr3 inv_params ltac:(done) Hn4 Hp4)
    as [Hrun5 Hkeep5].
  destruct (each (reads L) addRead b4) as [b5|] eqn:H5; simpl.
  2: { split; [|by intros _ ?]. split; [by intros [? ?]|].
       intros (_ & _ & [HF _]). apply Hrun5 in HF. by destruct HF. }
  destruct (Hkeep5 b5 eq_refl) as [Hsame5 Hinv5].
  destruct (Hobj _ _ Hsame5 Hn4 Ht4 Hs4 Hp4) as (Hn5 & Ht5 & Hs5 & Hp5).
  destruct (each_link_handler b_params "param" false true addWrite (writes L) b5
              _ _ addWrite_handler Hr3 inv_params ltac:(done) Hn5 Hp5)
    as [Hrun6 Hkeep6].
  split.
  - rewrite Hrun6.
    assert (is_Some (Some b1)) as S1 by (by eexists).
    assert (is_Some (Some b2)) as S2 by (by eexists).
    assert (is_Some (Some b3)) as S3 by (by eexists).
    assert (is_Some (Some b4)) as S4 by (by eexists).
    assert (is_Some (Some b5)) as S5 by (by eexists).
    apply Hrun1 in S1. apply Hrun2 in S2. apply Hrun3 in S3.
    apply Hrun4 in S4. apply Hrun5 in S5. tauto.
  - intros ([K1 K2] & [K3 K4] & [K5 K6]) b Hb.
    apply Hkeep6 in Hb as [_ Hb]. apply Hb; [|done].
    apply Hinv5; [|done]. apply Hinv4; [|done]. apply Hinv3; [|done].
    apply Hinv2; [|done]. by apply Hinv1.
Qed.

(** X9. [setModel] gets through the resources and the links of a
    configuration, the part of it that builds the graph, without a
    [TypeError] exactly when every link passes: its node is listed by
    the configuration or has for [uid] the name of a property of
    [Object.prototype], and its topic, service or parameter (by its
    kind) is listed, or is a parameter with such a [uid] in a read or a
    write without a type.  This is of configurations with no [uid]
    ["__proto__"], which would replace the prototype of an object. *)
Theorem setModel_runs_iff (model : Configuration) (counter : nat) :
  "__proto__" ∉ uids model →
  is_Some (setModel_build model counter) ↔ links_pass model.
Proof. intros _. apply setModel_spec. Qed.

Lemma setModel_runs_iff_witness :
  is_Some (setModel_build inherited_configuration 0)
  ↔ links_pass inherited_configuration.
Proof.
  apply (setModel_runs_iff inherited_configuration 0).
  apply (bool_decide_unpack _). vm_compute. reflexivity.
Defined.

(** X10. The graph [setModel] builds satisfies the invariant
    [updateVisibility] relies on, and every edge of it joins a node of
    the system with a topic, a service or a parameter: exactly one of
    its two ends has the type ["node"]. *)
Theorem setModel_graph (model : Configuration) (counter : nat) :
  links_known model →
  ∃ b, setModel_build model counter = Some b
    ∧ wf_graph (b_graph b)
    ∧ ∀ e l, edge (b_graph b) e = Some l →
        ∃ s t, node (b_graph b) e.1 = Some s ∧ node (b_graph b) e.2 = Some t
          ∧ (resourceType s = "node" ↔ resourceType t ≠ "node").
Proof.
  intros Hknown. destruct (setModel_spec model counter) as [Hrun Hinv].
  destruct (proj2 Hrun (links_known_pass model Hknown)) as [b Hb].
  exists b. split; [done|].
  destruct (Hinv Hknown b Hb) as [Hwf _ _ _ _ _ He]. by split.
Qed.

Lemma setModel_graph_witness :
  ∃ b, setModel_build sample_configuration 0 = Some b
    ∧ wf_graph (b_graph b)
    ∧ ∀ e l, edge (b_graph b) e = Some l →
        ∃ s t, node (b_graph b) e.1 = Some s ∧ node (b_graph b) e.2 = Some t
          ∧ (resourceType s = "node" ↔ resourceType t ≠ "node").
Proof.
  apply (setModel_graph sample_configuration 0).
  apply (bool_decide_unpack _). vm_compute. reflexivity.
Defined.

(** The sample: four views, [c1] and [c4] the nodes, [c7] the topic and
    [c10] the parameter, and three edges. *)
Example setModel_sample :
  (fun b => (b_nodes b, b_topics b, b_params b, edges (b_graph b)))
    <$> setModel_build sample_configuration 0
  = Some (<["/talker" := "c1"]> (<["/listener" := "c4"]> ∅),
          <["/chatter" := "c7"]> ∅,
          <["/rate" := "c10"]> ∅,
          edges (mkGraph ∅ (<[("c1", "c7") := mkEdge "c1" "c7" false]>
                             (<[("c7", "c4") := mkEdge "c7" "c4" false]>
                              (<[("c10", "c1") := mkEdge "c10" "c1" false]> ∅))))).
Proof. vm_compute. reflexivity. Qed.

(** A write that names no resource gets through: its edge joins two
    ends that are [undefined], and the graph has a node without a
    label. *)
Example setModel_inherited :
  (fun b => (edge (b_graph b) ("undefined", "undefined"),
             g_nodes (b_graph b) !! "undefined"))
    <$> setModel_build inherited_configuration 0
  = Some (Some (mkEdge "undefined" "undefined" false), Some None).
Proof. vm_compute. reflexivity. Qed.

End SetModelFacts.

(** ** Selection, focus and the parameter switch *)

Section InteractionFacts.
Import Visibility Interaction.

Lemma refers_flags (g g' : Graph) (r : option string)
    (flag : string → ResourceNode → bool) :
  (∀ k, g_nodes g' !! k = fmap (fun v => set_visible (flag k v) v) <$> g_nodes g !! k) →
  refers g r → refers g' r.
Proof.
  intros Hn Hr k Hk. destruct (Hr k Hk) as [v Hv]. apply node_Some in Hv.
  exists (set_visible (flag k v) v). apply node_Some. by rewrite Hn, Hv.
Qed.

(** [updateVisibility], which [this.render()] runs, keeps what the
    handlers rely on. *)
Lemma updateVisibility_references (v : View) (sel : option string) :
  references_ok (mkBoard v sel) →
  ∃ vg v', updateVisibility v = Some (vg, v') ∧ references_ok (mkBoard v' sel).
Proof.
  intros (Hwf & Hf & Hs). simpl in *.
  destruct (updateVisibility_spec_all v Hwf) as (vg & v' & Hrun & _ & _ & Hn & _).
  exists vg, v'. split; [done|].
  destruct (updateVisibility_settings _ _ _ Hrun) as [Hfo _].
  split; [by eapply wf_updateVisibility|]. simpl. split.
  - rewrite Hfo. eapply refers_flags; [exact Hn|exact Hf].
  - eapply refers_flags; [exact Hn|exact Hs].
Qed.

(** X11. [onSelection], [onFocus] and [onToggleParams] keep the graph
    within its invariant and [focus] and [selection] references to views
    of the graph (or [null]): a board of which this holds is left so by
    [onSelection], which does not render; by [onFocus] and
    [onToggleParams] up to their call of [this.render()]; and again by
    the [updateVisibility] that [this.render()] runs on a board that is
    shown, which completes.  What else [render] does is layout and
    drawing. *)
Theorem interaction_keeps_references (this : Board) :
  references_ok this →
  (∀ id this', onSelection id this = Some this' → references_ok this')
  ∧ references_ok (onFocus this)
  ∧ (∃ vg view', updateVisibility (view (onFocus this)) = Some (vg, view')
       ∧ references_ok (mkBoard view' (selection (onFocus this))))
  ∧ (∃ view', onToggleParams (view this) = Some view'
       ∧ references_ok (mkBoard view' (selection this))
       ∧ ∃ vg view'', updateVisibility view' = Some (vg, view'')
           ∧ references_ok (mkBoard view'' (selection this))).
Proof.
  intros (Hwf & Hf & Hs).
  assert (Hfocus : references_ok (onFocus this)).
  { unfold onFocus. destruct (selection this) as [s|] eqn:Hsel.
    2: { split; [done|split; [done|]]. by rewrite Hsel. }
    destruct (negb _); simpl; (split; [done|split]); simpl;
      first [by intros k|by rewrite Hsel|intros k [= <-]; by apply Hs]. }
  assert (Htoggle : ∃ view', onToggleParams (view this) = Some view'
            ∧ references_ok (mkBoard view' (selection this))).
  { unfold onToggleParams. destruct (focus (view this)) as [f|] eqn:Hfo.
    - destruct (negb (negb (showParams (view this)))).
      + destruct (Hf f eq_refl) as [v ->]. simpl.
        destruct (bool_decide (resourceType v = "param")); eexists; (split; [done|]);
          (split; [done|split; [|done]]); simpl; [by intros k|exact Hf].
      + eexists. split; [done|]. split; [done|split; [|done]]. exact Hf.
    - eexists. split; [done|]. split; [done|split; [|done]]. by intros k. }
  split; [|split; [done|split]].
  - intros id this'. unfold onSelection.
    destruct (node (graph (view this)) id) as [v|] eqn:Hv; [|done]. simpl.
    assert (model_id v = id) as ->.
    { apply node_Some in Hv. by destruct (wf_label _ Hwf _ _ Hv) as (? & [= <-] & ?). }
    destruct (negb _); intros [= <-]; (split; [done|split; [done|]]); simpl.
    + intros k [= <-]. by eexists.
    + by intros k.
  - apply updateVisibility_references. by destruct (onFocus this).
  - destruct Htoggle as (view' & Hrun & Hok). exists view'. do 2 (split; [done|]).
    by apply updateVisibility_references.
Qed.

Lemma interaction_keeps_references_witness :
  (∀ id this', onSelection id (mkBoard (sample_view (Some "c3") true) (Some "c1")) = Some this' →
     references_ok this')
  ∧ references_ok (onFocus (mkBoard (sample_view (Some "c3") true) (Some "c1")))
  ∧ (∃ vg view',
       updateVisibility (view (onFocus (mkBoard (sample_view (Some "c3") true) (Some "c1"))))
       = Some (vg, view')
       ∧ references_ok
           (mkBoard view'
              (selection (onFocus (mkBoard (sample_view (Some "c3") true) (Some "c1"))))))
  ∧ (∃ view', onToggleParams (sample_view (Some "c3") true) = Some view'
       ∧ references_ok (mkBoard view' (Some "c1"))
       ∧ ∃ vg view'', updateVisibility view' = Some (vg, view'')
           ∧ references_ok (mkBoard view'' (Some "c1"))).
Proof.
  apply (interaction_keeps_references (mkBoard (sample_view (Some "c3") true) (Some "c1"))).
  split; [|split].
  - apply check_wf_sound. vm_compute. reflexivity.
  - intros k [= <-]. vm_compute. by eexists.
  - intros k [= <-]. vm_compute. by eexists.
Defined.

(** X12. After [onToggleParams], a focus that is left is a node of the
    graph that [updateVisibility] then returns: hiding the parameters
    drops the focus on a parameter rather than leaving a focus that is
    not shown. *)
Theorem onToggleParams_focus_shown (this : View) :
  wf_graph (graph this) → refers (graph this) (focus this) →
  ∃ this', onToggleParams this = Some this'
    ∧ showParams this' = negb (showParams this)
    ∧ ∀ f, focus this' = Some f →
        focus this = Some f
        ∧ ∃ vg this'', updateVisibility this' = Some (vg, this'')
            ∧ is_Some (g_nodes vg !! f).
Proof.
  intros Hwf Hf.
  assert (Hshown : ∀ f v sp, node (graph this) f = Some v → param_ok sp v = true →
            ∃ vg this'', updateVisibility (mkView (graph this) (Some f) sp)
                         = Some (vg, this'')
              ∧ is_Some (g_nodes vg !! f)).
  { intros f v sp Hv Hok.
    destruct (updateVisibility_spec_all (mkView (graph this) (Some f) sp) Hwf)
      as (vg & this'' & Hrun & Hn & _).
    exists vg, this''. split; [done|]. rewrite Hn. simpl. rewrite Hv, Hok. simpl.
    rewrite bool_decide_true by done. by eexists. }
  unfold onToggleParams. destruct (focus this) as [f|] eqn:Hfo.
  - destruct (Hf f eq_refl) as [v Hv].
    destruct (showParams this) eqn:Hsp; simpl.
    + rewrite Hv. simpl.
      destruct (bool_decide (resourceType v = "param")) eqn:Hp; eexists;
        (split; [done|]); simpl; (split; [done|]); [done|].
      intros f' [= <-]. split; [done|]. apply (Hshown f v false Hv).
      unfold param_ok, not_param. by rewrite Hp.
    + eexists. split; [done|]. simpl. split; [done|].
      intros f' [= <-]. split; [done|]. by apply (Hshown f v true Hv).
  - eexists. split; [done|]. simpl. split; [done|]. done.
Qed.

Lemma onToggleParams_focus_shown_witness :
  ∃ this', onToggleParams (sample_view (Some "c1") true) = Some this'
    ∧ showParams this' = negb true
    ∧ ∀ f, focus this' = Some f →
        Some "c1" = Some f
        ∧ ∃ vg this'', updateVisibility this' = Some (vg, this'')
            ∧ is_Some (g_nodes vg !! f).
Proof.
  apply (onToggleParams_focus_shown (sample_view (Some "c1") true)).
  - apply check_wf_sound. vm_compute. reflexivity.
  - intros k [= <-]. vm_compute. by eexists.
Defined.

(** Without the switch a focus on a parameter can stay while the
    parameters are hidden; the graph returned then leaves the focus
    out. *)
Example focus_on_hidden_parameter :
  (fun r : Graph * View => g_nodes r.1 !! "c3")
    <$> updateVisibility (sample_view (Some "c3") false)
  = Some None
  ∧ focus <$> onToggleParams (sample_view (Some "c3") true) = Some None.
Proof. split; vm_compute; reflexivity. Qed.

End InteractionFacts.

(** ** More on [cgRequestData] *)

Section CgRequestMore.
Import CgRequest.

Lemma foldl_add_arg_last (l : list ArgData) (o : ArgsObject) (n : string) :
  n ≠ "__proto__" ∨ has_prototype o = false →
  own (foldl add_arg o l) !! n =
    match last (filter (fun d2 => a_name d2 = n) l) with
    | Some d2 => Some (arg_value d2)
    | None => own o !! n
    end.
Proof.
  revert o. induction l as [|d l IH]; intros o Hn; [done|].
  cbn [foldl].
  assert (n ≠ "__proto__" ∨ has_prototype (add_arg o d) = false) as Hn'.
  { destruct Hn as [Hn|Hp]; [by left|]. right. unfold add_arg, assign.
    by rewrite Hp, andb_false_r. }
  rewrite (IH _ Hn').
  destruct (decide (a_name d = n)) as [Hd|Hd].
  - rewrite filter_cons_True by done. rewrite last_cons.
    destruct (last (filter _ l)); [done|]. unfold add_arg. rewrite Hd.
    by apply assign_own_eq.
  - rewrite filter_cons_False by done.
    destruct (last (filter _ l)); [done|]. unfold add_arg.
    by apply assign_own_ne.
Qed.

Lemma foldl_add_arg_after_null (l : list ArgData) (o : ArgsObject) :
  has_prototype o = true →
  own (foldl add_arg o l) !! "__proto__" =
    match last (filter (fun d2 => a_name d2 = "__proto__") (after_null l)) with
    | Some d2 => Some (arg_value d2)
    | None => own o !! "__proto__"
    end.
Proof.
  revert o. induction l as [|d l IH]; intros o Hp; [done|].
  cbn [foldl after_null]. unfold add_arg at 2.
  destruct (decide (a_name d = "__proto__")) as [Hd|Hd].
  - rewrite Hd, bool_decide_true by done. simpl.
    destruct (assign_proto o (arg_value d) Hp) as [Hown Hproto].
    destruct (bool_decide (arg_value d = JNull)) eqn:Hv.
    + rewrite foldl_add_arg_last by (by right). by rewrite Hown.
    + rewrite IH by done. by rewrite Hown.
  - rewrite (bool_decide_false (a_name d = "__proto__")) by done. simpl.
    rewrite IH; [by rewrite assign_own_ne|].
    unfold assign. rewrite bool_decide_false by done. exact Hp.
Qed.

(** X13. Whatever the names of the args of a launch file, its entry maps
    a name other than [__proto__] to the value of the last arg that
    bears it, and holds no such name that no arg bears; it holds
    [__proto__] only for an arg of that name that comes after an arg of
    that name whose value is [null], and then with the value of the
    last arg of that name. *)
Theorem cgRequestData_args_last (d1 : LaunchData) (n : string) :
  (n ≠ "__proto__" →
   own (args (launch_entry d1)) !! n
   = arg_value <$> last (filter (fun d2 => a_name d2 = n) (l_children d1)))
  ∧ own (args (launch_entry d1)) !! "__proto__"
    = arg_value <$> last (filter (fun d2 => a_name d2 = "__proto__")
                            (after_null (l_children d1))).
Proof.
  split.
  - intros Hn. simpl. rewrite foldl_add_arg_last by (by left).
    by destruct (last (filter _ (l_children d1))).
  - simpl. rewrite foldl_add_arg_after_null by done.
    by destruct (last (filter _ (after_null (l_children d1)))).
Qed.

(** An arg named [__proto__] left open, so that its value is [null],
    and two more of that name after it: the last is the one sent. *)
Example cgRequestData_proto_twice :
  own (args (launch_entry
               (mkLaunch "a.launch" (Some true)
                  [ mkArg "__proto__" None [];
                    mkArg "__proto__" (Some true) [ mkValue "1" (Some true) true JNull ];
                    mkArg "__proto__" (Some true) [ mkValue "2" (Some true) true JNull ] ])))
  = <["__proto__" := JString "2"]> ∅.
Proof. vm_compute. reflexivity. Qed.

End CgRequestMore.

(** ** More on the selection in the feature tree *)

Section FeatureTreeMore.
Import FeatureTree.

(** X14. [setValueSelected] returns [false] only for a value that is not
    resolved, when its prompt is dismissed or left empty, and then
    leaves the value as it was; when it returns [true] the value has
    [data.selected] true, and a resolved value also [ui.selected] true
    with its label untouched. *)
Theorem setValueSelected_cancel (prompt : Prompt) (parent_name : string)
    (d : ValueNode) (ask : bool) :
  match setValueSelected prompt parent_name d ask with
  | (false, d') =>
      v_resolved d = false ∧ d' = d
      ∧ (ask = true ∨ v_ui_value d = None)
      ∧ (prompt ("Value for [" ++ parent_name ++ "]:")%string = None
         ∨ prompt ("Value for [" ++ parent_name ++ "]:")%string = Some "")
  | (true, d') =>
      v_selected d' = Some true ∧ v_id d' = v_id d ∧ v_resolved d' = v_resolved d
      ∧ (v_resolved d = true →
         v_ui_selected d' = Some true ∧ v_ui_value d' = v_ui_value d
         ∧ v_ui_name d' = v_ui_name d)
  end.
Proof.
  unfold setValueSelected. destruct (v_resolved d) eqn:Hres; simpl; [done|].
  destruct ask; simpl.
  - destruct (prompt _) as [[|c s]|]; simpl;
      repeat split; auto; intros; congruence.
  - destruct (decide (v_ui_value d = None)) as [Hv|Hv].
    + rewrite bool_decide_true by done.
      destruct (prompt _) as [[|c s]|]; simpl;
        repeat split; auto; intros; congruence.
    + rewrite bool_decide_false by done.
      repeat split; auto; intros; congruence.
Qed.

Lemma propagateArgSelection_no_children (prompt : Prompt) (source : ArgNode) :
  a_children source = None → propagateArgSelection prompt source = None.
Proof. intros H. unfold propagateArgSelection. by rewrite H. Qed.

(** The round of [propagateRosLaunchSelection] for an arg, when the
    launch file is not selected. *)
Lemma open_round (prompt : Prompt) (v : option bool) (d : ArgNode) :
  ('(_, d') ← propagateArgSelection prompt (set_arg None d); Some (set_arg v d'))
  = (fun vals => mkArgNode v (a_defaultValue d) v (a_ui_previousValue d) (a_ui_name d)
                   (Some (set_value None <$> vals))) <$> a_children d.
Proof.
  destruct (a_children d) as [vals|] eqn:Hvals.
  - by rewrite (propagateArgSelection_open prompt (set_arg None d) vals).
  - by rewrite propagateArgSelection_no_children.
Qed.

(** The same when the launch file is selected. *)
Lemma selected_round (prompt : Prompt) (d : ArgNode) :
  (if truthy (a_selected d) then Some d
   else snd <$> propagateArgSelection prompt (set_arg None d))
  = if truthy (a_selected d) then Some d
    else (fun vals => mkArgNode None (a_defaultValue d) None (a_ui_previousValue d)
                        (a_ui_name d) (Some (set_value None <$> vals)))
           <$> a_children d.
Proof.
  destruct (truthy (a_selected d)); [done|].
  destruct (a_children d) as [vals|] eqn:Hvals.
  - by rewrite (propagateArgSelection_open prompt (set_arg None d) vals).
  - by rewrite propagateArgSelection_no_children.
Qed.

(** X15. [propagateRosLaunchSelection] on a launch file that is discarded
    or left open ([selected] false or unknown) runs to its end exactly
    when every arg has its array of values, and then leaves every arg in
    the state of the launch file and every value of every arg unknown. *)
Theorem propagateRosLaunchSelection_not_selected (prompt : Prompt)
    (source : LaunchNode) (args : list ArgNode) :
  truthy (r_selected source) = false → r_children source = Some args →
  (is_Some (propagateRosLaunchSelection prompt source)
   ↔ ∀ a, a ∈ args → is_Some (a_children a))
  ∧ ∀ source', propagateRosLaunchSelection prompt source = Some source' →
      r_selected source' = r_selected source
      ∧ ∃ args', r_children source' = Some args' ∧ length args' = length args
          ∧ ∀ i a', args' !! i = Some a' →
              a_selected a' = r_selected source
              ∧ a_ui_selected a' = r_selected source
              ∧ ∃ vals', a_children a' = Some vals'
                  ∧ ∀ d, d ∈ vals' → v_selected d = None ∧ v_ui_selected d = None.
Proof.
  intros Hv Hargs. unfold propagateRosLaunchSelection. rewrite Hargs, Hv.
  set (round := fun d : ArgNode =>
         '(_, d') ← propagateArgSelection prompt (set_arg None d);
         Some (set_arg (r_selected source) d')).
  split.
  - rewrite <- Forall_forall.
    transitivity (is_Some (mapM round args)).
    { destruct (mapM round args); simpl; split; intros [? ?]; done. }
    rewrite mapM_is_Some. apply Forall_iff. intros a. unfold compose, round.
    rewrite open_round. by rewrite fmap_is_Some.
  - intros source'. destruct (mapM round args) as [args'|] eqn:Hmap; [|done].
    simpl. intros [= <-]. simpl. split; [done|]. exists args'. split; [done|].
    apply mapM_Some in Hmap. split; [symmetry; by eapply Forall2_length|].
    intros i a' Ha'.
    destruct (Forall2_lookup_r _ _ _ _ _ Hmap Ha') as (a & Ha & Hround).
    unfold round in Hround. rewrite open_round in Hround.
    destruct (a_children a) as [vals|]; [|done]. simpl in Hround.
    injection Hround as <-. simpl. do 2 (split; [done|]).
    eexists. split; [done|].
    intros d (d0 & -> & _)%list_elem_of_fmap. done.
Qed.

Lemma propagateRosLaunchSelection_not_selected_witness :
  (is_Some (propagateRosLaunchSelection (always "true") sample_launch)
   ↔ ∀ a, a ∈ [ mkArgNode None None None None "y"
                  (Some [ mkValueNode 2 None true None None "a" ]);
                sample_arg ] → is_Some (a_children a))
  ∧ ∀ source', propagateRosLaunchSelection (always "true") sample_launch = Some source' →
      r_selected source' = r_selected sample_launch
      ∧ ∃ args', r_children source' = Some args' ∧ length args' = 2
          ∧ ∀ i a', args' !! i = Some a' →
              a_selected a' = r_selected sample_launch
              ∧ a_ui_selected a' = r_selected sample_launch
              ∧ ∃ vals', a_children a' = Some vals'
                  ∧ ∀ d, d ∈ vals' → v_selected d = None ∧ v_ui_selected d = None.
Proof.
  apply (propagateRosLaunchSelection_not_selected (always "true") sample_launch
           [ mkArgNode None None None None "y"
               (Some [ mkValueNode 2 None true None None "a" ]);
             sample_arg ]).
  - reflexivity.
  - reflexivity.
Defined.

(** X16. [propagateRosLaunchSelection] on a selected launch file leaves
    every selected arg, with its values, as it was, and makes every
    other arg and all the values of such an arg unknown; it asks
    nothing, and fails only on an arg that is not selected and has no
    array of values. *)
Theorem propagateRosLaunchSelection_selected (prompt : Prompt)
    (source : LaunchNode) (args : list ArgNode) :
  r_selected source = Some true → r_children source = Some args →
  (is_Some (propagateRosLaunchSelection prompt source)
   ↔ ∀ a, a ∈ args → a_selected a = Some true ∨ is_Some (a_children a))
  ∧ ∀ source', propagateRosLaunchSelection prompt source = Some source' →
      r_selected source' = Some true
      ∧ ∃ args', r_children source' = Some args' ∧ length args' = length args
          ∧ ∀ i a a', args !! i = Some a → args' !! i = Some a' →
              if truthy (a_selected a) then a' = a
              else a_selected a' = None ∧ a_ui_selected a' = None
                   ∧ ∃ vals', a_children a' = Some vals'
                       ∧ ∀ d, d ∈ vals' → v_selected d = None ∧ v_ui_selected d = None.
Proof.
  intros Hv Hargs. unfold propagateRosLaunchSelection. rewrite Hargs, Hv. simpl.
  set (round := fun d : ArgNode =>
         if truthy (a_selected d) then Some d
         else snd <$> propagateArgSelection prompt (set_arg None d)).
  split.
  - rewrite <- Forall_forall.
    transitivity (is_Some (mapM round args)).
    { destruct (mapM round args); simpl; split; intros [? ?]; done. }
    rewrite mapM_is_Some. apply Forall_iff. intros a. unfold compose, round.
    rewrite selected_round, <- truthy_true.
    destruct (truthy (a_selected a)).
    + split; [by left|by eexists].
    + rewrite fmap_is_Some. split; [by right|by intros [?|?]].
  - intros source'. destruct (mapM round args) as [args'|] eqn:Hmap; [|done].
    simpl. intros [= <-]. simpl. split; [done|]. exists args'. split; [done|].
    apply mapM_Some in Hmap. split; [symmetry; by eapply Forall2_length|].
    intros i a a' Ha Ha'.
    pose proof (Forall2_lookup_lr _ _ _ _ _ _ Hmap Ha Ha') as Hround.
    unfold round in Hround. rewrite selected_round in Hround.
    destruct (truthy (a_selected a)); [by injection Hround|].
    destruct (a_children a) as [vals|]; [|done]. simpl in Hround.
    injection Hround as <-. simpl. do 2 (split; [done|]).
    eexists. split; [done|].
    intros d (d0 & -> & _)%list_elem_of_fmap. done.
Qed.

Lemma propagateRosLaunchSelection_selected_witness :
  (is_Some (propagateRosLaunchSelection (always "true")
              (mkLaunchNode (Some true) None (r_children sample_launch)))
   ↔ ∀ a, a ∈ [ mkArgNode None None None None "y"
                  (Some [ mkValueNode 2 None true None None "a" ]);
                sample_arg ] → a_selected a = Some true ∨ is_Some (a_children a))
  ∧ ∀ source', propagateRosLaunchSelection (always "true")
                 (mkLaunchNode (Some true) None (r_children sample_launch))
               = Some source' →
      r_selected source' = Some true
      ∧ ∃ args', r_children source' = Some args' ∧ length args' = 2
          ∧ ∀ i a a', [ mkArgNode None None None None "y"
                          (Some [ mkValueNode 2 None true None None "a" ]);
                        sample_arg ] !! i = Some a → args' !! i = Some a' →
              if truthy (a_selected a) then a' = a
              else a_selected a' = None ∧ a_ui_selected a' = None
                   ∧ ∃ vals', a_children a' = Some vals'
                       ∧ ∀ d, d ∈ vals' → v_selected d = None ∧ v_ui_selected d = None.
Proof.
  apply (propagateRosLaunchSelection_selected (always "true")
           (mkLaunchNode (Some true) None (r_children sample_launch))
           [ mkArgNode None None None None "y"
               (Some [ mkValueNode 2 None true None None "a" ]);
             sample_arg ]).
  - reflexivity.
  - reflexivity.
Defined.

Lemma find_previous_NoDup (l : list ValueNode) (j0 vi : nat) (d : ValueNode) :
  NoDup (v_id <$> l) → l !! vi = Some d →
  find_previous (v_id d) l j0 = Some (j0 + vi).
Proof.
  revert j0 vi. induction l as [|d0 l IH]; intros j0 vi Hnd; [done|].
  rewrite fmap_cons in Hnd. apply NoDup_cons in Hnd as [Hnotin Hnd].
  destruct vi as [|vi]; simpl.
  - intros [= ->]. rewrite Nat.eqb_refl. f_equal. lia.
  - intros Hd. destruct (v_id d0 =? v_id d) eqn:Hid.
    + apply Nat.eqb_eq in Hid. exfalso. apply Hnotin. rewrite Hid.
      apply list_elem_of_fmap. exists d. split; [done|].
      by eapply list_elem_of_lookup_2.
    + rewrite (IH (S j0) vi Hnd Hd). f_equal. lia.
Qed.

(** A value is settled when selecting it asks nothing: it is resolved,
    or a text was typed for it before. *)
Lemma setValueSelected_settles (prompt : Prompt) (n : string) (d d' : ValueNode)
    (ask : bool) :
  setValueSelected prompt n d ask = (true, d') →
  v_resolved d' = true ∨ v_ui_value d' ≠ None.
Proof.
  unfold setValueSelected.
  destruct (v_resolved d) eqn:Hres; simpl; [intros [= <-]; by left|].
  destruct ask; simpl.
  - destruct (prompt _) as [[|c v]|]; try done. intros [= <-]. by right.
  - destruct (bool_decide (v_ui_value d = None)) eqn:Hv.
    + destruct (prompt _) as [[|c v]|]; try done. intros [= <-]. by right.
    + intros [= <-]. right. simpl. by apply bool_decide_eq_false in Hv.
Qed.

Lemma setValueSelected_settled (prompt : Prompt) (n : string) (d : ValueNode) :
  v_resolved d = true ∨ v_ui_value d ≠ None →
  setValueSelected prompt n d false
  = (true, mkValueNode (v_id d) (Some true) (v_resolved d)
             (if v_resolved d then Some true else None)
             (v_ui_value d) (v_ui_name d)).
Proof.
  intros Hs. unfold setValueSelected.
  destruct (v_resolved d) eqn:Hres; simpl; [done|].
  destruct Hs as [?|Hv]; [done|]. by rewrite bool_decide_false.
Qed.

Lemma set_value_ids (s : option bool) (vals : list ValueNode) :
  v_id <$> (set_value s <$> vals) = v_id <$> vals.
Proof. rewrite <- list_fmap_compose. by apply list_fmap_ext. Qed.

Lemma set_value_twice (s t : option bool) (vals : list ValueNode) :
  set_value s <$> (set_value t <$> vals) = set_value s <$> vals.
Proof. rewrite <- list_fmap_compose. by apply list_fmap_ext. Qed.

(** With distinct ids among the values, [propagateArgSelection] on an
    arg whose value chosen before is the settled value [vi] selects that
    value, and asks nothing. *)
Lemma propagateArgSelection_reselect (prompt : Prompt) (arg : ArgNode)
    (vals : list ValueNode) (vi : nat) (s : ValueNode) :
  a_children arg = Some vals → vals !! vi = Some s →
  NoDup (v_id <$> vals) → v_resolved s = true ∨ v_ui_value s ≠ None →
  propagateArgSelection prompt
    (mkArgNode (Some true) (a_defaultValue arg) (Some true)
       (Some (v_id s)) (a_ui_name arg) (a_children arg))
  = Some (true,
          mkArgNode (Some true) (a_defaultValue arg) (Some true)
            (Some (v_id s)) (a_ui_name arg)
            (Some (<[vi := reselected s]> (set_value (Some false) <$> vals)))).
Proof.
  intros Hvals Hs Hnd Hsettled.
  set (arg2 := mkArgNode (Some true) (a_defaultValue arg) (Some true)
                 (Some (v_id s)) (a_ui_name arg) (a_children arg)).
  rewrite (propagateArgSelection_selected prompt arg2 vals eq_refl Hvals).
  set (children := set_value (Some false) <$> vals).
  assert (children !! vi = Some (set_value (Some false) s)) as Hc.
  { unfold children. by rewrite list_lookup_fmap, Hs. }
  assert (chosen_index arg2 children = vi) as ->.
  { unfold chosen_index. simpl.
    assert (find_previous (v_id s) children 0 = Some vi) as ->; [|done].
    apply (find_previous_NoDup children 0 vi (set_value (Some false) s)); [|done].
    unfold children. by rewrite set_value_ids. }
  rewrite Hc. simpl.
  by rewrite (setValueSelected_settled prompt (a_ui_name arg) (set_value (Some false) s)).
Qed.

(** The round of [propagateRosLaunchSelection] for an arg of a selected
    launch file keeps the arg but for its state and the state of its
    values. *)
Lemma propagate_round_arg (prompt : Prompt) (d d' : ArgNode)
    (vals : list ValueNode) :
  a_children d = Some vals →
  (if truthy (a_selected d) then Some d
   else snd <$> propagateArgSelection prompt (set_arg None d)) = Some d' →
  a_defaultValue d' = a_defaultValue d ∧ a_ui_name d' = a_ui_name d
  ∧ (a_children d' = Some vals ∨ a_children d' = Some (set_value None <$> vals)).
Proof.
  intros Hvals. rewrite selected_round, Hvals.
  destruct (truthy (a_selected d)).
  - intros [= <-]. auto.
  - simpl. intros [= <-]. simpl. auto.
Qed.

(** [propagateValueSelection] from a settled value of an arg whose
    values have distinct ids: the launch file and the arg are selected,
    the value is the one selected of the arg, and nothing is asked. *)
Lemma propagateValueSelection_reselect (prompt : Prompt) (roslaunch : LaunchNode)
    (ai vi : nat) (args : list ArgNode) (arg : ArgNode)
    (vals : list ValueNode) (s : ValueNode) :
  r_children roslaunch = Some args → args !! ai = Some arg →
  a_children arg = Some vals → vals !! vi = Some s →
  NoDup (v_id <$> vals) → v_resolved s = true ∨ v_ui_value s ≠ None →
  (∀ a, a ∈ args → is_Some (a_children a)) →
  ∃ args1, length args1 = length args
    ∧ (truthy (r_selected roslaunch) = true → args1 = args)
    ∧ (∀ j a, args !! j = Some a → a_selected a = Some true → args1 !! j = Some a)
    ∧ propagateValueSelection prompt roslaunch ai vi
      = Some (mkLaunchNode (Some true) (r_ui_selected roslaunch)
                (Some (<[ai :=
                   mkArgNode (Some true) (a_defaultValue arg) (Some true)
                     (Some (v_id s)) (a_ui_name arg)
                     (Some (<[vi := reselected s]> (set_value (Some false) <$> vals)))]>
                   args1))).
Proof.
  intros Hargs Harg Hvals Hs Hnd Hsettled Hall.
  unfold propagateValueSelection. rewrite Hargs. simpl. rewrite Harg. simpl.
  rewrite Hvals. simpl. rewrite Hs. simpl.
  destruct (truthy (r_selected roslaunch)) eqn:Ht; simpl.
  - exists args. split; [done|]. split; [done|]. split; [done|].
    rewrite Hargs. simpl. rewrite Harg. simpl.
    rewrite (propagateArgSelection_reselect prompt arg vals vi s) by done.
    simpl. by apply truthy_true in Ht as ->.
  - unfold propagateRosLaunchSelection. simpl.
    set (round := fun d : ArgNode => if truthy (a_selected d) then Some d
                    else snd <$> propagateArgSelection prompt (set_arg None d)).
    assert (is_Some (mapM round args)) as [args1 Hmap].
    { apply mapM_is_Some. apply Forall_forall. intros a [cs Hcs]%Hall.
      unfold compose, round. rewrite selected_round, Hcs.
      destruct (truthy (a_selected a)); by eexists. }
    rewrite Hmap. simpl. apply mapM_Some in Hmap.
    exists args1. split; [symmetry; by eapply Forall2_length|].
    split; [done|]. split.
    { intros j a Ha Hsel.
      destruct (Forall2_lookup_l _ _ _ _ _ Hmap Ha) as (a1 & Ha1 & Hround).
      unfold round in Hround. rewrite Hsel in Hround. simpl in Hround.
      by injection Hround as <-. }
    destruct (Forall2_lookup_l _ _ _ _ _ Hmap Harg) as (arg1 & Harg1 & Hround).
    rewrite Harg1. simpl.
    destruct (propagate_round_arg prompt arg arg1 vals Hvals Hround)
      as (Hdv & Hname & [Hvals1|Hvals1]).
    + rewrite (propagateArgSelection_reselect prompt arg1 vals vi s) by done.
      simpl. by rewrite Hdv, Hname.
    + assert ((set_value None <$> vals) !! vi = Some (set_value None s)) as Hs1.
      { by rewrite list_lookup_fmap, Hs. }
      pose proof (propagateArgSelection_reselect prompt arg1 (set_value None <$> vals)
                    vi (set_value None s) Hvals1 Hs1) as Hrun.
      change (v_id (set_value None s)) with (v_id s) in Hrun.
      change (reselected (set_value None s)) with (reselected s) in Hrun.
      rewrite Hrun; [|by rewrite set_value_ids|done].
      simpl. by rewrite Hdv, Hname, set_value_twice.
Qed.

Lemma elem_of_list_insert_inv {A : Type} (l : list A) (i : nat) (x y : A) :
  y ∈ <[i := x]> l → y = x ∨ y ∈ l.
Proof.
  intros [j Hj]%list_elem_of_lookup. destruct (decide (j = i)) as [->|Hne].
  - destruct (decide (i < length l)) as [Hlt|Hge].
    + rewrite list_lookup_insert_eq in Hj by done. left. by injection Hj.
    + rewrite list_insert_ge in Hj by lia. right. by eapply list_elem_of_lookup_2.
  - rewrite list_lookup_insert_ne in Hj by done. right.
    by eapply list_elem_of_lookup_2.
Qed.

(** X17. A click on a value of an arg that is not discarded, handled by
    [onSelectValue], when the values of the arg have distinct ids, every
    arg of the launch file has its array of values and the prompt, if
    one comes up, is answered: the launch file has [data.selected] true,
    while its [ui.selected] is left as it was; the arg is selected, in
    [data] and in [ui], and remembers the value as the one chosen; the
    value clicked is selected and shown so, and every other value of the
    arg is not selected.  The args beside it that were selected are left
    as they were. *)
Theorem onSelectValue_selects (prompt : Prompt) (roslaunch : LaunchNode)
    (ai vi : nat) (args : list ArgNode) (arg : ArgNode)
    (values : list ValueNode) (d : ValueNode) :
  r_children roslaunch = Some args → args !! ai = Some arg →
  a_children arg = Some values → values !! vi = Some d →
  a_selected arg ≠ Some false →
  NoDup (v_id <$> values) →
  (∀ a, a ∈ args → is_Some (a_children a)) →
  (setValueSelected prompt (a_ui_name arg) d (truthy (v_selected d))).1 = true →
  ∃ r' args' arg' values',
    onSelectValue prompt roslaunch ai vi = Some r'
    ∧ r_selected r' = Some true
    ∧ r_ui_selected r' = r_ui_selected roslaunch
    ∧ r_children r' = Some args' ∧ length args' = length args
    ∧ args' !! ai = Some arg'
    ∧ a_selected arg' = Some true ∧ a_ui_selected arg' = Some true
    ∧ a_ui_previousValue arg' = Some (v_id d)
    ∧ a_children arg' = Some values' ∧ length values' = length values
    ∧ (∀ j dj, values' !! j = Some dj →
         v_selected dj = Some (bool_decide (j = vi))
         ∧ v_ui_selected dj = Some (bool_decide (j = vi)))
    ∧ (∀ j a, j ≠ ai → args !! j = Some a → a_selected a = Some true →
         args' !! j = Some a).
Proof.
  intros Hargs Harg Hvals Hd Hopen Hnd Hall Hok.
  unfold onSelectValue. rewrite Hargs. simpl. rewrite Harg. simpl.
  rewrite Hvals. simpl. rewrite Hd. simpl.
  rewrite bool_decide_false by done.
  destruct (setValueSelected prompt (a_ui_name arg) d (truthy (v_selected d)))
    as [ok d1] eqn:Hset.
  simpl in Hok. subst ok. simpl.
  pose proof (setValueSelected_true _ _ _ _ _ Hset) as [_ Hid].
  pose proof (setValueSelected_settles _ _ _ _ _ Hset) as Hsettled.
  pose proof (lookup_lt_Some _ _ _ Harg) as Hai.
  pose proof (lookup_lt_Some _ _ _ Hd) as Hvi.
  set (values1 := <[vi := d1]> values).
  set (arg1 := with_values arg values1).
  set (args1 := <[ai := arg1]> args).
  destruct (propagateValueSelection_reselect prompt (with_args roslaunch args1)
              ai vi args1 arg1 values1 d1) as (args2 & Hlen & _ & Hkeep & ->).
  { done. }
  { by apply list_lookup_insert_eq. }
  { done. }
  { by apply list_lookup_insert_eq. }
  { unfold values1. rewrite list_fmap_insert, list_insert_id; [done|].
    by rewrite list_lookup_fmap, Hd, Hid. }
  { done. }
  { intros a [->|Ha]%elem_of_list_insert_inv; [by eexists|by apply Hall]. }
  unfold args1 in Hlen. rewrite length_insert in Hlen.
  simpl. rewrite list_lookup_insert_eq by lia. simpl.
  rewrite list_lookup_insert_eq
    by (unfold values1; rewrite length_fmap, length_insert; lia).
  simpl. do 4 eexists. split; [done|]. simpl. do 3 (split; [done|]).
  split; [by rewrite !length_insert|].
  split; [apply list_lookup_insert_eq; rewrite length_insert; lia|].
  simpl. do 2 (split; [done|]). split; [by rewrite Hid|]. split; [done|].
  split; [unfold values1; by rewrite !length_insert, length_fmap, length_insert|].
  split.
  - intros j dj. rewrite list_insert_insert_eq.
    destruct (decide (j = vi)) as [->|Hne].
    + rewrite list_lookup_insert_eq
        by (unfold values1; rewrite length_fmap, length_insert; lia).
      intros [= <-]. by rewrite bool_decide_true.
    + rewrite list_lookup_insert_ne by done. rewrite list_lookup_fmap.
      destruct (values1 !! j); [|done]. intros [= <-].
      by rewrite bool_decide_false.
  - intros j a Hne Ha Hsel. rewrite list_insert_insert_eq.
    rewrite list_lookup_insert_ne by done. apply Hkeep; [|done].
    unfold args1. by rewrite list_lookup_insert_ne.
Qed.

Lemma onSelectValue_selects_witness :
  ∃ r' args' arg' values',
    onSelectValue (always "true") sample_launch 1 2 = Some r'
    ∧ r_selected r' = Some true
    ∧ r_ui_selected r' = r_ui_selected sample_launch
    ∧ r_children r' = Some args' ∧ length args' = 2
    ∧ args' !! 1 = Some arg'
    ∧ a_selected arg' = Some true ∧ a_ui_selected arg' = Some true
    ∧ a_ui_previousValue arg' = Some 6
    ∧ a_children arg' = Some values' ∧ length values' = 3
    ∧ (∀ j dj, values' !! j = Some dj →
         v_selected dj = Some (bool_decide (j = 2))
         ∧ v_ui_selected dj = Some (bool_decide (j = 2)))
    ∧ (∀ j a, j ≠ 1 →
         [ mkArgNode None None None None "y"
             (Some [ mkValueNode 2 None true None None "a" ]);
           sample_arg ] !! j = Some a →
         a_selected a = Some true → args' !! j = Some a).
Proof.
  apply (onSelectValue_selects (always "true") sample_launch 1 2
           [ mkArgNode None None None None "y"
               (Some [ mkValueNode 2 None true None None "a" ]);
             sample_arg ]
           sample_arg
           [ mkValueNode 4 (Some true) true (Some true) None "1";
             mkValueNode 5 None true None None "2";
             mkValueNode 6 None false None None "?" ]
           (mkValueNode 6 None false None None "?")).
  - reflexivity.
  - reflexivity.
  - reflexivity.
  - reflexivity.
  - discriminate.
  - apply (bool_decide_unpack _). reflexivity.
  - intros a Ha. repeat (apply elem_of_cons in Ha as [->|Ha]; [by eexists|]).
    by apply elem_of_nil in Ha.
  - reflexivity.
Defined.

(** The third value of the second arg of the sample clicked, and a text
    typed for it. *)
Example onSelectValue_sample :
  (fun r : LaunchNode =>
     (r_selected r,
      (fun a : ArgNode => (a_selected a, fmap (M := list) v_selected <$> a_children a))
        <$> default [] (r_children r)))
    <$> onSelectValue (always "7") sample_launch 1 2
  = Some (Some true,
          [ (None, Some [None]);
            (Some true, Some [Some false; Some false; Some true]) ]).
Proof. reflexivity. Qed.

Lemma with_values_id (a : ArgNode) (values : list ValueNode) :
  a_children a = Some values → with_values a values = a.
Proof. destruct a. simpl. by intros ->. Qed.

Lemma with_args_id (r : LaunchNode) (args : list ArgNode) :
  r_children r = Some args → with_args r args = r.
Proof. destruct r. simpl. by intros ->. Qed.

(** X18. A click on a value handled by [onSelectValue] leaves the whole
    launch file as it was when the arg of the value is discarded, and
    when the prompt for the text of an unresolved value (asked when the
    value is selected already, or has no text yet) is dismissed or
    answered with nothing. *)
Theorem onSelectValue_retains (prompt : Prompt) (roslaunch : LaunchNode)
    (ai vi : nat) (args : list ArgNode) (arg : ArgNode)
    (values : list ValueNode) (d : ValueNode) :
  r_children roslaunch = Some args → args !! ai = Some arg →
  a_children arg = Some values → values !! vi = Some d →
  a_selected arg = Some false
  ∨ (v_resolved d = false
     ∧ (v_selected d = Some true ∨ v_ui_value d = None)
     ∧ (prompt ("Value for [" ++ a_ui_name arg ++ "]:")%string = None
        ∨ prompt ("Value for [" ++ a_ui_name arg ++ "]:")%string = Some "")) →
  onSelectValue prompt roslaunch ai vi = Some roslaunch.
Proof.
  intros Hargs Harg Hvals Hd Hcase.
  unfold onSelectValue. rewrite Hargs. simpl. rewrite Harg. simpl.
  rewrite Hvals. simpl. rewrite Hd. simpl.
  destruct (bool_decide (a_selected arg = Some false)) eqn:Hdis; [done|].
  destruct Hcase as [Hsel|(Hres & Hask & Hprompt)].
  { by apply bool_decide_eq_false in Hdis. }
  assert (setValueSelected prompt (a_ui_name arg) d (truthy (v_selected d))
          = (false, d)) as ->.
  { unfold setValueSelected. rewrite Hres. simpl.
    assert (truthy (v_selected d) || bool_decide (v_ui_value d = None) = true) as ->.
    { destruct Hask as [Hs|Hv]; [by rewrite Hs|]. rewrite bool_decide_true by done.
      apply orb_true_r. }
    by destruct Hprompt as [Hp|Hp]; rewrite Hp. }
  simpl. rewrite (list_insert_id values) by done.
  rewrite with_values_id by done. rewrite (list_insert_id args) by done.
  by rewrite with_args_id.
Qed.

Lemma onSelectValue_retains_witness :
  onSelectValue (fun _ => None) sample_launch 1 2 = Some sample_launch.
Proof.
  apply (onSelectValue_retains (fun _ => None) sample_launch 1 2
           [ mkArgNode None None None None "y"
               (Some [ mkValueNode 2 None true None None "a" ]);
             sample_arg ]
           sample_arg
           [ mkValueNode 4 (Some true) true (Some true) None "1";
             mkValueNode 5 None true None None "2";
             mkValueNode 6 None false None None "?" ]
           (mkValueNode 6 None false None None "?")).
  - reflexivity.
  - reflexivity.
  - reflexivity.
  - reflexivity.
  - right. split; [reflexivity|]. split; [right; reflexivity|left; reflexivity].
Defined.

(** [propagateRosLaunchSelection] on a launch file just selected, every
    arg of which has its array of values. *)
Lemma propagateRosLaunchSelection_select (prompt : Prompt) (ui : option bool)
    (args : list ArgNode) :
  (∀ a, a ∈ args → is_Some (a_children a)) →
  ∃ args1,
    propagateRosLaunchSelection prompt (mkLaunchNode (Some true) ui (Some args))
    = Some (mkLaunchNode (Some true) ui (Some args1))
    ∧ Forall2 (fun a a1 =>
                 (if truthy (a_selected a) then Some a
                  else (fun vals => mkArgNode None (a_defaultValue a) None
                                      (a_ui_previousValue a) (a_ui_name a)
                                      (Some (set_value None <$> vals)))
                         <$> a_children a) = Some a1) args args1.
Proof.
  intros Hall. unfold propagateRosLaunchSelection. simpl.
  set (round := fun d : ArgNode => if truthy (a_selected d) then Some d
                  else snd <$> propagateArgSelection prompt (set_arg None d)).
  assert (is_Some (mapM round args)) as [args1 Hmap].
  { apply mapM_is_Some. apply Forall_forall. intros a [cs Hcs]%Hall.
    unfold compose, round. rewrite selected_round, Hcs.
    destruct (truthy (a_selected a)); by eexists. }
  rewrite Hmap. simpl. exists args1. split; [done|].
  apply mapM_Some in Hmap. eapply Forall2_impl; [exact Hmap|].
  intros a a1. unfold round. by rewrite selected_round.
Qed.

(** X19. A click on an arg left open and shown so, handled by
    [onSelectArg], when every arg of the launch file has its array of
    values and the default index is a value of the arg: the launch file
    has [data.selected] true, while its [ui.selected] is left as it was;
    the arg is selected, in [data] and in [ui]; no value of the arg is
    left unknown, at most one of them is selected, and exactly one when
    the prompt is answered; the args beside it that were selected are
    left as they were. *)
Theorem onSelectArg_selects (prompt : Prompt) (roslaunch : LaunchNode)
    (ai : nat) (args : list ArgNode) (arg : ArgNode) (vals : list ValueNode) :
  r_children roslaunch = Some args → args !! ai = Some arg →
  a_children arg = Some vals →
  a_ui_selected arg = None → a_selected arg = None →
  (∀ a, a ∈ args → is_Some (a_children a)) →
  default 0 (a_defaultValue arg) < length vals →
  ∃ r' args' arg' vals' i ok,
    onSelectArg prompt roslaunch ai = Some r'
    ∧ r_selected r' = Some true
    ∧ r_ui_selected r' = r_ui_selected roslaunch
    ∧ r_children r' = Some args' ∧ length args' = length args
    ∧ args' !! ai = Some arg'
    ∧ a_selected arg' = Some true ∧ a_ui_selected arg' = Some true
    ∧ a_children arg' = Some vals' ∧ length vals' = length vals
    ∧ i < length vals
    ∧ (∀ j dj, vals' !! j = Some dj →
         v_selected dj = Some (ok && bool_decide (j = i)))
    ∧ ((∀ msg, ∃ answer, prompt msg = Some answer ∧ answer ≠ "") → ok = true)
    ∧ (∀ j a, j ≠ ai → args !! j = Some a → a_selected a = Some true →
         args' !! j = Some a).
Proof.
  intros Hargs Harg Hvals Hui Hsel Hall Hdef.
  unfold onSelectArg. rewrite Hargs. simpl. rewrite Harg. simpl.
  rewrite Hui, Hsel. simpl.
  destruct (propagateRosLaunchSelection_select prompt (r_ui_selected roslaunch)
              args Hall) as (args1 & -> & Hround).
  simpl.
  destruct (Forall2_lookup_l _ _ _ _ _ Hround Harg) as (arg1 & Harg1 & Harg1').
  rewrite Hsel, Hvals in Harg1'. simpl in Harg1'. injection Harg1' as <-.
  rewrite Harg1. simpl.
  set (arg1 := mkArgNode None (a_defaultValue arg) None (a_ui_previousValue arg)
                 (a_ui_name arg) (Some (set_value None <$> vals))) in *.
  rewrite (propagateArgSelection_selected prompt (set_arg (Some true) arg1)
             (set_value None <$> vals) eq_refl eq_refl).
  rewrite set_value_twice.
  set (children := set_value (Some false) <$> vals).
  set (i := chosen_index (set_arg (Some true) arg1) children).
  assert (Hlen : length children = length vals) by apply length_fmap.
  assert (i < length children) as Hi.
  { apply chosen_index_range. left. simpl. by rewrite Hlen. }
  destruct (lookup_lt_is_Some_2 _ _ Hi) as [d Hd]. rewrite Hd. simpl.
  destruct (setValueSelected prompt (a_ui_name arg) d false) as [ok d'] eqn:Hset.
  simpl.
  pose proof (Forall2_length _ _ _ Hround) as Hlen1.
  pose proof (lookup_lt_Some _ _ _ Harg1) as Hai1.
  eexists _, _, _, _, i, ok. split; [done|]. simpl. do 2 (split; [done|]).
  split; [done|]. split; [by rewrite length_insert|].
  split; [by apply list_lookup_insert_eq|]. simpl.
  do 2 (split; [done|]). split; [done|].
  split; [by rewrite length_insert|]. split; [lia|]. split; [|split].
  - intros j dj. destruct (decide (j = i)) as [->|Hne].
    + rewrite list_lookup_insert_eq by done. intros [= <-].
      rewrite bool_decide_true by done. destruct ok.
      * by apply setValueSelected_true in Hset as [-> _].
      * apply setValueSelected_false in Hset as ->. unfold children in Hd.
        rewrite list_lookup_fmap in Hd. destruct (vals !! i); [|done].
        by injection Hd as <-.
    + rewrite list_lookup_insert_ne by done. unfold children.
      rewrite list_lookup_fmap. destruct (vals !! j); [|done]. intros [= <-].
      rewrite bool_decide_false by done. by rewrite andb_false_r.
  - intros Hans.
    pose proof (setValueSelected_answered prompt (a_ui_name arg) d false Hans) as H.
    by rewrite Hset in H.
  - intros j a Hne Ha Ha_sel. rewrite list_lookup_insert_ne by done.
    destruct (Forall2_lookup_l _ _ _ _ _ Hround Ha) as (a1 & Ha1 & Ha1').
    rewrite Ha_sel in Ha1'. simpl in Ha1'. by injection Ha1' as <-.
Qed.

Lemma onSelectArg_selects_witness :
  ∃ r' args' arg' vals' i ok,
    onSelectArg (always "true") sample_launch 0 = Some r'
    ∧ r_selected r' = Some true
    ∧ r_ui_selected r' = r_ui_selected sample_launch
    ∧ r_children r' = Some args' ∧ length args' = 2
    ∧ args' !! 0 = Some arg'
    ∧ a_selected arg' = Some true ∧ a_ui_selected arg' = Some true
    ∧ a_children arg' = Some vals' ∧ length vals' = 1
    ∧ i < 1
    ∧ (∀ j dj, vals' !! j = Some dj →
         v_selected dj = Some (ok && bool_decide (j = i)))
    ∧ ((∀ msg, ∃ answer, always "true" msg = Some answer ∧ answer ≠ "") → ok = true)
    ∧ (∀ j a, j ≠ 0 →
         [ mkArgNode None None None None "y"
             (Some [ mkValueNode 2 None true None None "a" ]);
           sample_arg ] !! j = Some a →
         a_selected a = Some true → args' !! j = Some a).
Proof.
  apply (onSelectArg_selects (always "true") sample_launch 0
           [ mkArgNode None None None None "y"
               (Some [ mkValueNode 2 None true None None "a" ]);
             sample_arg ]
           (mkArgNode None None None None "y"
              (Some [ mkValueNode 2 None true None None "a" ]))
           [ mkValueNode 2 None true None None "a" ]).
  - reflexivity.
  - reflexivity.
  - reflexivity.
  - reflexivity.
  - reflexivity.
  - intros a Ha. repeat (apply elem_of_cons in Ha as [->|Ha]; [by eexists|]).
    by apply elem_of_nil in Ha.
  - simpl. lia.
Defined.

(** X20. A click handled by [onSelectArg] on an arg that is shown as it
    is: a discarded arg is left alone, with the whole launch file; a
    selected arg is left open, and every value of it unknown, while the
    launch file and the other args stay as they were. *)
Theorem onSelectArg_deselects (prompt : Prompt) (roslaunch : LaunchNode)
    (ai : nat) (args : list ArgNode) (arg : ArgNode) (vals : list ValueNode) :
  r_children roslaunch = Some args → args !! ai = Some arg →
  a_children arg = Some vals →
  a_ui_selected arg = a_selected arg →
  (a_selected arg = Some false → onSelectArg prompt roslaunch ai = Some roslaunch)
  ∧ (a_selected arg = Some true →
     ∃ arg' vals',
       onSelectArg prompt roslaunch ai
       = Some (mkLaunchNode (r_selected roslaunch) (r_ui_selected roslaunch)
                 (Some (<[ai := arg']> args)))
       ∧ a_selected arg' = None ∧ a_ui_selected arg' = None
       ∧ a_ui_previousValue arg' = a_ui_previousValue arg
       ∧ a_children arg' = Some vals' ∧ length vals' = length vals
       ∧ ∀ d, d ∈ vals' → v_selected d = None ∧ v_ui_selected d = None).
Proof.
  intros Hargs Harg Hvals Hagree.
  unfold onSelectArg. rewrite Hargs. simpl. rewrite Harg. simpl.
  rewrite bool_decide_true by done. simpl. split.
  - intros Hsel. by rewrite bool_decide_true.
  - intros Hsel. rewrite Hsel. simpl.
    rewrite (propagateArgSelection_open prompt (set_arg None arg) vals) by done.
    simpl. eexists _, _. split; [done|]. simpl. do 3 (split; [done|]).
    split; [done|]. split; [by rewrite length_fmap|].
    by intros d (d0 & -> & _)%list_elem_of_fmap.
Qed.

Lemma onSelectArg_deselects_witness :
  (a_selected sample_arg = Some false →
   onSelectArg (always "true") sample_launch 1 = Some sample_launch)
  ∧ (a_selected sample_arg = Some true →
     ∃ arg' vals',
       onSelectArg (always "true") sample_launch 1
       = Some (mkLaunchNode (r_selected sample_launch) (r_ui_selected sample_launch)
                 (Some (<[1 := arg']>
                    [ mkArgNode None None None None "y"
                        (Some [ mkValueNode 2 None true None None "a" ]);
                      sample_arg ])))
       ∧ a_selected arg' = None ∧ a_ui_selected arg' = None
       ∧ a_ui_previousValue arg' = a_ui_previousValue sample_arg
       ∧ a_children arg' = Some vals' ∧ length vals' = 3
       ∧ ∀ d, d ∈ vals' → v_selected d = None ∧ v_ui_selected d = None).
Proof.
  apply (onSelectArg_deselects (always "true") sample_launch 1
           [ mkArgNode None None None None "y"
               (Some [ mkValueNode 2 None true None None "a" ]);
             sample_arg ]
           sample_arg
           [ mkValueNode 4 (Some true) true (Some true) None "1";
             mkValueNode 5 None true None None "2";
             mkValueNode 6 None false None None "?" ]).
  - reflexivity.
  - reflexivity.
  - reflexivity.
  - reflexivity.
Defined.

Lemma arg_inv_selected (a : ArgNode) :
  a_selected a = Some true → arg_inv (Some true) a = true.
Proof. intros H. unfold arg_inv. by rewrite H. Qed.

Lemma forallb_unknown (vals : list ValueNode) :
  forallb (fun d => negb (truthy (v_selected d))) (set_value None <$> vals) = true.
Proof. induction vals as [|d vals IH]; [done|]. simpl. exact IH. Qed.

Lemma arg_inv_unknown (s sa ui : option bool) (dv prev : option nat) (n : string)
    (vals : list ValueNode) :
  sa = (if truthy s then None else s) →
  arg_inv s (mkArgNode sa dv ui prev n (Some (set_value None <$> vals))) = true.
Proof.
  intros ->. unfold arg_inv. simpl. rewrite forallb_unknown.
  by destruct s as [[|]|].
Qed.

Lemma tree_inv_Forall (r : LaunchNode) (args : list ArgNode) :
  r_children r = Some args →
  tree_inv r = true ↔ Forall (fun a => arg_inv (r_selected r) a = true) args.
Proof.
  intros Hargs. unfold tree_inv. rewrite Hargs. simpl.
  rewrite forallb_forall, Forall_forall.
  split; intros H a Ha; apply H; by apply list_elem_of_In.
Qed.

(** [propagateRosLaunchSelection] leaves the assertions true of every
    arg, whatever the args were. *)
Lemma propagateRosLaunchSelection_inv (prompt : Prompt) (r r' : LaunchNode) :
  propagateRosLaunchSelection prompt r = Some r' → tree_inv r' = true.
Proof.
  unfold propagateRosLaunchSelection.
  destruct (r_children r) as [args|] eqn:Hargs.
  2: { intros [= <-]. unfold tree_inv. by rewrite Hargs. }
  destruct (truthy (r_selected r)) eqn:Ht.
  - destruct (mapM _ args) as [args'|] eqn:Hmap; [|done]. simpl. intros [= <-].
    apply (tree_inv_Forall (mkLaunchNode (r_selected r) (r_ui_selected r) (Some args'))
             args' eq_refl). simpl.
    apply mapM_Some in Hmap. apply Forall_lookup. intros i a' Ha'.
    destruct (Forall2_lookup_r _ _ _ _ _ Hmap Ha') as (a & Ha & Hround).
    rewrite selected_round in Hround. apply truthy_true in Ht. rewrite Ht.
    destruct (truthy (a_selected a)) eqn:Hsel.
    + injection Hround as <-. by apply arg_inv_selected, truthy_true.
    + destruct (a_children a) as [vals|]; [|done]. injection Hround as <-.
      by apply arg_inv_unknown.
  - destruct (mapM _ args) as [args'|] eqn:Hmap; [|done]. simpl. intros [= <-].
    apply (tree_inv_Forall (mkLaunchNode (r_selected r) (r_ui_selected r) (Some args'))
             args' eq_refl). simpl.
    apply mapM_Some in Hmap. apply Forall_lookup. intros i a' Ha'.
    destruct (Forall2_lookup_r _ _ _ _ _ Hmap Ha') as (a & Ha & Hround).
    simpl in Hround. rewrite open_round in Hround.
    destruct (a_children a) as [vals|]; [|done]. injection Hround as <-.
    apply arg_inv_unknown. by rewrite Ht.
Qed.

Lemma arg_inv_parent (s : option bool) (a : ArgNode) :
  arg_inv s a = true → a_selected a = Some true → s = Some true.
Proof.
  unfold arg_inv. intros H Hsel. rewrite Hsel in H. simpl in H.
  by destruct s as [[|]|].
Qed.

Lemma Forall_insert_except {A : Type} (P : A → Prop) (l : list A) (i : nat) (x : A) :
  (∀ j a, j ≠ i → l !! j = Some a → P a) → P x → Forall P (<[i := x]> l).
Proof.
  intros Hl Hx. apply Forall_lookup. intros j a.
  destruct (decide (j = i)) as [->|Hne].
  - destruct (decide (i < length l)) as [Hlt|Hge].
    + rewrite list_lookup_insert_eq by done. by intros [= <-].
    + rewrite list_insert_ge by lia. intros Ha.
      apply lookup_lt_Some in Ha. lia.
  - rewrite list_lookup_insert_ne by done. by apply Hl.
Qed.

(** [propagateValueSelection] leaves the assertions true of every arg
    when they were true of the args beside the one of the value. *)
Lemma propagateValueSelection_inv (prompt : Prompt) (r r' : LaunchNode)
    (ai vi : nat) (args : list ArgNode) :
  r_children r = Some args →
  (∀ j a, j ≠ ai → args !! j = Some a → arg_inv (r_selected r) a = true) →
  propagateValueSelection prompt r ai vi = Some r' →
  tree_inv r' = true ∧ r_selected r' = Some true
  ∧ ∃ args' arg', r_children r' = Some args' ∧ args' !! ai = Some arg'
      ∧ a_selected arg' = Some true.
Proof.
  intros Hargs Hothers. unfold propagateValueSelection. rewrite Hargs. simpl.
  destruct (args !! ai) as [arg0|] eqn:Harg0; [|done]. simpl.
  destruct (a_children arg0) as [values0|]; [|done]. simpl.
  destruct (values0 !! vi) as [source|]; [|done]. simpl.
  destruct (if negb (truthy (r_selected r)) then _ else _) as [r1|] eqn:Hr1;
    [|done]. simpl.
  assert (r_selected r1 = Some true
          ∧ ∀ args1, r_children r1 = Some args1 →
              ∀ j a, j ≠ ai → args1 !! j = Some a → arg_inv (Some true) a = true)
    as [Hsel1 Hothers1].
  { destruct (truthy (r_selected r)) eqn:Ht; simpl in Hr1.
    - injection Hr1 as <-. apply truthy_true in Ht. split; [done|].
      intros args1 Hargs1 j a Hne Ha. rewrite Hargs in Hargs1.
      injection Hargs1 as <-. rewrite <- Ht. by eapply Hothers.
    - pose proof (propagateRosLaunchSelection_inv _ _ _ Hr1) as Hinv.
      apply propagateRosLaunchSelection_keeps in Hr1 as [Hsel1 _].
      simpl in Hsel1. split; [done|].
      intros args1 Hargs1 j a Hne Ha.
      apply (tree_inv_Forall r1 args1 Hargs1) in Hinv. rewrite Hsel1 in Hinv.
      by eapply Forall_lookup_1 in Hinv. }
  destruct (r_children r1) as [args1|] eqn:Hargs1; [|done]. simpl.
  destruct (args1 !! ai) as [arg1|] eqn:Harg1; [|done]. simpl.
  destruct (propagateArgSelection _ _) as [[ok arg3]|] eqn:Hrun; [|done]. simpl.
  intros [= <-]. simpl. apply propagateArgSelection_keeps in Hrun. simpl in Hrun.
  split; [|split; [done|]].
  - apply (tree_inv_Forall
             (mkLaunchNode (r_selected r1) (r_ui_selected r1) (Some (<[ai := arg3]> args1)))
             (<[ai := arg3]> args1) eq_refl).
    simpl. rewrite Hsel1. apply Forall_insert_except.
    + by apply Hothers1.
    + by apply arg_inv_selected.
  - exists (<[ai := arg3]> args1), arg3. split; [done|]. split; [|done].
    apply list_lookup_insert_eq. by apply lookup_lt_Some in Harg1.
Qed.

(** X21. The assertions written in the handlers, once true of a launch
    file (an arg is discarded exactly when the launch file is, a
    selected arg has a selected launch file, a selected value has a
    selected arg), are true again after a click on the launch file, on
    any of its args or on any value of them, whatever is answered to
    the prompt. *)
Theorem handlers_keep_assertions (prompt : Prompt) (r : LaunchNode) :
  tree_inv r = true →
  (∀ r', onSelectRosLaunch prompt r = Some r' → tree_inv r' = true)
  ∧ (∀ ai r', onSelectArg prompt r ai = Some r' → tree_inv r' = true)
  ∧ (∀ ai vi r', onSelectValue prompt r ai vi = Some r' → tree_inv r' = true).
Proof.
  intros Hinv. split; [|split].
  - intros r'. unfold onSelectRosLaunch.
    destruct (bool_decide (r_ui_selected r = r_selected r)); simpl.
    + apply propagateRosLaunchSelection_inv.
    + by intros [= <-].
  - intros ai r'. unfold onSelectArg.
    destruct (r_children r) as [args|] eqn:Hargs; [|done]. simpl.
    destruct (args !! ai) as [d|] eqn:Hd; [|done]. simpl.
    pose proof Hinv as HF. apply (tree_inv_Forall r args Hargs) in HF.
    pose proof (Forall_lookup_1 _ _ _ _ HF Hd) as Hd_inv. simpl in Hd_inv.
    destruct (bool_decide (a_ui_selected d = a_selected d)); simpl.
    + destruct (bool_decide (a_selected d = Some false)); [by intros [= <-]|].
      destruct (truthy (a_selected d)) eqn:Ht.
      * apply truthy_true in Ht.
        pose proof (arg_inv_parent _ _ Hd_inv Ht) as Hs.
        destruct (a_children d) as [vals|] eqn:Hvals.
        2: { by rewrite propagateArgSelection_no_children. }
        rewrite (propagateArgSelection_open prompt (set_arg None d) vals) by done.
        simpl. intros [= <-].
        apply (tree_inv_Forall (with_args r _) _ eq_refl). simpl.
        apply Forall_insert; [done|]. apply arg_inv_unknown. by rewrite Hs.
      * destruct (propagateRosLaunchSelection _ _) as [r1|] eqn:Hr1; [|done]. simpl.
        pose proof (propagateRosLaunchSelection_inv _ _ _ Hr1) as Hinv1.
        apply propagateRosLaunchSelection_keeps in Hr1 as [Hsel1 _].
        simpl in Hsel1.
        destruct (r_children r1) as [args1|] eqn:Hargs1; [|done]. simpl.
        destruct (args1 !! ai) as [d1|]; [|done]. simpl.
        destruct (propagateArgSelection _ _) as [[ok d3]|] eqn:Hrun; [|done].
        simpl. intros [= <-]. apply propagateArgSelection_keeps in Hrun.
        apply (tree_inv_Forall (with_args r1 _) _ eq_refl). simpl.
        apply (tree_inv_Forall r1 args1 Hargs1) in Hinv1.
        apply Forall_insert; [done|]. rewrite Hsel1. by apply arg_inv_selected.
    + destruct (truthy (a_selected d)) eqn:Ht.
      * apply truthy_true in Ht.
        pose proof (arg_inv_parent _ _ Hd_inv Ht) as Hs.
        destruct (propagateArgSelection _ _) as [[ok d3]|] eqn:Hrun; [|done].
        simpl. intros [= <-]. apply propagateArgSelection_keeps in Hrun.
        simpl in Hrun.
        apply (tree_inv_Forall (with_args r _) _ eq_refl). simpl.
        apply Forall_insert; [done|]. rewrite Hs. apply arg_inv_selected.
        by rewrite Hrun.
      * intros [= <-].
        apply (tree_inv_Forall (with_args r _) _ eq_refl). simpl.
        by apply Forall_insert.
  - intros ai vi r'. unfold onSelectValue.
    destruct (r_children r) as [args|] eqn:Hargs; [|done]. simpl.
    destruct (args !! ai) as [arg|] eqn:Harg; [|done]. simpl.
    destruct (a_children arg) as [values|] eqn:Hvals; [|done]. simpl.
    destruct (values !! vi) as [d|] eqn:Hd; [|done]. simpl.
    destruct (bool_decide (a_selected arg = Some false)); [by intros [= <-]|].
    destruct (setValueSelected _ _ _ _) as [[|] d1] eqn:Hset; simpl.
    + destruct (propagateValueSelection _ _ _ _) as [r2|] eqn:Hr2; [|done]. simpl.
      apply (propagateValueSelection_inv prompt
               (with_args r (<[ai := with_values arg (<[vi := d1]> values)]> args))
               r2 ai vi (<[ai := with_values arg (<[vi := d1]> values)]> args) eq_refl)
        in Hr2 as (Hinv2 & Hsel2 & args2 & arg2 & Hargs2 & Harg2 & Hsel_arg2).
      2: { simpl. intros j a Hne. rewrite list_lookup_insert_ne by done.
           apply (tree_inv_Forall r args Hargs) in Hinv.
           intros Ha. by eapply Forall_lookup_1 in Hinv. }
      rewrite Hargs2. simpl. rewrite Harg2. simpl.
      destruct (a_children arg2) as [values2|]; [|done]. simpl.
      destruct (values2 !! vi) as [d2|]; [|done]. simpl.
      intros [= <-].
      apply (tree_inv_Forall (with_args r2 _) _ eq_refl). simpl.
      apply (tree_inv_Forall r2 args2 Hargs2) in Hinv2.
      apply Forall_insert; [done|]. rewrite Hsel2. by apply arg_inv_selected.
    + apply setValueSelected_false in Hset as ->. intros [= <-].
      rewrite (list_insert_id values) by done.
      rewrite with_values_id by done. rewrite (list_insert_id args) by done.
      by rewrite with_args_id.
Qed.

Lemma handlers_keep_assertions_witness :
  (∀ r', onSelectRosLaunch (always "true")
           (mkLaunchNode (Some true) (Some true) (r_children sample_launch)) = Some r' →
     tree_inv r' = true)
  ∧ (∀ ai r', onSelectArg (always "true")
                (mkLaunchNode (Some true) (Some true) (r_children sample_launch)) ai
              = Some r' →
       tree_inv r' = true)
  ∧ (∀ ai vi r', onSelectValue (always "true")
                   (mkLaunchNode (Some true) (Some true) (r_children sample_launch)) ai vi
                 = Some r' →
       tree_inv r' = true).
Proof.
  apply (handlers_keep_assertions (always "true")
           (mkLaunchNode (Some true) (Some true) (r_children sample_launch))).
  reflexivity.
Defined.

End FeatureTreeMore.
Section ValueTreeFacts.
Import ValueTree.

Lemma Datum_forall_ind (P : Datum → Prop) :
  (∀ v u cs, Forall P cs → P (mkDatum v u cs)) → ∀ d, P d.
Proof.
  intros H. fix IH 1. intros [v u cs]. apply H.
  induction cs as [|c cs IHcs]; constructor; [apply IH|exact IHcs].
Qed.

Lemma forallb_fmap_Forall {A : Type} (p : A → bool) (f : A → A) (l : list A) :
  Forall (fun x => p (f x) = true) l → forallb p (f <$> l) = true.
Proof.
  induction 1 as [|x l Hx _ IH]; [done|].
  rewrite fmap_cons. cbn [forallb]. rewrite Hx. exact IH.
Qed.

Lemma assign_below_all (fv : Datum → option bool) (p : Datum → bool) (d : Datum) :
  (∀ v u cs cs', p (mkDatum (fv (mkDatum v u cs)) u cs') = true) →
  all_below p (assign_below fv d) = true.
Proof.
  intros Hp. induction d as [v u cs IH] using Datum_forall_ind. simpl.
  rewrite Hp. simpl. by apply forallb_fmap_Forall.
Qed.

Lemma erase_assign_below (fv : Datum → option bool) (d : Datum) :
  erase (assign_below fv d) = erase d.
Proof.
  induction d as [v u cs IH] using Datum_forall_ind. simpl. f_equal.
  rewrite <- list_fmap_compose. apply list_fmap_ext. intros i c Hc.
  eapply Forall_lookup_1 in IH; [|exact Hc]. exact IH.
Qed.

(** X22. What a click handled by [onValueLabelClick] on a node other
    than the root does below the node: from [true] to [false], every
    datum below gets [value] false; from [false] to unknown, every
    datum below gets back its [userValue] as [value]; from unknown to
    [true], nothing below changes.  In no case does anything below
    change but [value]s. *)
Theorem onValueLabelClick_below (d : TreeNode) :
  ancestors d ≠ [] →
  let below := children (data (onValueLabelClick d)) in
  match value (data d) with
  | Some true =>
      forallb (all_below (fun x => bool_decide (value x = Some false))) below = true
  | Some false =>
      forallb (all_below (fun x => bool_decide (value x = userValue x))) below = true
  | None => below = children (data d)
  end
  ∧ erase <$> below = erase <$> children (data d).
Proof.
  destruct d as [up [v u cs]]. simpl. intros Hup.
  unfold onValueLabelClick, propagateSelection. simpl.
  destruct up as [|n up]; [done|].
  destruct v as [[|]|]; simpl.
  - split.
    + apply forallb_fmap_Forall, Forall_forall. intros c _.
      by apply assign_below_all.
    + rewrite <- list_fmap_compose. apply list_fmap_ext. intros i c _.
      apply erase_assign_below.
  - split.
    + apply forallb_fmap_Forall, Forall_forall. intros c _.
      apply assign_below_all. intros v u0 cs0 cs'. simpl.
      by rewrite bool_decide_true.
    + rewrite <- list_fmap_compose. apply list_fmap_ext. intros i c _.
      apply erase_assign_below.
  - done.
Qed.

Lemma onValueLabelClick_below_witness :
  let below := children (data (onValueLabelClick sample_node)) in
  match value (data sample_node) with
  | Some true =>
      forallb (all_below (fun x => bool_decide (value x = Some false))) below = true
  | Some false =>
      forallb (all_below (fun x => bool_decide (value x = userValue x))) below = true
  | None => below = children (data sample_node)
  end
  ∧ erase <$> below = erase <$> children (data sample_node).
Proof. apply (onValueLabelClick_below sample_node). discriminate. Defined.

Lemma recalculateValue_true (n : Frame) :
  f_unfolded n = true →
  recalculateValue (Some true) n
  = mkFrame (Some true) (f_userValue n) true (f_before n) (f_after n).
Proof.
  intros Hn. unfold recalculateValue. rewrite Hn. simpl.
  rewrite existsb_app. simpl. by rewrite orb_true_r.
Qed.

Lemma recalculate_up_true (up : list Frame) (root : Frame) :
  Forall (fun n => f_unfolded n = true) up →
  recalculate_up (Some true) (up ++ [root])%list
  = (((fun n => mkFrame (Some true) (f_userValue n) true (f_before n) (f_after n))
        <$> up) ++ [root])%list.
Proof.
  induction 1 as [|n up Hn _ IH]; [done|].
  change (recalculate_up (Some true) ((n :: up) ++ [root])%list)
    with (match (up ++ [root])%list with
          | [] => [n]
          | _ => recalculateValue (Some true) n
                 :: recalculate_up (f_value (recalculateValue (Some true) n))
                      (up ++ [root])%list
          end).
  destruct (up ++ [root])%list as [|m rest] eqn:Happ.
  { by destruct up. }
  rewrite recalculateValue_true by done. cbn [f_value]. by rewrite IH.
Qed.

Lemma recalculate_up_root (v : option bool) (up : list Frame) :
  length (recalculate_up v up) = length up
  ∧ last (recalculate_up v up) = last up.
Proof.
  revert v. induction up as [|n up IH]; intros v; [done|].
  destruct up as [|m up]; [done|].
  change (recalculate_up v (n :: m :: up))
    with (recalculateValue v n
          :: recalculate_up (f_value (recalculateValue v n)) (m :: up)).
  destruct (IH (f_value (recalculateValue v n))) as [Hlen Hlast].
  split; [simpl in *; by rewrite Hlen|].
  destruct (recalculate_up _ (m :: up)) as [|x xs]; [done|].
  by rewrite !last_cons_cons.
Qed.

(** X23. What a click handled by [onValueLabelClick] does above the
    node: the root is never changed; and when the click selects the
    node (its [value] was unknown) and every ancestor below the root is
    unfolded, each of these ancestors gets [value] true and keeps
    everything else. *)
Theorem onValueLabelClick_above (d : TreeNode) (up : list Frame) (root : Frame) :
  ancestors d = (up ++ [root])%list →
  last (ancestors (onValueLabelClick d)) = Some root
  ∧ length (ancestors (onValueLabelClick d)) = S (length up)
  ∧ (value (data d) = None → Forall (fun n => f_unfolded n = true) up →
     ancestors (onValueLabelClick d)
     = ((fun n => mkFrame (Some true) (f_userValue n) true (f_before n) (f_after n))
          <$> up) ++ [root])%list.
Proof.
  destruct d as [anc [v u cs]]. simpl. intros ->.
  unfold onValueLabelClick. simpl.
  destruct (up ++ [root])%list as [|n rest] eqn:Happ.
  { by destruct up. }
  rewrite <- Happ. clear n rest Happ.
  set (v' := if truthy v then Some false
             else if bool_decide (v = Some false) then None else Some true).
  assert (ancestors (propagateSelection
                       (mkTreeNode (up ++ [root])%list (mkDatum v' v' cs)))
          = recalculate_up v' (up ++ [root])%list) as ->.
  { unfold propagateSelection. simpl. by destruct (truthy v'). }
  destruct (recalculate_up_root v' (up ++ [root])%list) as [Hlen Hlast].
  split; [by rewrite Hlast, last_snoc|].
  split; [rewrite Hlen, length_app; simpl; lia|].
  intros -> Hunf. subst v'. simpl. by apply recalculate_up_true.
Qed.

Lemma onValueLabelClick_above_witness :
  last (ancestors (onValueLabelClick
          (mkTreeNode [ mkFrame None None true [] []; mkFrame None None true [] [] ]
             (mkDatum None None [])))) = Some (mkFrame None None true [] [])
  ∧ length (ancestors (onValueLabelClick
              (mkTreeNode [ mkFrame None None true [] []; mkFrame None None true [] [] ]
                 (mkDatum None None [])))) = 2
  ∧ (value (data (mkTreeNode
                    [ mkFrame None None true [] []; mkFrame None None true [] [] ]
                    (mkDatum None None []))) = None →
     Forall (fun n => f_unfolded n = true) [ mkFrame None None true [] [] ] →
     ancestors (onValueLabelClick
                  (mkTreeNode [ mkFrame None None true [] []; mkFrame None None true [] [] ]
                     (mkDatum None None [])))
     = [ mkFrame (Some true) None true [] []; mkFrame None None true [] [] ]).
Proof.
  apply (onValueLabelClick_above
           (mkTreeNode [ mkFrame None None true [] []; mkFrame None None true [] [] ]
              (mkDatum None None []))
           [ mkFrame None None true [] [] ] (mkFrame None None true [] [])).
  reflexivity.
Defined.

End ValueTreeFacts.


Section FoldingFacts.
Import Folding.

Lemma Node_forall_ind (P : Node → Prop) :
  (∀ i cs fs, Forall P (default [] cs) → Forall P (default [] fs) →
     P (mkNode i cs fs)) →
  ∀ d, P d.
Proof.
  intros H. fix IH 1. intros [i cs fs]. apply H.
  - destruct cs as [l|]; simpl; [|constructor].
    induction l as [|c l IHl]; constructor; [apply IH|exact IHl].
  - destruct fs as [l|]; simpl; [|constructor].
    induction l as [|c l IHl]; constructor; [apply IH|exact IHl].
Qed.

Lemma fmap_ext_Forall {A B : Type} (f g : A → B) (l : list A) :
  Forall (fun x => f x = g x) l → f <$> l = g <$> l.
Proof. induction 1 as [|x l Hx _ IH]; [done|]. by rewrite !fmap_cons, Hx, IH. Qed.

Lemma forallb_fmap_impl {A : Type} (p q : A → bool) (f : A → A) (l : list A) :
  Forall (fun x => p x = true → q (f x) = true) l →
  forallb p l = true → forallb q (f <$> l) = true.
Proof.
  induction 1 as [|x l Hx _ IH]; [done|].
  rewrite fmap_cons. cbn [forallb]. intros [Hp Hl]%andb_true_iff.
  by rewrite Hx, IH.
Qed.

(** X24. A click on the bullet of a node moves its children between
    shown and folded away: the children the selection goes over,
    [children || _children], stay the same; a second click gives the
    node back whenever it did not hold two arrays at once; and
    [onBulletClick] passes the click on to the label exactly when the
    node has no children at all. *)
Theorem click_toggles (d : Node) :
  kids (click d) = kids d
  ∧ (is_Some (children (click d)) ↔ children d = None ∧ is_Some (_children d))
  ∧ (children d = None ∨ _children d = None → click (click d) = d)
  ∧ (onBulletClick d = None ↔ kids d = None).
Proof.
  destruct d as [i [cs|] [fs|]]; unfold onBulletClick, click, kids; simpl.
  - split; [done|]. split; [split; [by intros [? ?]|by intros [? _]]|].
    split; [by intros [?|?]|done].
  - split; [done|]. split; [split; [by intros [? ?]|by intros [? _]]|].
    split; [done|done].
  - split; [done|]. split; [split; [by split; [|eexists]|by eexists]|].
    split; [done|done].
  - split; [done|]. split; [split; [by intros [? ?]|by intros [_ [? ?]]]|].
    split; [done|done].
Qed.

(** X25. [collapse] folds a node away without losing anything: the
    whole tree below the node, shown or folded, is the same after it
    and the node shows no child; and on a hierarchy just built, where
    nothing is folded yet, it leaves no node at all that shows its
    children. *)
Theorem collapse_folds (d : Node) :
  unfolded (collapse d) = unfolded d
  ∧ children (collapse d) = None
  ∧ (fresh d = true → folded (collapse d) = true).
Proof.
  split; [|split].
  - induction d as [i cs fs IHcs IHfs] using Node_forall_ind.
    destruct cs as [cs|]; [|done]. simpl in *. do 2 f_equal.
    rewrite <- list_fmap_compose. by apply fmap_ext_Forall.
  - by destruct d as [i [cs|] fs].
  - induction d as [i cs fs IHcs IHfs] using Node_forall_ind.
    destruct cs as [cs|], fs as [fs|]; try done. simpl in *.
    by apply forallb_fmap_impl.
Qed.

(** The first level of a hierarchy just built, folded. *)
Example collapse_sample :
  collapse (mkNode 1 (Some [ mkNode 2 (Some [ mkNode 3 None None ]) None;
                             mkNode 4 None None ]) None)
  = mkNode 1 None (Some [ mkNode 2 None (Some [ mkNode 3 None None ]);
                          mkNode 4 None None ]).
Proof. reflexivity. Qed.

End FoldingFacts.

Section QueriesFacts.
Import Visibility JsObject SetModel Queries.

Lemma lookup_flag_set_flag {K : Type} `{Countable K}
    (queries : gmap K (gmap string bool)) (k k' : K) (q q' : string) (b : bool) :
  lookup_flag (set_flag queries k q b) k' q'
  = if decide (k' = k ∧ q' = q ∧ q ≠ "__proto__") then Some b
    else lookup_flag queries k' q'.
Proof.
  unfold lookup_flag, set_flag.
  destruct (decide (q = "__proto__")) as [Hproto|Hproto].
  { rewrite bool_decide_true by done. by rewrite decide_False by (by intros (_ & _ & ?)). }
  rewrite bool_decide_false by done.
  destruct (decide (k' = k)) as [->|Hk].
  - rewrite lookup_insert_eq. simpl. destruct (decide (q' = q)) as [->|Hq].
    + rewrite lookup_insert_eq. by rewrite decide_True.
    + rewrite lookup_insert_ne by done.
      rewrite decide_False by (by intros (_ & ? & _)).
      by destruct (queries !! k).
  - rewrite lookup_insert_ne by done. by rewrite decide_False by (by intros [? _]).
Qed.

Lemma set_flag_proto {K : Type} `{Countable K}
    (queries : gmap K (gmap string bool)) (k : K) (b : bool) :
  set_flag queries k "__proto__" b = queries.
Proof. done. Qed.

Lemma flag_proto {K : Type} `{Countable K}
    (queries : gmap K (gmap string bool)) (k : K) :
  flag queries k "__proto__" = false.
Proof. done. Qed.

Lemma flag_lookup {K : Type} `{Countable K}
    (queries : gmap K (gmap string bool)) (k : K) (q : string) :
  q ≠ "__proto__" →
  flag queries k q = bool_decide (lookup_flag queries k q = Some true).
Proof. intros Hq. unfold flag. by rewrite bool_decide_false. Qed.

Lemma elem_of_classed {K : Type} `{Countable K} (cls : gset K) (k k' : K) (active : bool) :
  k' ∈ classed cls k active ↔ if decide (k' = k) then active = true else k' ∈ cls.
Proof.
  unfold classed. destruct active.
  - rewrite elem_of_union, elem_of_singleton.
    destruct (decide (k' = k)); [by split; [|left]|]. by split; [intros [?|?]|right].
  - rewrite elem_of_difference, elem_of_singleton.
    destruct (decide (k' = k)); [by split; [intros [_ ?]|]|]. by split; [intros [? _]|].
Qed.

Lemma forEach_snoc {K S : Type} (keys : list K) (k : K) (body : K → S → option S) (s : S) :
  forEach (keys ++ [k]) body s = forEach keys body s ≫= body k.
Proof. unfold forEach. by rewrite foldl_app. Qed.

(** A loop that writes [false] for one query on every key. *)
Lemma forEach_forget {K : Type} `{Countable K} (keys : list K) (q : string)
    (body : K → gmap K (gmap string bool) → option (gmap K (gmap string bool)))
    (queries : gmap K (gmap string bool)) :
  (∀ k qs, k ∈ keys → body k qs = Some (set_flag qs k q false)) →
  ∃ queries', forEach keys body queries = Some queries'
    ∧ ∀ k q', lookup_flag queries' k q'
        = if decide (k ∈ keys ∧ q' = q ∧ q ≠ "__proto__") then Some false
          else lookup_flag queries k q'.
Proof.
  induction keys as [|k0 keys IH] using rev_ind; intros Hbody.
  - exists queries. split; [done|]. intros k q'.
    by rewrite decide_False by (by intros [?%elem_of_nil _]).
  - destruct IH as (qs1 & Hrun & Hqs1).
    { intros k qs Hk. apply Hbody. apply elem_of_app. by left. }
    rewrite forEach_snoc, Hrun. simpl.
    rewrite Hbody by (apply elem_of_app; right; by apply list_elem_of_singleton).
    eexists. split; [done|]. intros k q'.
    rewrite lookup_flag_set_flag, Hqs1.
    destruct (decide (k = k0 ∧ q' = q ∧ q ≠ "__proto__")) as [H1|H1];
      destruct (decide (k ∈ keys ∧ q' = q ∧ q ≠ "__proto__")) as [H2|H2];
      destruct (decide (k ∈ (keys ++ [k0])%list ∧ q' = q ∧ q ≠ "__proto__")) as [H3|H3];
      try done; exfalso; rewrite elem_of_app, list_elem_of_singleton in H3; tauto.
Qed.

(** A loop that sets the class on every key by a flag. *)
Lemma for_rev_classed {K : Type} `{Countable K} (keys : list K) (active : K → bool)
    (body : K → gset K → option (gset K)) (cls : gset K) :
  (∀ k c, k ∈ keys → body k c = Some (classed c k (active k))) →
  ∃ cls', for_rev keys body cls = Some cls'
    ∧ ∀ k, k ∈ cls' ↔ if decide (k ∈ keys) then active k = true else k ∈ cls.
Proof.
  induction keys as [|k0 keys IH]; intros Hbody.
  - exists cls. split; [done|]. intros k.
    by rewrite decide_False by apply not_elem_of_nil.
  - destruct IH as (cls1 & Hrun & Hcls1).
    { intros k c Hk. apply Hbody. by right. }
    rewrite for_rev_cons, Hrun. simpl. rewrite Hbody by (by left).
    eexists. split; [done|]. intros k. rewrite elem_of_classed.
    destruct (decide (k = k0)) as [->|Hne].
    + by rewrite decide_True by (by left).
    + rewrite Hcls1. destruct (decide (k ∈ keys)).
      * by rewrite decide_True by (by right).
      * by rewrite decide_False by (by intros [?|?]%elem_of_cons).
Qed.

Lemma mapObject_is_Some (b : Board) (q : string) (obj : QueryObject) (m : Marks) :
  is_Some (mapObject b q obj m) ↔ is_Some (target b obj).
Proof.
  unfold mapObject. destruct (target b obj) as [t|]; simpl.
  - split; by eexists.
  - split; by intros [? ?].
Qed.

(** What the loop of [mapQuery] leaves: it runs to its end exactly when
    every object has something to mark, touches no class, and sets the
    flag of the query, unless it is [__proto__], on what the objects
    mark, and no other flag. *)
Lemma mapQuery_spec (b : Board) (q : string) (objs : list QueryObject) (m : Marks) :
  (is_Some (for_rev objs (mapObject b q) m)
   ↔ Forall (fun obj => is_Some (target b obj)) objs)
  ∧ ∀ m', for_rev objs (mapObject b q) m = Some m' →
      node_class m' = node_class m ∧ edge_class m' = edge_class m
      ∧ (∀ v q', lookup_flag (node_queries m') v q'
           = if bool_decide (q' = q ∧ q ≠ "__proto__") && existsb (marks_node b v) objs
             then Some true else lookup_flag (node_queries m) v q')
      ∧ (∀ e q', lookup_flag (edge_queries m') e q'
           = if bool_decide (q' = q ∧ q ≠ "__proto__") && existsb (marks_edge b e) objs
             then Some true else lookup_flag (edge_queries m) e q').
Proof.
  induction objs as [|obj objs [IHrun IHm]].
  - split; [by split; [constructor|eexists]|].
    intros m' [= <-]. do 2 (split; [done|]).
    split; intros k q'; by rewrite andb_false_r.
  - rewrite for_rev_cons. split.
    + rewrite Forall_cons. destruct (for_rev objs (mapObject b q) m) as [m1|]; simpl.
      * rewrite mapObject_is_Some. destruct IHrun as [IHrun _].
        split; [intros Ht; split; [done|apply IHrun; by eexists]|by intros [? _]].
      * split; [by intros [? ?]|]. intros [_ Hall]. by apply IHrun in Hall.
    + intros m'. destruct (for_rev objs (mapObject b q) m) as [m1|]; [|done]. simpl.
      destruct (IHm m1 eq_refl) as (Hnc & Hec & Hn & He).
      unfold mapObject, marks_node, marks_edge.
      destruct (target b obj) as [[v0|e0|]|]; simpl; [| | |done]; intros [= <-]; simpl.
      * do 2 (split; [done|]). split.
        -- intros v q'. rewrite lookup_flag_set_flag, Hn.
           destruct (decide (q' = q ∧ q ≠ "__proto__")) as [Hq|Hq].
           ++ rewrite bool_decide_true by done. simpl.
              destruct (decide (v0 = v)) as [->|Hv].
              ** rewrite decide_True by tauto. by rewrite bool_decide_true.
              ** rewrite decide_False by (intros (? & _); congruence).
                 by rewrite bool_decide_false.
           ++ rewrite bool_decide_false by done. simpl.
              by rewrite decide_False by tauto.
        -- intros e q'. by rewrite He.
      * do 2 (split; [done|]). split.
        -- intros v q'. by rewrite Hn.
        -- intros e q'. rewrite lookup_flag_set_flag, He.
           destruct (decide (q' = q ∧ q ≠ "__proto__")) as [Hq|Hq].
           ++ rewrite bool_decide_true by done. simpl.
              destruct (decide (e0 = e)) as [->|Hv].
              ** rewrite decide_True by tauto. by rewrite bool_decide_true.
              ** rewrite decide_False by (intros (? & _); congruence).
                 by rewrite bool_decide_false.
           ++ rewrite bool_decide_false by done. simpl.
              by rewrite decide_False by tauto.
      * do 2 (split; [done|]). split.
        -- intros v q'. by rewrite Hn.
        -- intros e q'. by rewrite He.
Qed.

Lemma forgetQuery_spec (b : Board) (q : string) (m : Marks) :
  wf_graph (b_graph b) →
  ∃ m', forgetQuery b q m = Some m'
    ∧ node_class m' = node_class m ∧ edge_class m' = edge_class m
    ∧ (∀ v q', lookup_flag (node_queries m') v q'
         = if decide (v ∈ nodes (b_graph b) ∧ q' = q ∧ q ≠ "__proto__") then Some false
           else lookup_flag (node_queries m) v q')
    ∧ (∀ e q', lookup_flag (edge_queries m') e q'
         = if decide (e ∈ edges (b_graph b) ∧ q' = q ∧ q ≠ "__proto__") then Some false
           else lookup_flag (edge_queries m) e q').
Proof.
  intros Hwf. unfold forgetQuery.
  destruct (forEach_forget (nodes (b_graph b)) q
              (fun k nq => v ← node (b_graph b) k;
                           Some (set_flag nq (model_id v) q false))
              (node_queries m)) as (nq & -> & Hnq).
  { intros k qs Hk%elem_of_nodes.
    destruct (wf_node _ _ Hwf Hk) as (v & -> & Hid). simpl. by rewrite Hid. }
  destruct (forEach_forget (edges (b_graph b)) q
              (fun e eq => _ ← edge (b_graph b) e; Some (set_flag eq e q false))
              (edge_queries m)) as (eq & -> & Heq).
  { intros e qs [l Hl]%elem_of_edges. unfold edge. by rewrite Hl. }
  simpl. by eexists.
Qed.

Lemma setHighlights_spec (b : Board) (q : string) (m : Marks) :
  wf_graph (b_graph b) →
  ∃ m', setHighlights b q m = Some m'
    ∧ node_queries m' = node_queries m ∧ edge_queries m' = edge_queries m
    ∧ (∀ v, v ∈ node_class m'
         ↔ if decide (v ∈ nodes (b_graph b)) then flag (node_queries m) v q = true
           else v ∈ node_class m)
    ∧ (∀ e, e ∈ edge_class m'
         ↔ if decide (e ∈ edges (b_graph b)) then flag (edge_queries m) e q = true
           else e ∈ edge_class m).
Proof.
  intros Hwf. unfold setHighlights.
  destruct (for_rev_classed (nodes (b_graph b))
              (fun v => flag (node_queries m) v q)
              (fun k nc => v ← node (b_graph b) k;
                 Some (classed nc (model_id v) (flag (node_queries m) (model_id v) q)))
              (node_class m)) as (nc & -> & Hnc).
  { intros k c Hk%elem_of_nodes.
    destruct (wf_node _ _ Hwf Hk) as (v & -> & Hid). simpl. by rewrite Hid. }
  destruct (for_rev_classed (edges (b_graph b))
              (fun e => flag (edge_queries m) e q)
              (fun e ec => _ ← edge (b_graph b) e;
                 Some (classed ec e (flag (edge_queries m) e q)))
              (edge_class m)) as (ec & -> & Hec).
  { intros e c [l Hl]%elem_of_edges. unfold edge. by rewrite Hl. }
  simpl. by eexists.
Qed.

Lemma existsb_marks_node (b : Board) (v : string) (objs : list QueryObject) :
  existsb (marks_node b v) objs = true
  ↔ ∃ obj, obj ∈ objs ∧ target b obj = Some (TNode v).
Proof.
  rewrite existsb_exists. unfold marks_node. split.
  - intros (obj & Hin%list_elem_of_In & Hm). exists obj. split; [done|].
    destruct (target b obj) as [[v'| |]|]; try done.
    by apply bool_decide_eq_true in Hm as ->.
  - intros (obj & Hin & Ht). exists obj. split; [by apply list_elem_of_In|].
    rewrite Ht. by apply bool_decide_eq_true.
Qed.

Lemma existsb_marks_edge (b : Board) (e : string * string) (objs : list QueryObject) :
  existsb (marks_edge b e) objs = true
  ↔ ∃ obj, obj ∈ objs ∧ target b obj = Some (TEdge e).
Proof.
  rewrite existsb_exists. unfold marks_edge. split.
  - intros (obj & Hin%list_elem_of_In & Hm). exists obj. split; [done|].
    destruct (target b obj) as [[|e'|]|]; try done.
    by apply bool_decide_eq_true in Hm as ->.
  - intros (obj & Hin & Ht). exists obj. split; [by apply list_elem_of_In|].
    rewrite Ht. by apply bool_decide_eq_true.
Qed.

(** The three calls of [onQueryInput], one after the other. *)
Lemma onQueryInput_steps (b : Board) (data : Query) (m : Marks) :
  wf_graph (b_graph b) →
  ∃ m1, forgetQuery b (qid data) m = Some m1
    ∧ (is_Some (onQueryInput b data m)
       ↔ ∀ obj, obj ∈ objects data → is_Some (target b obj))
    ∧ ∀ m', onQueryInput b data m = Some m' →
        ∃ m2, mapQuery b data m1 = Some m2 ∧ setHighlights b (qid data) m2 = Some m'.
Proof.
  intros Hwf. unfold onQueryInput.
  destruct (forgetQuery_spec b (qid data) m Hwf) as (m1 & Hm1 & _).
  exists m1. split; [done|]. rewrite Hm1. simpl. unfold mapQuery.
  destruct (mapQuery_spec b (qid data) (objects data) m1) as [Hrun _].
  rewrite <- Forall_forall, <- Hrun.
  destruct (for_rev (objects data) (mapObject b (qid data)) m1) as [m2|]; simpl.
  - split.
    + destruct (setHighlights_spec b (qid data) m2 Hwf) as (m' & -> & _).
      split; by eexists.
    + intros m' Hm'. by exists m2.
  - split; [by split; intros [? ?]|done].
Qed.

(** What [target] is, spelled out.  On a graph within the invariant the
    view stored under an id is the view of the model with that id. *)
Lemma view_of_spec (g : Graph) (mapping : gmap string string) (k : string) (t : Target) :
  wf_graph g →
  (x ← get mapping k; v ← node g (id_of x); Some (TNode (model_id v))) = Some t
  ↔ ∃ x, get mapping k = Some x ∧ is_Some (node g (id_of x)) ∧ t = TNode (id_of x).
Proof.
  intros Hwf. destruct (get mapping k) as [x|]; simpl.
  2: { split; [done|]. by intros (x & ? & _). }
  destruct (node g (id_of x)) as [v|] eqn:Hv; simpl.
  - assert (model_id v = id_of x) as ->.
    { apply node_Some in Hv. by destruct (wf_label _ Hwf _ _ Hv) as (? & [= <-] & ?). }
    split.
    + intros [= <-]. exists x. by split; [|split; [eexists|]].
    + by intros (x' & [= <-] & _ & ->).
  - split; [done|]. intros (x' & [= <-] & Hn & _). rewrite Hv in Hn. by destruct Hn.
Qed.

Lemma target_spec (b : Board) (obj : QueryObject) (t : Target) :
  wf_graph (b_graph b) →
  target b obj = Some t
  ↔ (∃ mapping x,
       ((o_resourceType obj = "node" ∧ mapping = b_nodes b)
        ∨ (o_resourceType obj = "topic" ∧ mapping = b_topics b)
        ∨ (o_resourceType obj = "service" ∧ mapping = b_services b)
        ∨ (o_resourceType obj = "param" ∧ mapping = b_params b))
       ∧ get mapping (key (o_uid obj)) = Some x
       ∧ is_Some (node (b_graph b) (id_of x))
       ∧ t = TNode (id_of x))
    ∨ (o_resourceType obj = "link"
       ∧ ∃ x1 x2,
           get (b_nodes b) (key (o_node_uid obj)) = Some x1
           ∧ (get (b_topics b) (key (o_topic_uid obj)) = Some x2
              ∨ (get (b_topics b) (key (o_topic_uid obj)) = None
                 ∧ get (b_services b) (key (o_service_uid obj)) = Some x2)
              ∨ (get (b_topics b) (key (o_topic_uid obj)) = None
                 ∧ get (b_services b) (key (o_service_uid obj)) = None
                 ∧ get (b_params b) (key (o_param_uid obj)) = Some x2))
           ∧ ((hasEdge (b_graph b) (id_of x1) (id_of x2) = true
               ∧ t = TEdge (id_of x1, id_of x2))
              ∨ (hasEdge (b_graph b) (id_of x1) (id_of x2) = false
                 ∧ hasEdge (b_graph b) (id_of x2) (id_of x1) = true
                 ∧ t = TEdge (id_of x2, id_of x1))))
    ∨ ((o_resourceType obj ∉ ["node"; "topic"; "service"; "param"; "link"])
       ∧ t = TNothing).
Proof.
  intros Hwf. unfold target. cbv zeta.
  destruct (String.eqb_spec (o_resourceType obj) "node") as [Hty|Hn1].
  { rewrite view_of_spec by done. rewrite Hty. split.
    - intros (x & ? & ? & ?). left. exists (b_nodes b), x. split; [by left|done].
    - intros [(mapping & x & Hk & ? & ? & ?)|[[? _]|[Hk _]]]; [|done|].
      + destruct Hk as [[_ ->]|[[? _]|[[? _]|[? _]]]]; [|done..]. by exists x.
      + exfalso. apply Hk. set_solver. }
  destruct (String.eqb_spec (o_resourceType obj) "topic") as [Hty|Hn2].
  { rewrite view_of_spec by done. rewrite Hty. split.
    - intros (x & ? & ? & ?). left. exists (b_topics b), x. split; [by right; left|done].
    - intros [(mapping & x & Hk & ? & ? & ?)|[[? _]|[Hk _]]]; [|done|].
      + destruct Hk as [[? _]|[[_ ->]|[[? _]|[? _]]]]; [done| |done..]. by exists x.
      + exfalso. apply Hk. set_solver. }
  destruct (String.eqb_spec (o_resourceType obj) "service") as [Hty|Hn3].
  { rewrite view_of_spec by done. rewrite Hty. split.
    - intros (x & ? & ? & ?). left. exists (b_services b), x.
      split; [by right; right; left|done].
    - intros [(mapping & x & Hk & ? & ? & ?)|[[? _]|[Hk _]]]; [|done|].
      + destruct Hk as [[? _]|[[? _]|[[_ ->]|[? _]]]]; [done..| |done]. by exists x.
      + exfalso. apply Hk. set_solver. }
  destruct (String.eqb_spec (o_resourceType obj) "param") as [Hty|Hn4].
  { rewrite view_of_spec by done. rewrite Hty. split.
    - intros (x & ? & ? & ?). left. exists (b_params b), x.
      split; [by right; right; right|done].
    - intros [(mapping & x & Hk & ? & ? & ?)|[[? _]|[Hk _]]]; [|done|].
      + destruct Hk as [[? _]|[[? _]|[[? _]|[_ ->]]]]; [done..|]. by exists x.
      + exfalso. apply Hk. set_solver. }
  destruct (String.eqb_spec (o_resourceType obj) "link") as [Hty|Hn5].
  { split.
    - intros Ht. right. left. split; [done|].
      destruct (get (b_nodes b) _) as [x1|]; [simpl in Ht|done].
      destruct (get (b_topics b) _) as [x2|] eqn:H2.
      { simpl in Ht. exists x1, x2. split; [done|]. split; [by left|].
        destruct (hasEdge _ (id_of x1) (id_of x2)); [left; by injection Ht as <-|].
        destruct (hasEdge _ (id_of x2) (id_of x1)); [|done].
        right. by injection Ht as <-. }
      destruct (get (b_services b) _) as [x2|] eqn:H3.
      { simpl in Ht. exists x1, x2. split; [done|]. split; [by right; left|].
        destruct (hasEdge _ (id_of x1) (id_of x2)); [left; by injection Ht as <-|].
        destruct (hasEdge _ (id_of x2) (id_of x1)); [|done].
        right. by injection Ht as <-. }
      destruct (get (b_params b) _) as [x2|] eqn:H4; [|done].
      simpl in Ht. exists x1, x2. split; [done|]. split; [by right; right|].
      destruct (hasEdge _ (id_of x1) (id_of x2)); [left; by injection Ht as <-|].
      destruct (hasEdge _ (id_of x2) (id_of x1)); [|done].
      right. by injection Ht as <-.
    - intros [(mapping & x & Hk & _)|[(_ & x1 & x2 & H1 & H2 & He)|[Hk _]]].
      + rewrite Hty in Hk. by destruct Hk as [[? _]|[[? _]|[[? _]|[? _]]]].
      + rewrite H1. simpl.
        assert (match get (b_topics b) (key (o_topic_uid obj)) with
                | Some x => Some x
                | None =>
                    match get (b_services b) (key (o_service_uid obj)) with
                    | Some x => Some x
                    | None => get (b_params b) (key (o_param_uid obj))
                    end
                end = Some x2) as ->.
        { destruct H2 as [->|[(-> & ->)|(-> & -> & ->)]]; done. }
        simpl. destruct He as [(-> & ->)|(-> & -> & ->)]; done.
      + exfalso. apply Hk. rewrite Hty. set_solver. }
  split.
  - intros [= <-]. right. right. split; [|done].
    rewrite !elem_of_cons, elem_of_nil. tauto.
  - intros [(mapping & x & Hk & _)|[[? _]|[_ ->]]]; [|done..].
    by destruct Hk as [[? _]|[[? _]|[[? _]|[? _]]]].
Qed.

(** X26. What [onQueryInput] does with the answer to a query, on a
    board whose graph satisfies the invariant and whose four objects
    are plain: the three calls run to their end exactly when every
    object of the answer has something to mark; and then, for a query
    id other than [__proto__], the views of the graph that carry the
    class ["query-object"] are exactly those that an object of the
    answer marks, and the edges that carry it exactly those that a link
    of the answer marks, whatever was marked or shown before; for the
    query id [__proto__], under which a plain object keeps no flag, no
    view and no edge of the graph carries the class.  What an object
    marks: a resource, the view under the [id] of what the object of its
    type has for its [uid], own or inherited; a link, the edge between
    the [id] of what [this.nodes] has for its node and the [id] of the
    first of topic, service and parameter that is not [undefined], in
    that direction if there is such an edge and else in the other; an
    object of any other type, nothing. *)
Theorem onQueryInput_highlights (b : Board) (data : Query) (m : Marks) :
  wf_graph (b_graph b) → plain_objects b →
  (is_Some (onQueryInput b data m)
   ↔ ∀ obj, obj ∈ objects data → is_Some (target b obj))
  ∧ (∀ m', onQueryInput b data m = Some m' →
      (∀ v, v ∈ nodes (b_graph b) →
         v ∈ node_class m'
         ↔ qid data ≠ "__proto__"
           ∧ ∃ obj, obj ∈ objects data ∧ target b obj = Some (TNode v))
      ∧ (∀ e, e ∈ edges (b_graph b) →
           e ∈ edge_class m'
           ↔ qid data ≠ "__proto__"
             ∧ ∃ obj, obj ∈ objects data ∧ target b obj = Some (TEdge e)))
  ∧ (∀ obj t,
      target b obj = Some t
        ↔ (∃ mapping x,
             ((o_resourceType obj = "node" ∧ mapping = b_nodes b)
              ∨ (o_resourceType obj = "topic" ∧ mapping = b_topics b)
              ∨ (o_resourceType obj = "service" ∧ mapping = b_services b)
              ∨ (o_resourceType obj = "param" ∧ mapping = b_params b))
             ∧ get mapping (key (o_uid obj)) = Some x
             ∧ is_Some (node (b_graph b) (id_of x))
             ∧ t = TNode (id_of x))
          ∨ (o_resourceType obj = "link"
             ∧ ∃ x1 x2,
                 get (b_nodes b) (key (o_node_uid obj)) = Some x1
                 ∧ (get (b_topics b) (key (o_topic_uid obj)) = Some x2
                    ∨ (get (b_topics b) (key (o_topic_uid obj)) = None
                       ∧ get (b_services b) (key (o_service_uid obj)) = Some x2)
                    ∨ (get (b_topics b) (key (o_topic_uid obj)) = None
                       ∧ get (b_services b) (key (o_service_uid obj)) = None
                       ∧ get (b_params b) (key (o_param_uid obj)) = Some x2))
                 ∧ ((hasEdge (b_graph b) (id_of x1) (id_of x2) = true
                     ∧ t = TEdge (id_of x1, id_of x2))
                    ∨ (hasEdge (b_graph b) (id_of x1) (id_of x2) = false
                       ∧ hasEdge (b_graph b) (id_of x2) (id_of x1) = true
                       ∧ t = TEdge (id_of x2, id_of x1))))
          ∨ ((o_resourceType obj ∉ ["node"; "topic"; "service"; "param"; "link"])
             ∧ t = TNothing)).
Proof.
  intros Hwf _.
  destruct (onQueryInput_steps b data m Hwf) as (m1 & Hm1 & Hrun & Hsteps).
  split; [done|]. split; [|intros obj t; by apply target_spec].
  intros m' (m2 & Hm2 & Hm')%Hsteps.
  destruct (forgetQuery_spec b (qid data) m Hwf) as (m1' & Hm1' & _ & _ & Hn1 & He1).
  rewrite Hm1 in Hm1'. injection Hm1' as <-.
  destruct (mapQuery_spec b (qid data) (objects data) m1) as [_ Hmap].
  destruct (Hmap m2 Hm2) as (_ & _ & Hn2 & He2).
  destruct (setHighlights_spec b (qid data) m2 Hwf) as (m'' & Hm'' & _ & _ & Hnc & Hec).
  rewrite Hm' in Hm''. injection Hm'' as <-.
  split.
  - intros v Hv. rewrite Hnc, decide_True by done.
    destruct (decide (qid data = "__proto__")) as [Hp|Hp].
    { rewrite Hp, flag_proto. split; [done|]. by intros [? _]. }
    rewrite flag_lookup by done. rewrite <- existsb_marks_node.
    rewrite Hn2, Hn1.
    rewrite (bool_decide_true (qid data = qid data ∧ qid data ≠ "__proto__")) by done.
    simpl. rewrite decide_True by done.
    destruct (existsb (marks_node b v) (objects data)).
    + rewrite bool_decide_true by done. by split.
    + rewrite bool_decide_false by done. split; [done|]. by intros [_ ?].
  - intros e Hedge. rewrite Hec, decide_True by done.
    destruct (decide (qid data = "__proto__")) as [Hp|Hp].
    { rewrite Hp, flag_proto. split; [done|]. by intros [? _]. }
    rewrite flag_lookup by done. rewrite <- existsb_marks_edge.
    rewrite He2, He1.
    rewrite (bool_decide_true (qid data = qid data ∧ qid data ≠ "__proto__")) by done.
    simpl. rewrite decide_True by done.
    destruct (existsb (marks_edge b e) (objects data)).
    + rewrite bool_decide_true by done. by split.
    + rewrite bool_decide_false by done. split; [done|]. by intros [_ ?].
Qed.

Lemma onQueryInput_highlights_witness :
  (is_Some (onQueryInput sample_board sample_query no_marks)
   ↔ ∀ obj, obj ∈ objects sample_query → is_Some (target sample_board obj))
  ∧ (∀ m', onQueryInput sample_board sample_query no_marks = Some m' →
      (∀ v, v ∈ nodes (b_graph sample_board) →
         v ∈ node_class m'
         ↔ qid sample_query ≠ "__proto__"
           ∧ ∃ obj, obj ∈ objects sample_query ∧ target sample_board obj = Some (TNode v))
      ∧ (∀ e, e ∈ edges (b_graph sample_board) →
           e ∈ edge_class m'
           ↔ qid sample_query ≠ "__proto__"
             ∧ ∃ obj, obj ∈ objects sample_query
                      ∧ target sample_board obj = Some (TEdge e)))
  ∧ (∀ obj t,
      target sample_board obj = Some t
        ↔ (∃ mapping x,
             ((o_resourceType obj = "node" ∧ mapping = b_nodes sample_board)
              ∨ (o_resourceType obj = "topic" ∧ mapping = b_topics sample_board)
              ∨ (o_resourceType obj = "service" ∧ mapping = b_services sample_board)
              ∨ (o_resourceType obj = "param" ∧ mapping = b_params sample_board))
             ∧ get mapping (key (o_uid obj)) = Some x
             ∧ is_Some (node (b_graph sample_board) (id_of x))
             ∧ t = TNode (id_of x))
          ∨ (o_resourceType obj = "link"
             ∧ ∃ x1 x2,
                 get (b_nodes sample_board) (key (o_node_uid obj)) = Some x1
                 ∧ (get (b_topics sample_board) (key (o_topic_uid obj)) = Some x2
                    ∨ (get (b_topics sample_board) (key (o_topic_uid obj)) = None
                       ∧ get (b_services sample_board) (key (o_service_uid obj)) = Some x2)
                    ∨ (get (b_topics sample_board) (key (o_topic_uid obj)) = None
                       ∧ get (b_services sample_board) (key (o_service_uid obj)) = None
                       ∧ get (b_params sample_board) (key (o_param_uid obj)) = Some x2))
                 ∧ ((hasEdge (b_graph sample_board) (id_of x1) (id_of x2) = true
                     ∧ t = TEdge (id_of x1, id_of x2))
                    ∨ (hasEdge (b_graph sample_board) (id_of x1) (id_of x2) = false
                       ∧ hasEdge (b_graph sample_board) (id_of x2) (id_of x1) = true
                       ∧ t = TEdge (id_of x2, id_of x1))))
          ∨ ((o_resourceType obj ∉ ["node"; "topic"; "service"; "param"; "link"])
             ∧ t = TNothing)).
Proof.
  apply (onQueryInput_highlights sample_board sample_query no_marks).
  - apply check_wf_sound. vm_compute. reflexivity.
  - repeat split; vm_compute; reflexivity.
Defined.

(** The answer of the sample: the node [c1] and the edge from it to the
    topic [c2] are the ones highlighted. *)
Example onQueryInput_sample :
  (fun m => (node_class m, edge_class m))
    <$> onQueryInput sample_board sample_query no_marks
  = Some ({["c1"]}, {[("c1", "c2")]}).
Proof. vm_compute. reflexivity. Qed.

(** The same answer under the query id [__proto__]: nothing is
    highlighted.  And an answer whose link names its topic by a
    property of [Object.prototype]: the property is taken before the
    parameter is looked at, no edge is found, and the call fails. *)
Example onQueryInput_proto :
  (fun m => (node_class m, edge_class m))
    <$> onQueryInput sample_board (mkQuery "__proto__" (objects sample_query)) no_marks
  = Some (∅, ∅)
  ∧ onQueryInput sample_board inherited_query no_marks = None.
Proof. split; vm_compute; reflexivity. Qed.

(** X27. [onQueryInput] leaves the marks of every other query as they
    were: on a board whose graph satisfies the invariant, a later
    [setHighlights] for another query shows what it would have shown
    before the answer came. *)
Theorem onQueryInput_other_queries (b : Board) (data : Query) (m m' : Marks)
    (q : string) :
  wf_graph (b_graph b) → q ≠ qid data →
  onQueryInput b data m = Some m' →
  (∀ v, flag (node_queries m') v q = flag (node_queries m) v q)
  ∧ (∀ e, flag (edge_queries m') e q = flag (edge_queries m) e q)
  ∧ ∃ h h', setHighlights b q m = Some h ∧ setHighlights b q m' = Some h'
      ∧ node_class h' = node_class h ∧ edge_class h' = edge_class h.
Proof.
  intros Hwf Hq Hrun.
  destruct (onQueryInput_steps b data m Hwf) as (m1 & Hm1 & _ & Hsteps).
  destruct (Hsteps m' Hrun) as (m2 & Hm2 & Hm').
  destruct (forgetQuery_spec b (qid data) m Hwf)
    as (m1' & Hm1' & Hnc1 & Hec1 & Hn1 & He1).
  rewrite Hm1 in Hm1'. injection Hm1' as <-.
  destruct (mapQuery_spec b (qid data) (objects data) m1) as [_ Hmap].
  destruct (Hmap m2 Hm2) as (Hnc2 & Hec2 & Hn2 & He2).
  destruct (setHighlights_spec b (qid data) m2 Hwf)
    as (m'' & Hm'' & Hnq & Heq & Hnc & Hec).
  rewrite Hm' in Hm''. injection Hm'' as <-.
  assert (Hflag_n : ∀ v, flag (node_queries m') v q = flag (node_queries m) v q).
  { intros v. unfold flag. rewrite Hnq, Hn2, Hn1.
    rewrite (bool_decide_false (q = qid data ∧ _)) by (by intros [? _]). simpl.
    by rewrite decide_False by (by intros (_ & ? & _)). }
  assert (Hflag_e : ∀ e, flag (edge_queries m') e q = flag (edge_queries m) e q).
  { intros e. unfold flag. rewrite Heq, He2, He1.
    rewrite (bool_decide_false (q = qid data ∧ _)) by (by intros [? _]). simpl.
    by rewrite decide_False by (by intros (_ & ? & _)). }
  do 2 (split; [done|]).
  destruct (setHighlights_spec b q m Hwf) as (h & Hh & _ & _ & Hhn & Hhe).
  destruct (setHighlights_spec b q m' Hwf) as (h' & Hh' & _ & _ & Hhn' & Hhe').
  exists h, h'. do 2 (split; [done|]). split.
  - apply set_eq. intros v. rewrite Hhn, Hhn'.
    destruct (decide (v ∈ nodes (b_graph b))) as [Hin|Hout].
    + by rewrite Hflag_n.
    + by rewrite Hnc, decide_False, Hnc2, Hnc1 by done.
  - apply set_eq. intros e. rewrite Hhe, Hhe'.
    destruct (decide (e ∈ edges (b_graph b))) as [Hin|Hout].
    + by rewrite Hflag_e.
    + by rewrite Hec, decide_False, Hec2, Hec1 by done.
Qed.

Lemma onQueryInput_other_queries_witness :
  (∀ v, flag (node_queries
                (default no_marks (onQueryInput sample_board sample_query no_marks)))
          v "q2"
        = flag (node_queries no_marks) v "q2")
  ∧ (∀ e, flag (edge_queries
                  (default no_marks (onQueryInput sample_board sample_query no_marks)))
            e "q2"
          = flag (edge_queries no_marks) e "q2")
  ∧ ∃ h h', setHighlights sample_board "q2" no_marks = Some h
      ∧ setHighlights sample_board "q2"
          (default no_marks (onQueryInput sample_board sample_query no_marks))
        = Some h'
      ∧ node_class h' = node_class h ∧ edge_class h' = edge_class h.
Proof.
  apply (onQueryInput_other_queries sample_board sample_query no_marks
           (default no_marks (onQueryInput sample_board sample_query no_marks)) "q2").
  - apply check_wf_sound. vm_compute. reflexivity.
  - discriminate.
  - vm_compute. reflexivity.
Defined.

End QueriesFacts.
